(** * llm_image_tag: a shallow embedding of the plugin and its specification

    The development follows [plugins/llm_image_tag/llm_image_tag.py].

    Python values are modelled by the type [pyval]; a Python [str] is a
    list of Unicode code points.  Code that can raise returns a [result];
    code that touches the results directory, the log or standard output
    runs in the state-and-exception monad [M].

    What the interpreter supplies and the plugin does not define is a
    parameter of the development ([PyRuntime]): the Unicode character
    database above U+00FF, the conversion of a decimal literal into a
    binary float, and the limit on the length of integer literals.  The
    Latin-1 part of the character database (U+0000..U+00FF) is spelled
    out.  Recursion depth and memory are taken to be unbounded. *)

From stdpp Require Import base numbers list option strings gmap.
From Stdlib Require Import DecimalString.
From Stdlib Require DecimalPos DecimalZ.

Set Default Proof Using "Type".
Set Warnings "-register-all".

(** ** Strings *)

(** A character is its code point; a string is the list of its
    characters. *)
Abbreviation char := N.
Abbreviation str := (list N).

(** [u "abc"] is the Python string with the code points of the ASCII
    literal; [q] also turns every apostrophe into a double quote, so that
    texts with double quotes can be written down. *)
Fixpoint u (s : string) : str :=
  match s with
  | EmptyString => []
  | String a s' => Ascii.N_of_ascii a :: u s'
  end.

Definition q (s : string) : str :=
  map (λ c, if (c =? 39)%N then 34%N else c) (u s).

Definition in_range (lo hi c : N) : bool := ((lo <=? c) && (c <=? hi))%N.

Definition is_ascii_digit (c : char) : bool := in_range 48 57 c.
Definition is_ascii_upper (c : char) : bool := in_range 65 90 c.
Definition is_ascii_lower (c : char) : bool := in_range 97 122 c.

(** The Latin-1 rows of the character database, as CPython reports them
    ([str.isspace], [str.isalnum], [str.isprintable], [str.lower]). *)
Definition latin1_isspace (c : char) : bool :=
  in_range 9 13 c || in_range 28 32 c || (c =? 133)%N || (c =? 160)%N.

Definition latin1_isalnum (c : char) : bool :=
  is_ascii_digit c || is_ascii_upper c || is_ascii_lower c
  || (c =? 170)%N || in_range 178 179 c || (c =? 181)%N
  || in_range 185 186 c || in_range 188 190 c
  || in_range 192 214 c || in_range 216 246 c || in_range 248 255 c.

Definition latin1_isprintable (c : char) : bool :=
  in_range 32 126 c || in_range 161 172 c || in_range 174 255 c.

Definition latin1_lower (c : char) : char :=
  if is_ascii_upper c || in_range 192 214 c || in_range 216 222 c
  then (c + 32)%N else c.

(** ** Exceptions *)

Inductive exn_kind :=
  | ValueError | TypeError | AttributeError | KeyError | IndexError
  | OverflowError | OSError | RuntimeError | RecursionError
  | JSONDecodeError.

(** An exception is its class and [str(e)].  Every class above derives
    from [Exception], so [except Exception] catches all of them. *)
Record exn := Exn { exn_class : exn_kind; exn_str : str }.

Inductive result (A : Type) :=
  | Ok (a : A)
  | Raise (e : exn).
Arguments Ok {A} a.
Arguments Raise {A} e.

#[global] Instance result_ret : MRet result := λ A a, Ok a.
#[global] Instance result_bind : MBind result := λ A B f m,
  match m with
  | Ok a => f a
  | Raise e => Raise e
  end.

#[global] Instance result_fmap : FMap result := λ A B f m,
  match m with
  | Ok a => Ok (f a)
  | Raise e => Raise e
  end.

(** [try: body / except Exception as e: handler e] *)
Definition try_except {A} (body : result A) (handler : exn → result A) : result A :=
  match body with
  | Ok a => Ok a
  | Raise e => handler e
  end.

Definition raises {A} (r : result A) : bool :=
  match r with Ok _ => false | Raise _ => true end.

(** ** Python values *)

(** A float is known by what the plugin can observe of it: its [repr],
    whether it is non-zero, and its truncation to an integer (absent for
    infinities and NaN). *)
Record pyfloat := PyFloat {
  float_repr : str;
  float_nonzero : bool;
  float_trunc : option Z;
}.

Inductive pyval :=
  | PNone
  | PBool (b : bool)
  | PInt (z : Z)
  | PFloat (f : pyfloat)
  | PStr (s : str)
  | PList (l : list pyval)
  | PDict (d : list (str * pyval)).

(** The interpreter's side of the model. *)
Record PyRuntime := {
  (** character database, consulted for code points above U+00FF *)
  hi_isspace : char → bool;
  hi_isalnum : char → bool;
  hi_isprintable : char → bool;
  hi_decimal : char → option N;
  (** full lowercase mapping of a code point above U+00FF standing
      between the given left and right contexts (the context matters for
      U+03A3 only) *)
  hi_lower : str → char → str → str;
  (** no lowercase mapping yields an ASCII capital *)
  hi_lower_no_capital :
    ∀ pre c post d, d ∈ hi_lower pre c post → is_ascii_upper d = false;
  (** [float(literal)] for a literal of Python's float grammar *)
  float_of_literal : str → pyfloat;
  (** [sys.get_int_max_str_digits()]; 0 switches the limit off *)
  int_max_str_digits : nat;
  (** [os.path.join] of the platform, for two components *)
  os_path_join : str → str → str;
}.

(** [posixpath.join] *)
Definition posix_join (a b : str) : str :=
  if bool_decide (head b = Some 47%N) then b
  else if bool_decide (a = []) || bool_decide (last a = Some 47%N) then a ++ b
  else a ++ [47%N] ++ b.

(** A POSIX runtime whose character database ends at U+00FF.  It serves
    to evaluate the model on Latin-1 inputs without floats. *)
Definition no_float : pyfloat :=
  {| float_repr := u "nan"; float_nonzero := true; float_trunc := None |}.

Program Definition latin1_runtime : PyRuntime := {|
  hi_isspace := λ _, false;
  hi_isalnum := λ _, false;
  hi_isprintable := λ _, false;
  hi_decimal := λ _, None;
  hi_lower := λ _ c _, if is_ascii_upper c then [] else [c];
  float_of_literal := λ _, no_float;
  int_max_str_digits := 4300;
  os_path_join := posix_join;
|}.
Next Obligation.
  intros pre c post d H. simpl in H. destruct (is_ascii_upper c) eqn:E.
  - by apply elem_of_nil in H.
  - apply list_elem_of_singleton in H. by subst.
Qed.

(** ** The world of one invocation *)

(** The JSON document of a result file: the [payload] that
    [_write_result] dumps. *)
Record TaggingResult := {
  image_id : Z;
  tags : list str;
  error : option str;
  request_id : option str;
}.

Inductive log_level := LogTrace | LogInfo | LogWarn | LogError.

(** What the invocation changes: the files of the results directory by
    path, the helper's log (levels only) and standard output.
    [fs_faults] is the fate of the file-system calls to come, in order:
    [Some msg] makes the next call raise [OSError(msg)]; past its end
    every call succeeds. *)
Record World := {
  files : gmap str TaggingResult;
  fs_faults : list (option str);
  log : list log_level;
  stdout : list str;
}.

(** What the invocation is given: the helper object [stash], the
    environment variables, and the outcome of every call that leaves the
    process.  [_existing_tags], [_read_image_bytes] and
    [_call_llm_b64_image] stand for the functions of these names. *)
Record Env := {
  JSON_INPUT : pyval;
  PLUGIN_TASK_NAME : pyval;
  (** the value the helper holds for a setting: [stash.Setting] returns
      it, or the default it is given when there is none *)
  stash_setting : str → result (option pyval);
  (** [stash._graphql] for the configuration query and for the
      [findImage] query of an image id *)
  graphql_configuration : result pyval;
  graphql_findImage : str → result pyval;
  getenv : str → option str;
  (** directory of the module's own file *)
  module_dir : str;
  _existing_tags : list str;
  _read_image_bytes : pyval → result (list N * str);
  _call_llm_b64_image : list N → str → list str → result str;
}.

(** What the functions that [Env] takes as given reach for in turn: the
    [findTags] query, the two HTTP helpers of the module, and the file
    system and MIME table on the side of the image.  [_http_get] and
    [_http_post_json] stand for the functions of these names, with
    their argument [timeout] left out. *)
Record Net := {
  graphql_findTags : result pyval;
  (** status, headers and body of the reply *)
  _http_get : str → result (Z * gmap str str * list N);
  (** [_http_post_json(url, json_body, headers)] *)
  _http_post_json : str → pyval → gmap str str → result pyval;
  (** [mimetypes.guess_type(os.path.basename(path))[0]] *)
  guess_type : str → option str;
  (** [open(path, "rb")] and [read()] *)
  open_rb : str → result (list N);
}.

Definition M (A : Type) : Type := World → result A * World.

#[global] Instance M_ret : MRet M := λ A a w, (Ok a, w).
#[global] Instance M_bind : MBind M := λ A B f m w,
  match m w with
  | (Ok a, w') => f a w'
  | (Raise e, w') => (Raise e, w')
  end.

Definition lift {A} (r : result A) : M A := λ w, (r, w).

(** [try: body / except Exception as e: handler e] *)
Definition try_catch {A} (body : M A) (handler : exn → M A) : M A := λ w,
  match body w with
  | (Ok a, w') => (Ok a, w')
  | (Raise e, w') => handler e w'
  end.

(** [stash.Trace], [stash.Log], [stash.Warn] and [stash.Error] *)
Definition stash_log (level : log_level) : M unit := λ w,
  (Ok (), {| files := files w; fs_faults := fs_faults w;
             log := log w ++ [level]; stdout := stdout w |}).

(** [print(line)] *)
Definition print (line : str) : M unit := λ w,
  (Ok (), {| files := files w; fs_faults := fs_faults w;
             log := log w; stdout := stdout w ++ [line] |}).

(** A call into the file system: it raises if the next fault says so,
    and applies [change] to the files otherwise.  The faults are those
    of the operating system ([OSError]); the errors that a path with a
    NUL or a lone surrogate draws from [os.makedirs] and [open] are not
    among them.  A call that fails changes no file: of the temporary
    file that a failed [json.dump] leaves behind, empty or cut short,
    the model keeps nothing, so what is proved of the files is proved
    of the final paths and never of the content of a temporary one. *)
Definition fs_call (change : gmap str TaggingResult → gmap str TaggingResult) : M unit := λ w,
  match fs_faults w with
  | Some msg :: rest =>
    (Raise (Exn OSError msg),
     {| files := files w; fs_faults := rest; log := log w; stdout := stdout w |})
  | None :: rest =>
    (Ok (), {| files := change (files w); fs_faults := rest;
               log := log w; stdout := stdout w |})
  | [] =>
    (Ok (), {| files := change (files w); fs_faults := [];
               log := log w; stdout := stdout w |})
  end.

(** ** Sample invocations *)

(** The task for image 7, started by the host in a POSIX plugin
    directory: no setting is saved, no environment variable is set, the
    image is found, and the reply of the model is a JSON array. *)
Definition sample_input (rid : pyval) : pyval :=
  PDict [(u "server_connection", PDict [(u "PluginDir", PStr (u "/plugins/llm_image_tag"))]);
         (u "args", PDict [(u "mode", PStr (u "tag_image_task"));
                           (u "image_id", PInt 7);
                           (u "request_id", rid)])].

Definition found_image : pyval :=
  PDict [(u "data",
          PDict [(u "findImage",
                  PDict [(u "paths", PDict [(u "image", PStr (u "http://stash/image/7"))])])])].

Definition sample_env : Env := {|
  JSON_INPUT := sample_input PNone;
  PLUGIN_TASK_NAME := PStr (u "tag_image_task");
  stash_setting := λ _, Ok None;
  graphql_configuration := Ok PNone;
  graphql_findImage := λ _, Ok found_image;
  getenv := λ _, None;
  module_dir := u "/plugins/llm_image_tag";
  _existing_tags := [];
  _read_image_bytes := λ _, Ok ([255; 216; 255]%N, u "image/jpeg");
  _call_llm_b64_image := λ _ _ _, Ok (q "['cat', 'outdoor']");
|}.

(** The same invocation when the image cannot be fetched. *)
Definition env_fetch_fails : Env := {|
  JSON_INPUT := JSON_INPUT sample_env;
  PLUGIN_TASK_NAME := PLUGIN_TASK_NAME sample_env;
  stash_setting := stash_setting sample_env;
  graphql_configuration := graphql_configuration sample_env;
  graphql_findImage := graphql_findImage sample_env;
  getenv := getenv sample_env;
  module_dir := module_dir sample_env;
  _existing_tags := _existing_tags sample_env;
  _read_image_bytes := λ _,
    Raise (Exn RuntimeError (u "Failed to fetch image URL http://stash/image/7: HTTP 404"));
  _call_llm_b64_image := _call_llm_b64_image sample_env;
|}.

Fixpoint assoc {V} (k : str) (l : list (str * V)) : option V :=
  match l with
  | [] => None
  | (k', x) :: l' => if bool_decide (k' = k) then Some x else assoc k l'
  end.

(** The sample invocation with settings and environment variables of
    its own. *)
Definition env_with (settings : list (str * pyval)) (variables : list (str * str)) : Env := {|
  JSON_INPUT := JSON_INPUT sample_env;
  PLUGIN_TASK_NAME := PLUGIN_TASK_NAME sample_env;
  stash_setting := λ name, Ok (assoc name settings);
  graphql_configuration := graphql_configuration sample_env;
  graphql_findImage := graphql_findImage sample_env;
  getenv := λ name, assoc name variables;
  module_dir := module_dir sample_env;
  _existing_tags := _existing_tags sample_env;
  _read_image_bytes := _read_image_bytes sample_env;
  _call_llm_b64_image := _call_llm_b64_image sample_env;
|}.

(** What lies behind the sample invocation.  The library holds three
    tags, the second of them kept out of automatic tagging; a GET is
    answered with the given status and a PNG with its type; the LLM
    answers with the given reply; the file system holds no image. *)
Definition sample_tags : list pyval :=
  [PDict [(u "name", PStr (u "cat")); (u "aliases", PList [PStr (u "kitten")]);
          (u "ignore_auto_tag", PBool false)];
   PDict [(u "name", PStr (u "secret")); (u "aliases", PList []);
          (u "ignore_auto_tag", PBool true)];
   PDict [(u "name", PStr (u "dog")); (u "aliases", PList [PStr (u "cat")]);
          (u "ignore_auto_tag", PBool false)]].

Definition net_with (tags : list pyval) (status : Z) (llm_reply : result pyval) : Net := {|
  graphql_findTags :=
    Ok (PDict [(u "data", PDict [(u "findTags", PDict [(u "tags", PList tags)])])]);
  _http_get := λ _, Ok (status, {[ u "Content-Type" := u "image/png" ]}, [137; 80; 78; 71]%N);
  _http_post_json := λ _ _ _, llm_reply;
  guess_type := λ _, None;
  open_rb := λ _, Raise (Exn OSError (u "[Errno 2] No such file or directory"));
|}.

(** A reply of the LLM with the given content in its first choice. *)
Definition reply_with (content : pyval) : pyval :=
  PDict [(u "choices",
          PList [PDict [(u "index", PInt 0);
                        (u "message", PDict [(u "role", PStr (u "assistant"));
                                             (u "content", content)])]])].

Definition sample_net : Net :=
  net_with sample_tags 200 (Ok (reply_with (PStr (q "['cat', 'outdoor', 'CAT']")))).

(** The sample invocation with another input object, another reply to
    the configuration query and another task name. *)
Definition env_of (input : pyval) (configuration : result pyval) (task_name : pyval) : Env := {|
  JSON_INPUT := input;
  PLUGIN_TASK_NAME := task_name;
  stash_setting := stash_setting sample_env;
  graphql_configuration := configuration;
  graphql_findImage := graphql_findImage sample_env;
  getenv := getenv sample_env;
  module_dir := module_dir sample_env;
  _existing_tags := _existing_tags sample_env;
  _read_image_bytes := _read_image_bytes sample_env;
  _call_llm_b64_image := _call_llm_b64_image sample_env;
|}.

(** The sample invocation when the LLM replies with the given text. *)
Definition env_replying (content : str) : Env := {|
  JSON_INPUT := JSON_INPUT sample_env;
  PLUGIN_TASK_NAME := PLUGIN_TASK_NAME sample_env;
  stash_setting := stash_setting sample_env;
  graphql_configuration := graphql_configuration sample_env;
  graphql_findImage := graphql_findImage sample_env;
  getenv := getenv sample_env;
  module_dir := module_dir sample_env;
  _existing_tags := _existing_tags sample_env;
  _read_image_bytes := _read_image_bytes sample_env;
  _call_llm_b64_image := λ _ _ _, Ok content;
|}.

(** A world with no file, no fault to come, and nothing logged or
    printed. *)
Definition empty_world : World :=
  {| files := ∅; fs_faults := []; log := []; stdout := [] |}.

(** ** The string library *)

Section python.
Context (rt : PyRuntime).

Definition isspace (c : char) : bool :=
  if (c <? 256)%N then latin1_isspace c else hi_isspace rt c.

Definition isalnum (c : char) : bool :=
  if (c <? 256)%N then latin1_isalnum c else hi_isalnum rt c.

Definition isprintable (c : char) : bool :=
  if (c <? 256)%N then latin1_isprintable c else hi_isprintable rt c.

(** [s.lstrip(...)], [s.rstrip(...)] and [s.strip(...)] for a set of
    characters given by its membership test. *)
Fixpoint lstrip_by (p : char → bool) (s : str) : str :=
  match s with
  | [] => []
  | c :: s' => if p c then lstrip_by p s' else s
  end.

Definition rstrip_by (p : char → bool) (s : str) : str :=
  reverse (lstrip_by p (reverse s)).

Definition strip_by (p : char → bool) (s : str) : str :=
  rstrip_by p (lstrip_by p s).

(** [s.strip()] *)
Definition strip (s : str) : str := strip_by isspace s.

(** [s.strip(chars)] and [s.rstrip(chars)] *)
Definition strip_chars (chars s : str) : str :=
  strip_by (λ c, bool_decide (c ∈ chars)) s.

Definition rstrip_chars (chars s : str) : str :=
  rstrip_by (λ c, bool_decide (c ∈ chars)) s.

(** [s.lower()]: every character is mapped on its own, a character
    above U+00FF in its context. *)
Definition lower_char (pre : str) (c : char) (post : str) : str :=
  if (c <? 256)%N then [latin1_lower c] else hi_lower rt pre c post.

Fixpoint lower_from (pre s : str) : str :=
  match s with
  | [] => []
  | c :: s' => lower_char pre c s' ++ lower_from (pre ++ [c]) s'
  end.

Definition lower (s : str) : str := lower_from [] s.

(** [s.find(c)] and [s.rfind(c)] for a one-character [c]; [None] stands
    for Python's [-1]. *)
Fixpoint find_char (c : char) (s : str) : option nat :=
  match s with
  | [] => None
  | d :: s' => if (d =? c)%N then Some 0 else S <$> find_char c s'
  end.

Fixpoint rfind_char (c : char) (s : str) : option nat :=
  match s with
  | [] => None
  | d :: s' =>
    match rfind_char c s' with
    | Some i => Some (S i)
    | None => if (d =? c)%N then Some 0 else None
    end
  end.

(** [s[i:j]] for [0 <= i <= j] *)
Definition slice (s : str) (i j : nat) : str := take (j - i) (drop i s).

(** [s.split(sep)] for a one-character separator: one more part than
    there are separators. *)
Fixpoint split_on (sep : char) (s : str) : list str :=
  match s with
  | [] => [[]]
  | c :: s' =>
    if (c =? sep)%N then [] :: split_on sep s'
    else match split_on sep s' with
         | part :: parts => (c :: part) :: parts
         | [] => [[c]]
         end
  end.

(** [prefix] is how [s] starts: the rest of [s], if so. *)
Fixpoint strip_prefix (prefix s : str) : option str :=
  match prefix, s with
  | [], _ => Some s
  | p :: prefix', c :: s' => if (p =? c)%N then strip_prefix prefix' s' else None
  | _ :: _, [] => None
  end.

Definition startswith (s prefix : str) : bool := bool_decide (is_Some (strip_prefix prefix s)).

(** ** Built-in operations on values *)

(** [sep.join(parts)] *)
Fixpoint join (sep : str) (parts : list str) : str :=
  match parts with
  | [] => []
  | [p] => p
  | p :: ps => p ++ sep ++ join sep ps
  end.

(** [str(z)] for an integer *)
Definition str_of_int (z : Z) : str := u (NilZero.string_of_int (Z.to_int z)).

Definition hex_digit_char (d : N) : char :=
  if (d <? 10)%N then (48 + d)%N else (87 + d)%N.

(** [n] in hexadecimal on [width] digits, as [%0{width}x] prints it *)
Fixpoint hex_fixed (width : nat) (n : N) : str :=
  match width with
  | O => []
  | S w => hex_fixed w (n / 16)%N ++ [hex_digit_char (n mod 16)%N]
  end.

(** [repr(s)] for a string: CPython's [unicode_repr]. *)
Definition repr_char (quote c : char) : str :=
  if (c =? quote)%N || (c =? 92)%N then [92%N; c]
  else if (c =? 9)%N then u "\t"
  else if (c =? 10)%N then u "\n"
  else if (c =? 13)%N then u "\r"
  else if (c <? 32)%N || (c =? 127)%N then u "\x" ++ hex_fixed 2 c
  else if (c <? 127)%N then [c]
  else if isprintable c then [c]
  else if (c <? 256)%N then u "\x" ++ hex_fixed 2 c
  else if (c <? 65536)%N then u "\u" ++ hex_fixed 4 c
  else u "\U" ++ hex_fixed 8 c.

Definition repr_str (s : str) : str :=
  let quote : char :=
    if bool_decide (39%N ∈ s) && negb (bool_decide (34%N ∈ s)) then 34%N else 39%N in
  [quote] ++ concat (map (repr_char quote) s) ++ [quote].

(** [repr(v)] and [str(v)] *)
Fixpoint py_repr (v : pyval) : str :=
  match v with
  | PNone => u "None"
  | PBool b => if b then u "True" else u "False"
  | PInt z => str_of_int z
  | PFloat f => float_repr f
  | PStr s => repr_str s
  | PList l => u "[" ++ join (u ", ") (map py_repr l) ++ u "]"
  | PDict d =>
    u "{" ++ join (u ", ") (map (λ '(k, x), repr_str k ++ u ": " ++ py_repr x) d) ++ u "}"
  end.

Definition py_str (v : pyval) : str :=
  match v with
  | PStr s => s
  | _ => py_repr v
  end.

(** [type(v).__name__] *)
Definition type_name (v : pyval) : str :=
  match v with
  | PNone => u "NoneType"
  | PBool _ => u "bool"
  | PInt _ => u "int"
  | PFloat _ => u "float"
  | PStr _ => u "str"
  | PList _ => u "list"
  | PDict _ => u "dict"
  end.

(** [bool(v)] *)
Definition py_truthy (v : pyval) : bool :=
  match v with
  | PNone => false
  | PBool b => b
  | PInt z => negb (z =? 0)%Z
  | PFloat f => float_nonzero f
  | PStr s => negb (bool_decide (s = []))
  | PList l => match l with [] => false | _ => true end
  | PDict d => match d with [] => false | _ => true end
  end.

(** [a or b] *)
Definition py_or (a b : pyval) : pyval := if py_truthy a then a else b.

(** [isinstance(v, str) and v.strip()]: the test every source of a
    setting goes through. *)
Definition nonblank_str (v : pyval) : option str :=
  match v with
  | PStr s => if bool_decide (strip s = []) then None else Some s
  | _ => None
  end.

(** Dictionaries keep insertion order; a key set again keeps its place. *)
Fixpoint dict_lookup (d : list (str * pyval)) (k : str) : option pyval :=
  match d with
  | [] => None
  | (k', x) :: d' => if bool_decide (k' = k) then Some x else dict_lookup d' k
  end.

Fixpoint dict_set (d : list (str * pyval)) (k : str) (x : pyval) : list (str * pyval) :=
  match d with
  | [] => [(k, x)]
  | (k', x') :: d' =>
    if bool_decide (k' = k) then (k, x) :: d' else (k', x') :: dict_set d' k x
  end.

Definition no_attribute (v : pyval) (name : str) : exn :=
  Exn AttributeError (u "'" ++ type_name v ++ u "' object has no attribute '" ++ name ++ u "'").

(** [v.get(k, default)]; of the values here only a dict has a [get]. *)
Definition py_get (v : pyval) (k : str) (default : pyval) : result pyval :=
  match v with
  | PDict d => Ok (from_option id default (dict_lookup d k))
  | _ => Raise (no_attribute v (u "get"))
  end.

(** [v == s] for a string [s] *)
Definition py_eq_str (v : pyval) (s : str) : bool :=
  match v with
  | PStr t => bool_decide (t = s)
  | _ => false
  end.

(** ** [int(v)] and [float(v)] *)

(** The white space of the C number parsers ([Py_ISSPACE]). *)
Definition is_c_space (c : char) : bool := in_range 9 13 c || (c =? 32)%N.

(** Before a string is parsed as a number, white space above U+007F
    becomes a blank and a decimal digit of any script its ASCII digit;
    what is neither can be no part of a number. *)
Definition to_ascii_number_char (c : char) : char :=
  if (c <? 128)%N then c
  else if isspace c then 32%N
  else match (if (c <? 256)%N then None else hi_decimal rt c) with
       | Some d => (48 + d)%N
       | None => 63%N
       end.

(** The longest prefix of the form [digit (["_"] digit)*], without its
    underscores, and what follows it. *)
Fixpoint digitpart (s : str) : str * str :=
  match s with
  | [] => ([], [])
  | c :: s' =>
    if is_ascii_digit c then
      match s' with
      | [] => ([c], [])
      | c' :: s'' =>
        if (c' =? 95)%N && from_option is_ascii_digit false (head s'')
        then let '(ds, r) := digitpart s'' in (c :: ds, r)
        else let '(ds, r) := digitpart s' in (c :: ds, r)
      end
    else ([], s)
  end.

Definition split_sign (s : str) : str * str :=
  match s with
  | c :: s' => if (c =? 43)%N || (c =? 45)%N then ([c], s') else ([], s)
  | [] => ([], [])
  end.

Definition digits_value (ds : str) : Z :=
  foldl (λ acc d, (10 * acc + (Z.of_N d - 48))%Z) 0%Z ds.

Definition over_digit_limit (ds : str) : bool :=
  negb (int_max_str_digits rt =? 0) && (int_max_str_digits rt <? length ds).

Definition digit_limit_error : exn :=
  Exn ValueError
      (u "Exceeds the limit (" ++ str_of_int (Z.of_nat (int_max_str_digits rt))
       ++ u " digits) for integer string conversion").

Definition signed (sign : str) (z : Z) : Z :=
  if bool_decide (sign = [45%N]) then (- z)%Z else z.

(** [int(s)] for a string *)
Definition int_of_str (s : str) : result Z :=
  let a := strip_by is_c_space (map to_ascii_number_char s) in
  let '(sign, body) := split_sign a in
  let '(ds, rest) := digitpart body in
  if bool_decide (ds = []) || negb (bool_decide (rest = [])) then
    Raise (Exn ValueError (u "invalid literal for int() with base 10: " ++ repr_str s))
  else if over_digit_limit ds then Raise digit_limit_error
  else Ok (signed sign (digits_value ds)).

Definition py_int (v : pyval) : result Z :=
  match v with
  | PBool b => Ok (if b then 1 else 0)%Z
  | PInt z => Ok z
  | PFloat f =>
    match float_trunc f with
    | Some z => Ok z
    | None => Raise (Exn OverflowError (u "cannot convert float to integer"))
    end
  | PStr s => int_of_str s
  | _ =>
    Raise (Exn TypeError
             (u "int() argument must be a string, a bytes-like object or a real number, not '"
              ++ type_name v ++ u "'"))
  end.

(** The letters of [word], in either case, start [s]. *)
Fixpoint strip_prefix_ci (word s : str) : option str :=
  match word, s with
  | [], _ => Some s
  | w :: word', c :: s' =>
    if (latin1_lower c =? w)%N && (c <? 128)%N then strip_prefix_ci word' s' else None
  | _ :: _, [] => None
  end.

(** The text of a float after its sign: [Some literal] when all of [s]
    is one, in the grammar of [float()]. *)
Definition float_body (s : str) : option str :=
  let named := λ word,
    match strip_prefix_ci (u word) s with
    | Some [] => Some (u word)
    | _ => None
    end in
  match named "infinity", named "inf", named "nan" with
  | Some w, _, _ | None, Some w, _ | None, None, Some w => Some w
  | None, None, None =>
    let '(ip, r) := digitpart s in
    let '(fp, dot, r) :=
      match r with
      | c :: r' => if (c =? 46)%N then let '(fp, r'') := digitpart r' in (fp, [c], r'')
                   else ([], [], r)
      | [] => ([], [], [])
      end in
    if bool_decide (ip = []) && bool_decide (fp = []) then None
    else
      match r with
      | [] => Some (ip ++ dot ++ fp)
      | e :: r' =>
        if (e =? 101)%N || (e =? 69)%N then
          let '(sign, r'') := split_sign r' in
          let '(ds, rest) := digitpart r'' in
          if bool_decide (ds = []) || negb (bool_decide (rest = [])) then None
          else Some (ip ++ dot ++ fp ++ [e] ++ sign ++ ds)
        else None
      end
  end.

(** [float(s)] for a string *)
Definition float_of_str (s : str) : result pyfloat :=
  let a := strip_by is_c_space (map to_ascii_number_char s) in
  let '(sign, body) := split_sign a in
  match float_body body with
  | Some lit => Ok (float_of_literal rt (sign ++ lit))
  | None => Raise (Exn ValueError (u "could not convert string to float: " ++ repr_str s))
  end.

(** The least magnitude of an integer that rounds to no finite float. *)
Definition float_overflow_bound : Z := (2 ^ 1024 - 2 ^ 970)%Z.

Definition py_float (v : pyval) : result pyfloat :=
  match v with
  | PBool b => Ok (float_of_literal rt (if b then u "1" else u "0"))
  | PInt z =>
    if (float_overflow_bound <=? Z.abs z)%Z
    then Raise (Exn OverflowError (u "int too large to convert to float"))
    else Ok (float_of_literal rt (str_of_int z))
  | PFloat f => Ok f
  | PStr s => float_of_str s
  | _ =>
    Raise (Exn TypeError
             (u "float() argument must be a string or a real number, not '"
              ++ type_name v ++ u "'"))
  end.

(** ** [json.loads]

    The decoder of the standard library with its default settings
    (strict strings, [float] and [int] for numbers, [NaN] and the
    infinities accepted).  The message of a [JSONDecodeError] is kept
    without its position. *)

Definition json_error (msg : string) : exn := Exn JSONDecodeError (u msg).

Definition is_json_ws (c : char) : bool :=
  (c =? 32)%N || (c =? 9)%N || (c =? 10)%N || (c =? 13)%N.

Definition skip_ws (s : str) : str := lstrip_by is_json_ws s.

Definition hex_value (c : char) : option N :=
  if is_ascii_digit c then Some (c - 48)%N
  else if in_range 97 102 c then Some (c - 87)%N
  else if in_range 65 70 c then Some (c - 55)%N
  else None.

Definition hex4 (a b c d : char) : option N :=
  a ← hex_value a; b ← hex_value b; c ← hex_value c; d ← hex_value d;
  Some (((a * 16 + b) * 16 + c) * 16 + d)%N.

Definition is_high_surrogate (c : N) : bool := in_range 55296 56319 c.
Definition is_low_surrogate (c : N) : bool := in_range 56320 57343 c.
Definition join_surrogates (hi lo : N) : N :=
  (65536 + (hi - 55296) * 1024 + (lo - 56320))%N.

Definition simple_escape (c : char) : option char :=
  if (c =? 34)%N || (c =? 92)%N || (c =? 47)%N then Some c
  else if (c =? 98)%N then Some 8%N
  else if (c =? 102)%N then Some 12%N
  else if (c =? 110)%N then Some 10%N
  else if (c =? 114)%N then Some 13%N
  else if (c =? 116)%N then Some 9%N
  else None.

(** [scanstring]: [s] follows the opening quote; the result is the
    decoded string [acc ++ ...] and what follows the closing quote. *)
Fixpoint scanstring (s : str) (acc : str) : result (str * str) :=
  match s with
  | [] => Raise (json_error "Unterminated string starting at")
  | c :: s1 =>
    if (c =? 34)%N then Ok (acc, s1)
    else if (c =? 92)%N then
      match s1 with
      | [] => Raise (json_error "Unterminated string starting at")
      | e :: s2 =>
        if (e =? 117)%N then
          match s2 with
          | h1 :: h2 :: h3 :: h4 :: s3 =>
            match hex4 h1 h2 h3 h4 with
            | None => Raise (json_error "Invalid \uXXXX escape")
            | Some c1 =>
              match s3 with
              | b :: v :: g1 :: g2 :: g3 :: g4 :: s4 =>
                if is_high_surrogate c1 && (b =? 92)%N && (v =? 117)%N then
                  match hex4 g1 g2 g3 g4 with
                  | None => Raise (json_error "Invalid \uXXXX escape")
                  | Some c2 =>
                    if is_low_surrogate c2
                    then scanstring s4 (acc ++ [join_surrogates c1 c2])
                    else scanstring s3 (acc ++ [c1])
                  end
                else scanstring s3 (acc ++ [c1])
              | _ => scanstring s3 (acc ++ [c1])
              end
            end
          | _ => Raise (json_error "Invalid \uXXXX escape")
          end
        else
          match simple_escape e with
          | Some c' => scanstring s2 (acc ++ [c'])
          | None => Raise (json_error "Invalid \escape")
          end
      end
    else if (c <=? 31)%N then Raise (json_error "Invalid control character at")
    else scanstring s1 (acc ++ [c])
  end.

Fixpoint take_digits (s : str) : str * str :=
  match s with
  | c :: s' =>
    if is_ascii_digit c then let '(ds, r) := take_digits s' in (c :: ds, r) else ([], s)
  | [] => ([], [])
  end.

(** The number that starts [s]: whether it is a float, its text, and
    what follows it. *)
Definition match_number (s : str) : option (bool * str * str) :=
  let '(sign, s1) :=
    match s with
    | c :: s' => if (c =? 45)%N then ([c], s') else ([], s)
    | [] => ([], [])
    end in
  '(ip, r) ←
    match s1 with
    | c :: s2 =>
      if in_range 49 57 c then let '(ds, r) := take_digits s2 in Some (c :: ds, r)
      else if (c =? 48)%N then Some ([c], s2)
      else None
    | [] => None
    end;
  let '(frac, r1) :=
    match r with
    | dot :: d :: r' =>
      if (dot =? 46)%N && is_ascii_digit d
      then let '(ds, r'') := take_digits r' in (dot :: d :: ds, r'')
      else ([], r)
    | _ => ([], r)
    end in
  let '(ex, r2) :=
    match r1 with
    | e :: r' =>
      if (e =? 101)%N || (e =? 69)%N then
        let '(sg, r'') :=
          match r' with
          | c :: t => if (c =? 43)%N || (c =? 45)%N then ([c], t) else ([], r')
          | [] => ([], [])
          end in
        let '(ds, r3) := take_digits r'' in
        if bool_decide (ds = []) then ([], r1) else (e :: sg ++ ds, r3)
      else ([], r1)
    | [] => ([], [])
    end in
  Some (negb (bool_decide (frac = [])) || negb (bool_decide (ex = [])),
        sign ++ ip ++ frac ++ ex, r2).

Definition number_value (is_float : bool) (lit : str) : result pyval :=
  if is_float then Ok (PFloat (float_of_literal rt lit))
  else
    let '(sign, ds) := split_sign lit in
    if over_digit_limit ds then Raise digit_limit_error
    else Ok (PInt (signed sign (digits_value ds))).

(** The decoder proper.  [fuel] bounds the number of nested and of
    successive values; [json_loads] supplies more than any text needs
    ([json_loads_fuelled]). *)
Definition out_of_fuel : exn := Exn RecursionError (u "fuel").

Fixpoint scan_once (fuel : nat) (s : str) : result (pyval * str) :=
  match fuel with
  | O => Raise out_of_fuel
  | S fuel' =>
    match s with
    | [] => Raise (json_error "Expecting value")
    | c :: s1 =>
      let named := λ (word : string) (x : pyval) (otherwise : result (pyval * str)),
        match strip_prefix (u word) s with
        | Some r => Ok (x, r)
        | None => otherwise
        end in
      let number :=
        match match_number s with
        | Some (is_float, lit, r) => x ← number_value is_float lit; Ok (x, r)
        | None => Raise (json_error "Expecting value")
        end in
      if (c =? 34)%N then '(x, r) ← scanstring s1 []; Ok (PStr x, r)
      else if (c =? 123)%N then
        match skip_ws s1 with
        | c' :: r => if (c' =? 125)%N then Ok (PDict [], r)
                     else parse_object fuel' (skip_ws s1) []
        | [] => parse_object fuel' [] []
        end
      else if (c =? 91)%N then
        match skip_ws s1 with
        | c' :: r => if (c' =? 93)%N then Ok (PList [], r)
                     else parse_array fuel' (skip_ws s1) []
        | [] => parse_array fuel' [] []
        end
      else if (c =? 110)%N then named "null" PNone number
      else if (c =? 116)%N then named "true" (PBool true) number
      else if (c =? 102)%N then named "false" (PBool false) number
      else if (c =? 78)%N then named "NaN" (PFloat (float_of_literal rt (u "nan"))) number
      else if (c =? 73)%N then named "Infinity" (PFloat (float_of_literal rt (u "inf"))) number
      else if (c =? 45)%N then named "-Infinity" (PFloat (float_of_literal rt (u "-inf"))) number
      else number
    end
  end
with parse_array (fuel : nat) (s : str) (acc : list pyval) : result (pyval * str) :=
  match fuel with
  | O => Raise out_of_fuel
  | S fuel' =>
    '(x, r) ← scan_once fuel' s;
    match skip_ws r with
    | c :: r' =>
      if (c =? 93)%N then Ok (PList (acc ++ [x]), r')
      else if (c =? 44)%N then parse_array fuel' (skip_ws r') (acc ++ [x])
      else Raise (json_error "Expecting ',' delimiter")
    | [] => Raise (json_error "Expecting ',' delimiter")
    end
  end
with parse_object (fuel : nat) (s : str) (acc : list (str * pyval)) : result (pyval * str) :=
  match fuel with
  | O => Raise out_of_fuel
  | S fuel' =>
    match s with
    | c :: s1 =>
      if (c =? 34)%N then
        '(k, r) ← scanstring s1 [];
        match skip_ws r with
        | c' :: r' =>
          if (c' =? 58)%N then
            '(x, r'') ← scan_once fuel' (skip_ws r');
            match skip_ws r'' with
            | d :: t =>
              if (d =? 125)%N then Ok (PDict (dict_set acc k x), t)
              else if (d =? 44)%N then parse_object fuel' (skip_ws t) (dict_set acc k x)
              else Raise (json_error "Expecting ',' delimiter")
            | [] => Raise (json_error "Expecting ',' delimiter")
            end
          else Raise (json_error "Expecting ':' delimiter")
        | [] => Raise (json_error "Expecting ':' delimiter")
        end
      else Raise (json_error "Expecting property name enclosed in double quotes")
    | [] => Raise (json_error "Expecting property name enclosed in double quotes")
    end
  end.

Definition json_fuel (s : str) : nat := 2 * length s + 2.

Definition json_loads (s : str) : result pyval :=
  if startswith s [65279%N]
  then Raise (json_error "Unexpected UTF-8 BOM (decode using utf-8-sig)")
  else
    '(x, r) ← scan_once (json_fuel s) (skip_ws s);
    match skip_ws r with
    | [] => Ok x
    | _ :: _ => Raise (json_error "Extra data")
    end.

(** ** Response parsing and tag normalization *)

(** A character of the text equals the pattern character [p] under
    [re.IGNORECASE]: an ASCII letter matches in both cases; besides,
    U+0130 and U+0131 match [i], U+212A matches [k] and U+017F matches
    [s]. *)
Definition re_ignorecase_eq (p c : char) : bool :=
  (c =? p)%N
  || (is_ascii_lower p && (c =? p - 32)%N)
  || ((p =? 105)%N && ((c =? 304)%N || (c =? 305)%N))
  || ((p =? 107)%N && (c =? 8490)%N)
  || ((p =? 115)%N && (c =? 383)%N).

(** The rest of [s] after [pat], when [s] starts with it. *)
Fixpoint match_ci (pat s : str) : option str :=
  match pat, s with
  | [], _ => Some s
  | p :: pat', c :: s' => if re_ignorecase_eq p c then match_ci pat' s' else None
  | _ :: _, [] => None
  end.

(** The offset of the first place in [s] where [pat] matches. *)
Fixpoint find_ci (pat s : str) : option nat :=
  match s with
  | [] => None
  | _ :: s' => if bool_decide (is_Some (match_ci pat s)) then Some 0 else S <$> find_ci pat s'
  end.

Definition think_open : str := u "<think>".
Definition think_close : str := u "</think>".

(** The length of the match of [<think>.*?</think>] (flags [DOTALL] and
    [IGNORECASE]) that starts [s]: the opening tag, the fewest
    characters of any kind, the closing tag. *)
Definition think_block_at (s : str) : option nat :=
  rest ← match_ci think_open s;
  k ← find_ci think_close rest;
  Some (length think_open + k + length think_close).

(** [re.sub] from left to right: outside a match ([skip = 0]) a block
    that starts here is deleted as a whole, and any other character is
    kept; [skip] counts what is left to delete of the block at hand. *)
Fixpoint sub_think (skip : nat) (s : str) : str :=
  match s with
  | [] => []
  | c :: s' =>
    match skip with
    | S k => sub_think k s'
    | O =>
      match think_block_at s with
      | Some n => sub_think (n - 1) s'
      | None => c :: sub_think 0 s'
      end
    end
  end.

Definition _strip_think_blocks (text : str) : str := sub_think 0 text.

(** The loop that cleans the candidates. *)
Definition keep_char (ch : char) : bool :=
  isalnum ch || bool_decide (ch ∈ u "- _").

Definition clean_candidate (t : str) : str :=
  let t := lower (strip (strip_chars (u "#") (strip t))) in
  List.filter keep_char t.

Definition cleaned_loop (tags : list str) : list str :=
  foldl (λ cleaned t,
           let t := clean_candidate t in
           if (1 <=? length t) && (length t <=? 50) then cleaned ++ [t] else cleaned)
        [] tags.

(** The loop that removes duplicates, with its set [seen]. *)
Definition uniq_step (st : gset str * list str) (t : str) : gset str * list str :=
  let '(seen, uniq) := st in
  if negb (bool_decide (t = [])) && negb (bool_decide (t ∈ seen))
  then ({[t]} ∪ seen, uniq ++ [t])
  else (seen, uniq).

Definition uniq_loop (cleaned : list str) : list str :=
  (foldl uniq_step (∅, []) cleaned).2.

(** The candidates of the fallback: the text split at commas if it has
    one, at newlines otherwise. *)
Definition split_candidates (text : str) : list str :=
  let sep : char := if bool_decide (44%N ∈ text) then 44%N else 10%N in
  map strip (split_on sep text).

(** The candidates of the structured extraction: the elements of the
    JSON array between the first "[" and the last "]"; none when there is
    no such array. *)
Definition json_candidates (text : str) : result (list str) :=
  let tags : list str := [] in
  match find_char 91%N text, rfind_char 93%N text with
  | Some start, Some end_ =>
    if start <? end_ then
      let maybe_json := slice text start (end_ + 1) in
      try_except
        (arr ← json_loads maybe_json;
         Ok (match arr with
             | PList xs => map py_str xs
             | _ => tags
             end))
        (λ _, Ok tags)
    else Ok tags
  | _, _ => Ok tags
  end.

Definition _parse_tags (text : str) : result (list str) :=
  let text := strip text in
  tags ← json_candidates text;
  let tags := if bool_decide (tags = []) then split_candidates text else tags in
  let cleaned := cleaned_loop tags in
  Ok (uniq_loop cleaned).

(** Normalization of a reply, as [tags_from_image] runs it. *)
Definition normalize (content : str) : result (list str) :=
  _parse_tags (_strip_think_blocks content).

(** ** The plugin *)

Context (env : Env).

(** [stash.Setting(name, default)] *)
Definition Setting (name : str) (default : pyval) : result pyval :=
  x ← stash_setting env name; Ok (from_option id default x).

(** ** Result persistence *)

(** The loop of [_plugin_dir] over the keys of the connection record:
    the first value that is a non-empty string. *)
Fixpoint first_dir (sc : list (str * pyval)) (keys : list str) : option str :=
  match keys with
  | [] => None
  | key :: keys' =>
    match dict_lookup sc key with
    | Some (PStr (c :: r)) => Some (c :: r)
    | _ => first_dir sc keys'
    end
  end.

Definition _plugin_dir : result str :=
  a ← py_get (JSON_INPUT env) (u "server_connection") PNone;
  sc ← (if py_truthy a then Ok a
        else b ← py_get (JSON_INPUT env) (u "serverConnection") PNone;
             Ok (py_or b (PDict [])));
  let found :=
    match sc with
    | PDict d => first_dir d [u "plugin_dir"; u "PluginDir"; u "pluginDir"]
    | _ => None
    end in
  Ok (from_option id (module_dir env) found).

(** [re.sub(r"[^A-Za-z0-9_-]", "_", s)] *)
Definition is_safe_char (c : char) : bool :=
  is_ascii_upper c || is_ascii_lower c || is_ascii_digit c || (c =? 95)%N || (c =? 45)%N.

Definition sub_unsafe_chars (s : str) : str :=
  map (λ c, if is_safe_char c then c else 95%N) s.

Definition safe_request_id_of (request_id : pyval) : option str :=
  match nonblank_str request_id with
  | Some s => Some (sub_unsafe_chars (strip s))
  | None => None
  end.

(** [f"{image_id}{suffix}.json"] *)
Definition result_filename (image_id : Z) (safe_request_id : option str) : str :=
  let suffix :=
    match safe_request_id with
    | Some (c :: r) => u "_" ++ c :: r
    | _ => []
    end in
  str_of_int image_id ++ suffix ++ u ".json".

Definition _write_result (image_id : Z) (tags : list str) (error : option str)
    (request_id : pyval) : M unit :=
  dir ← lift _plugin_dir;
  let results_dir := os_path_join rt dir (u "results") in
  _ ← fs_call id;
  let safe_request_id := safe_request_id_of request_id in
  let payload :=
    {| image_id := image_id; tags := tags; error := error;
       request_id := safe_request_id |} in
  let name := result_filename image_id safe_request_id in
  let tmp_path := os_path_join rt results_dir (name ++ u ".tmp") in
  let final_path := os_path_join rt results_dir name in
  _ ← fs_call (λ fs, <[tmp_path := payload]> fs);
  fs_call (λ fs, match fs !! tmp_path with
                 | Some doc => <[final_path := doc]> (delete tmp_path fs)
                 | None => fs
                 end).

(** ** Orchestration *)

(** [(v or {})] *)
Definition or_empty (v : pyval) : pyval := py_or v (PDict []).

Definition _fetch_image_path (image_id : Z) : M pyval :=
  try_catch
    (lift
       (resp ← graphql_findImage env (str_of_int image_id);
        data ← py_get (or_empty resp) (u "data") (PDict []);
        img ← or_empty <$> py_get data (u "findImage") PNone;
        paths ← or_empty <$> py_get img (u "paths") PNone;
        path ← match paths with
               | PDict _ => py_get paths (u "image") PNone
               | _ => Ok PNone
               end;
        if py_truthy path then Ok path
        else
          files ← (λ v, py_or v (PList [])) <$> py_get img (u "files") PNone;
          match files with
          | PList (first :: _) => py_get (or_empty first) (u "path") PNone
          | _ => Ok path
          end))
    (λ e, _ ← stash_log LogError; mret PNone).

Definition tags_from_image (path_or_url : pyval) : M (list str) :=
  existing ← try_catch (mret (_existing_tags env)) (λ _, mret []);
  try_catch
    ('(data, mime) ← lift (_read_image_bytes env path_or_url);
     content ← lift (_call_llm_b64_image env data mime existing);
     _ ← stash_log LogTrace;
     let cleaned := _strip_think_blocks content in
     tags ← lift (_parse_tags cleaned);
     mret tags)
    (λ e, _ ← stash_log LogError; mret []).

Definition tag_image (image_id : Z) : M (option (list str)) :=
  path ← _fetch_image_path image_id;
  if negb (py_truthy path) then
    _ ← stash_log LogError; mret None
  else
    tags ← tags_from_image path;
    _ ← (if bool_decide (tags = []) then stash_log LogWarn else stash_log LogInfo);
    mret (Some tags).

(** [stash.JSON_INPUT.get("args", {}).get(name) if stash.JSON_INPUT else None] *)
Definition input_arg (name : str) : result pyval :=
  if py_truthy (JSON_INPUT env) then
    args ← py_get (JSON_INPUT env) (u "args") (PDict []);
    py_get args name PNone
  else Ok PNone.

Definition is_none (v : pyval) : bool :=
  match v with PNone => true | _ => false end.

Definition tag_image_task : M unit :=
  try_catch
    (image_id ← lift (input_arg (u "image_id"));
     request_id ← lift (input_arg (u "request_id"));
     if is_none image_id then stash_log LogError
     else
       image_id ← lift (py_int image_id);
       tags ← tag_image image_id;
       let '(tags, error) :=
         match tags with
         | None => ([], Some (u "No image path found."))
         | Some tags => (tags, None)
         end in
       _write_result image_id tags error request_id)
    (λ e,
       _ ← stash_log LogError;
       try_catch
         (image_id ← lift (input_arg (u "image_id"));
          if negb (is_none image_id) then
            request_id ← lift (input_arg (u "request_id"));
            image_id ← lift (py_int image_id);
            _write_result image_id [] (Some (exn_str e)) request_id
          else mret ())
         (λ _, mret ())).

(** ** Configuration resolution *)

Definition DEFAULT_BASE_URL : str := u "http://localhost:11434/v1".
Definition DEFAULT_MODEL : pyval := PStr (u "gemma3:4b-it-q8_0").
Definition DEFAULT_TEMP : pyval := PFloat (float_of_literal rt (u "0.7")).
Definition DEFAULT_MAX_TOKENS : pyval := PInt (-1).
Definition DEFAULT_TIMEOUT : pyval := PFloat (float_of_literal rt (u "3600.0")).

Definition is_dict (v : pyval) : bool :=
  match v with PDict _ => true | _ => false end.

(** The loop over a settings payload that is a sequence: the [value] of
    the first [{key, value}] pair whose key is [llmBaseUrl]. *)
Fixpoint pairs_lookup (items : list pyval) : result (option pyval) :=
  match items with
  | [] => Ok None
  | item :: items' =>
    match item with
    | PDict _ =>
      k ← py_get item (u "key") PNone;
      if py_eq_str k (u "llmBaseUrl") then Some <$> py_get item (u "value") PNone
      else pairs_lookup items'
    | _ => pairs_lookup items'
    end
  end.

(** [raw_url] after a settings payload was consulted: a mapping assigns
    it, a sequence assigns it when it has the key, anything else leaves
    it as it was. *)
Definition payload_lookup (src raw_url : pyval) : result pyval :=
  match src with
  | PDict _ => py_get src (u "llmBaseUrl") PNone
  | PList items => from_option id raw_url <$> pairs_lookup items
  | _ => Ok raw_url
  end.

Definition _fetch_llm_base_url_from_settings : option str :=
  let body : result (option str) :=
    resp ← graphql_configuration env;
    if negb (is_dict resp) then Ok None
    else
      data ← or_empty <$> py_get resp (u "data") PNone;
      configuration ← or_empty <$> py_get data (u "configuration") PNone;
      plugins_map ← or_empty <$> py_get configuration (u "plugins") PNone;
      if negb (is_dict plugins_map) then Ok None
      else
        let of_plugin := λ pid : str,
          settings_map ← py_get plugins_map pid PNone;
          match settings_map with
          | PDict _ =>
            v ← py_get settings_map (u "llmBaseUrl") PNone;
            Ok (strip <$> nonblank_str v)
          | _ => Ok None
          end in
        first ← of_plugin (u "llm_image_tag");
        match first with
        | Some v => Ok (Some v)
        | None => of_plugin (u "LLMImageTag")
        end in
  match body with
  | Ok r => r
  | Raise _ => None
  end.

(** The five sources of the base URL, each as the value the code reads
    from it before it tests that value. *)
Definition arg_url : result pyval :=
  match JSON_INPUT env with
  | PDict _ =>
    args ← or_empty <$> py_get (or_empty (JSON_INPUT env)) (u "args") PNone;
    py_get args (u "llmBaseUrl") PNone
  | _ => Ok PNone
  end.

Definition ui_url : result pyval := Setting (u "llmBaseUrl") PNone.

Definition raw_url : result pyval :=
  match JSON_INPUT env with
  | PDict _ =>
    settings_src ← or_empty <$> py_get (JSON_INPUT env) (u "settings") PNone;
    raw ← payload_lookup settings_src PNone;
    if negb (py_truthy raw) then
      alt_src ← or_empty <$> py_get (JSON_INPUT env) (u "pluginSettings") PNone;
      payload_lookup alt_src raw
    else Ok raw
  | _ => Ok PNone
  end.

Definition fetched_url : result pyval :=
  Ok (from_option PStr PNone _fetch_llm_base_url_from_settings).

Definition env_url : result pyval :=
  Ok (from_option PStr PNone (getenv env (u "LLM_BASE_URL"))).

(** One step of [_resolve_base_url]:
    [try: v = source; if isinstance(v, str) and v.strip(): return ...
     except Exception: pass], then the rest. *)
Definition url_step (source : result pyval) (otherwise : str) : str :=
  match try_except (nonblank_str <$> source) (λ _, Ok None) with
  | Ok (Some v) => rstrip_chars (u "/") (strip v)
  | _ => otherwise
  end.

Definition _resolve_base_url : str :=
  url_step arg_url
    (url_step ui_url
       (url_step raw_url
          (url_step fetched_url
             (url_step env_url
                (rstrip_chars (u "/") DEFAULT_BASE_URL))))).

Definition _env_or_setting (name env_name : str) (default : pyval) : result pyval :=
  v ← Setting name PNone;
  let v := if is_none v then from_option PStr PNone (getenv env env_name) else v in
  if is_none v || match v with PStr s => bool_decide (strip s = []) | _ => false end
  then Ok default
  else Ok v.

(** The module-level constants, in the order the module computes them.
    [PROMPT], a variable of the environment or a literal, is computed
    last and cannot raise; it is passed on to the LLM call only. *)
Record Config := {
  BASE_URL : str;
  MODEL : str;
  TEMP : pyfloat;
  MAX_TOKENS : Z;
  TIMEOUT : pyfloat;
  API_KEY : str;
}.

Definition module_config : result Config :=
  let base_url := _resolve_base_url in
  model ← py_str <$> _env_or_setting (u "llmModel") (u "LLM_MODEL") DEFAULT_MODEL;
  temp ← _env_or_setting (u "llmTemp") (u "LLM_TEMP") DEFAULT_TEMP ≫= py_float;
  max_tokens ← _env_or_setting (u "llmMaxTokens") (u "LLM_MAX_TOKENS") DEFAULT_MAX_TOKENS ≫= py_int;
  timeout ← _env_or_setting (u "llmTimeout") (u "LLM_TIMEOUT") DEFAULT_TIMEOUT ≫= py_float;
  Ok {| BASE_URL := base_url; MODEL := model; TEMP := temp;
        MAX_TOKENS := max_tokens; TIMEOUT := timeout;
        API_KEY := from_option id (u "none") (getenv env (u "LLM_API_KEY")) |}.

(** ** The process *)

(** The entry point of the module, from its [try] to the end. *)
Definition entry_point : M unit :=
  _ ← try_catch
        (tracing ← lift (Setting (u "zzdebugTracing") (PBool false));
         _ ← (if py_truthy tracing then stash_log LogInfo else mret ());
         if py_eq_str (PLUGIN_TASK_NAME env) (u "tag_image_task") then
           _ ← stash_log LogTrace; tag_image_task
         else
           mode ← lift (if py_truthy (JSON_INPUT env) then
                          args ← py_get (JSON_INPUT env) (u "args") (PDict []);
                          py_get args (u "mode") PNone
                        else Ok (PBool false));
           if py_truthy (JSON_INPUT env) && py_eq_str mode (u "tag_image_task") then
             _ ← stash_log LogTrace; tag_image_task
           else stash_log LogTrace)
        (λ e, stash_log LogError);
  try_catch (print (u "null")) (λ _, mret ()).

(** The run of the plugin as a process: its exit status and the world
    it leaves.  An exception that no handler catches ends the process
    with status 1, a traceback on standard error and nothing more on
    standard output. *)
Definition run_plugin (w : World) : Z * World :=
  match module_config with
  | Raise e => (1%Z, w)
  | Ok _ =>
    match entry_point w with
    | (Ok _, w') => (0%Z, w')
    | (Raise e, w') => (1%Z, w')
    end
  end.

(** ** The LLM call and what it reads

    The functions that the orchestration above takes from [Env], from
    the source: [_existing_tags'], [_read_image_bytes'] and
    [_call_llm_b64_image'] are the functions [_existing_tags],
    [_read_image_bytes] and [_call_llm_b64_image] of the module; the
    fields of [Env] of these names hold their outcomes. *)

Context (net : Net).

(** [json.dumps(v, ensure_ascii=...)] with the separators ", " and ": "
    of the default.  A character is written as the encoder's table has
    it; with [ensure_ascii] every character outside U+0020..U+007E is
    escaped, one above U+FFFF as a surrogate pair.  On the values of
    [pyval], which hold no cycle and have strings for keys, the encoder
    does not raise. *)
Definition json_escape (ensure_ascii : bool) (c : char) : str :=
  if (c =? 34)%N then [92; 34]%N
  else if (c =? 92)%N then [92; 92]%N
  else if (c =? 8)%N then u "\b"
  else if (c =? 12)%N then u "\f"
  else if (c =? 10)%N then u "\n"
  else if (c =? 13)%N then u "\r"
  else if (c =? 9)%N then u "\t"
  else if (c <? 32)%N then u "\u" ++ hex_fixed 4 c
  else if negb ensure_ascii || (c <? 127)%N then [c]
  else if (c <? 65536)%N then u "\u" ++ hex_fixed 4 c
  else
    let n := (c - 65536)%N in
    let s1 := N.lor 55296 (N.land (N.shiftr n 10) 1023) in
    let s2 := N.lor 56320 (N.land n 1023) in
    u "\u" ++ hex_fixed 4 s1 ++ u "\u" ++ hex_fixed 4 s2.

Definition json_string (ensure_ascii : bool) (s : str) : str :=
  [34%N] ++ concat (map (json_escape ensure_ascii) s) ++ [34%N].

Definition json_float (f : pyfloat) : str :=
  if bool_decide (float_repr f = u "nan") then u "NaN"
  else if bool_decide (float_repr f = u "inf") then u "Infinity"
  else if bool_decide (float_repr f = u "-inf") then u "-Infinity"
  else float_repr f.

Fixpoint json_dumps (ensure_ascii : bool) (v : pyval) : str :=
  match v with
  | PNone => u "null"
  | PBool b => if b then u "true" else u "false"
  | PInt z => str_of_int z
  | PFloat f => json_float f
  | PStr s => json_string ensure_ascii s
  | PList l => u "[" ++ join (u ", ") (map (json_dumps ensure_ascii) l) ++ u "]"
  | PDict d =>
    u "{" ++ join (u ", ")
               (map (λ '(k, x), json_string ensure_ascii k ++ u ": "
                                ++ json_dumps ensure_ascii x) d)
    ++ u "}"
  end.

(** [base64.b64encode(data)], decoded as text *)
Definition b64_char (i : N) : char :=
  if (i <? 26)%N then (65 + i)%N
  else if (i <? 52)%N then (71 + i)%N
  else if (i <? 62)%N then (i - 4)%N
  else if (i =? 62)%N then 43%N
  else 47%N.

Fixpoint b64encode (data : list N) : str :=
  match data with
  | [] => []
  | [a] =>
    [b64_char (a / 4); b64_char (a mod 4 * 16); 61; 61]%N
  | [a; b] =>
    [b64_char (a / 4); b64_char (a mod 4 * 16 + b / 16); b64_char (b mod 16 * 4); 61]%N
  | a :: b :: c :: data' =>
    [b64_char (a / 4); b64_char (a mod 4 * 16 + b / 16);
     b64_char (b mod 16 * 4 + c / 64); b64_char (c mod 64)]%N
    ++ b64encode data'
  end.

(** [for x in v]: the items of a list, the characters of a string, the
    keys of a dict; nothing else here can be iterated. *)
Definition py_iter (v : pyval) : result (list pyval) :=
  match v with
  | PList l => Ok l
  | PStr s => Ok (map (λ c, PStr [c]) s)
  | PDict d => Ok (map (λ kx, PStr kx.1) d)
  | _ => Raise (Exn TypeError (u "'" ++ type_name v ++ u "' object is not iterable"))
  end.

(** [v[key]] for the key [k], a string, and for the key [0] *)
Definition not_subscriptable (v : pyval) : exn :=
  Exn TypeError (u "'" ++ type_name v ++ u "' object is not subscriptable").

Definition py_getitem (v : pyval) (k : str) : result pyval :=
  match v with
  | PDict d =>
    match dict_lookup d k with
    | Some x => Ok x
    | None => Raise (Exn KeyError (repr_str k))
    end
  | PList _ => Raise (Exn TypeError (u "list indices must be integers or slices, not str"))
  | PStr _ => Raise (Exn TypeError (u "string indices must be integers, not 'str'"))
  | _ => Raise (not_subscriptable v)
  end.

Definition py_getitem_0 (v : pyval) : result pyval :=
  match v with
  | PList (x :: _) => Ok x
  | PList [] => Raise (Exn IndexError (u "list index out of range"))
  | PStr (c :: _) => Ok (PStr [c])
  | PStr [] => Raise (Exn IndexError (u "string index out of range"))
  | PDict _ => Raise (Exn KeyError (u "0"))
  | _ => Raise (not_subscriptable v)
  end.

(** *** [_existing_tags] *)

(** One round of the loop over the tags of the reply: the names it
    appends for the tag [t]. *)
Definition tag_names (t : pyval) : result (list str) :=
  ignore ← py_get t (u "ignore_auto_tag") PNone;
  if py_truthy ignore then Ok []
  else
    name ← py_get t (u "name") PNone;
    let named := if py_truthy name then [py_str name] else [] in
    aliases ← py_get t (u "aliases") PNone;
    aliases ← py_iter (py_or aliases (PList []));
    Ok (named ++ map py_str aliases).

Fixpoint names_loop (tags : list pyval) (names : list str) : result (list str) :=
  match tags with
  | [] => Ok names
  | t :: tags' => ns ← tag_names t; names_loop tags' (names ++ ns)
  end.

(** The loop that removes duplicates, with its set [seen]. *)
Definition dedupe_step (st : gset str * list str) (n : str) : gset str * list str :=
  let '(seen, uniq) := st in
  if bool_decide (n ∈ seen) then (seen, uniq) else ({[n]} ∪ seen, uniq ++ [n]).

Definition dedupe_loop (names : list str) : list str :=
  (foldl dedupe_step (∅, []) names).2.

(** The list [names] at the end of the first loop. *)
Definition collected_names : result (list str) :=
  resp ← graphql_findTags net;
  match resp with
  | PDict _ =>
    data ← or_empty <$> py_get resp (u "data") PNone;
    found ← or_empty <$> py_get data (u "findTags") PNone;
    tags ← (λ v, py_or v (PList [])) <$> py_get found (u "tags") PNone;
    items ← py_iter (py_or tags (PList []));
    names_loop items []
  | _ => Ok []
  end.

Definition _existing_tags' : M (list str) :=
  try_catch
    (lift (names ← collected_names; Ok (dedupe_loop names)))
    (λ e, _ ← stash_log LogTrace; mret []).

(** *** [_read_image_bytes] *)

(** [x or default] for a string that may be absent *)
Definition str_or (x : option str) (default : str) : str :=
  match x with
  | Some (c :: r) => c :: r
  | _ => default
  end.

Definition _read_image_bytes' (path_or_url : pyval) : result (list N * str) :=
  match path_or_url with
  | PStr p =>
    if startswith p (u "http://") || startswith p (u "https://") then
      '(status, headers, body) ← _http_get net p;
      if (status <? 200)%Z || (300 <=? status)%Z then
        Raise (Exn RuntimeError
                 (u "Failed to fetch image URL " ++ p ++ u ": HTTP " ++ str_of_int status))
      else
        let content_type :=
          str_or (headers !! u "Content-Type") (u "application/octet-stream") in
        Ok (body, content_type)
    else
      let mime := str_or (guess_type net p) (u "image/jpeg") in
      data ← open_rb net p;
      Ok (data, mime)
  | _ => Raise (no_attribute path_or_url (u "startswith"))
  end.

(** *** [_message_content_to_str] *)

(** What the loop over the parts of a message appends for one part. *)
Definition content_part (part : pyval) : option str :=
  match part with
  | PStr s => Some s
  | PDict d =>
    let txt := py_or (from_option id PNone (dict_lookup d (u "text")))
                     (from_option id PNone (dict_lookup d (u "content"))) in
    if py_truthy txt then Some (py_str txt) else None
  | _ => None
  end.

Definition _message_content_to_str (msg : pyval) : str :=
  match msg with
  | PStr s => s
  | PList l =>
    match omap content_part l with
    | [] => json_dumps true msg
    | parts => join [10%N] parts
    end
  | PNone => []
  | _ => json_dumps true msg
  end.

(** *** [_call_llm_b64_image] *)

Definition PROMPT_DEFAULT : str :=
  u "You are a tagging assistant. Look carefully at the image and return ONLY a JSON array "
  ++ u "of 1-4 short, general-purpose tags that DIRECTLY describe what is clearly visible in the image. "
  ++ u "Choose the few most salient tags; fewer is fine when appropriate (as low as 1). "
  ++ u "Use lowercase ASCII letters/digits; multiword tags may contain spaces. "
  ++ u "Do NOT use dashes; use spaces between words. "
  ++ u "Do NOT guess or infer hidden attributes. Include a tag only if it is clearly visible in the image. "
  ++ u "No private data, no people-identification or names, no hashes, no numbering, no explanations, "
  ++ u "no code fences, no extra text.".

Definition PROMPT : str := from_option id PROMPT_DEFAULT (getenv env (u "LLM_TAG_PROMPT")).

Definition text_message (text : str) : pyval :=
  PDict [(u "role", PStr (u "user"));
         (u "content", PList [PDict [(u "type", PStr (u "text")); (u "text", PStr text)]])].

Definition image_message (mime b64 : str) : pyval :=
  PDict [(u "role", PStr (u "user"));
         (u "content",
          PList [PDict [(u "type", PStr (u "image_url"));
                        (u "image_url",
                         PDict [(u "url", PStr (u "data:" ++ mime ++ u ";base64," ++ b64))])]])].

Definition tags_intro : str :=
  u "The following input is a JSON array of available tags. Choose from this list only if they clearly apply to THIS image. Do not guess or infer.".

Definition llm_messages (b64 mime : str) (existing_tags : list str) : list pyval :=
  [PDict [(u "role", PStr (u "system")); (u "content", PStr PROMPT)]]
  ++ match existing_tags with
     | [] => []
     | _ :: _ =>
       [text_message tags_intro;
        text_message (json_dumps false (PList (PStr <$> existing_tags)))]
     end
  ++ [image_message mime b64].

(** The text of the reply [data]: the part of the function between its
    last [try] and [except]. *)
Definition reply_content (data : pyval) : result str :=
  choices ← py_getitem data (u "choices");
  first ← py_getitem_0 choices;
  message ← py_getitem first (u "message");
  let msg := or_empty message in
  content ← _message_content_to_str <$> py_get msg (u "content") PNone;
  if bool_decide (content = []) then Ok (_message_content_to_str msg) else Ok content.

(** The request: [url], [headers] and [payload] of the function. *)
Definition llm_url (cfg : Config) : str := BASE_URL cfg ++ u "/chat/completions".

Definition llm_headers (cfg : Config) : gmap str str :=
  match API_KEY cfg with
  | [] => ∅
  | _ :: _ => {[ u "Authorization" := u "Bearer " ++ API_KEY cfg ]}
  end.

Definition llm_payload (cfg : Config) (messages : list pyval) : pyval :=
  PDict [(u "model", PStr (MODEL cfg)); (u "messages", PList messages);
         (u "temperature", PFloat (TEMP cfg)); (u "max_tokens", PInt (MAX_TOKENS cfg))].

Definition _call_llm_b64_image' (cfg : Config) (b64 mime : str) (existing_tags : list str) :
    M str :=
  let url := llm_url cfg in
  let headers := llm_headers cfg in
  let messages := llm_messages b64 mime existing_tags in
  _ ← try_catch
        (tracing ← lift (Setting (u "zzdebugTracing") (PBool false));
         if py_truthy tracing then stash_log LogInfo else mret ())
        (λ _, mret ());
  let payload := llm_payload cfg messages in
  data ← lift (_http_post_json net url payload headers);
  lift (try_except (reply_content data)
          (λ _, Raise (Exn RuntimeError (u "Unexpected LLM response: " ++ py_repr data)))).

(** ** Notions of the specification *)

(** A character of the class [[a-z0-9 _-]], and a string that matches
    [^[a-z0-9 _-]{1,50}$]. *)
Definition tag_regex_char (c : char) : bool :=
  is_ascii_lower c || is_ascii_digit c || (c =? 32)%N || (c =? 95)%N || (c =? 45)%N.

Definition matches_tag_regex (t : str) : bool :=
  (1 <=? length t) && (length t <=? 50) && forallb tag_regex_char t.

(** What the cleaning loop does guarantee of a tag: its length, and of
    each character that it is of the class above or a character beyond
    ASCII that [str.isalnum] accepts. *)
Definition tag_char_ok (c : char) : Prop :=
  tag_regex_char c = true ∨ ((128 ≤ c)%N ∧ isalnum c = true).

Definition tag_ok (t : str) : Prop :=
  1 ≤ length t ≤ 50 ∧ Forall tag_char_ok t.

(** The structured extraction fails inside [_parse_tags]: the text has
    a "[" before its last "]", and [json.loads] raises on what they
    enclose. *)
Definition json_extraction_fails (text : str) : Prop :=
  ∃ start end_,
    find_char 91%N (strip text) = Some start
    ∧ rfind_char 93%N (strip text) = Some end_
    ∧ start < end_
    ∧ raises (json_loads (slice (strip text) start (end_ + 1))) = true.

(** [tag] is the pattern [pat] up to the case of its letters. *)
Definition is_tag (pat tag : str) : Prop := match_ci pat tag = Some [].

(** A request id that [_write_result] takes for none: [None], any
    other value that is not a string, or a string of white space
    only. *)
Definition no_request_id (rid : pyval) : Prop :=
  match rid with
  | PStr s => Forall (λ c, isspace c = true) s
  | _ => True
  end.

(** The next [n] calls into the file system meet no fault. *)
Definition no_fault (n : nat) (w : World) : Prop :=
  ∀ f, f ∈ take n (fs_faults w) → f = None.

(** [w'] has the files and the faults to come of [w]. *)
Definition same_fs (w w' : World) : Prop :=
  files w' = files w ∧ fs_faults w' = fs_faults w.

(** The sources of the base URL in their order of precedence, and the
    string a source holds when it holds one that is not blank. *)
Definition url_sources : list (result pyval) :=
  [arg_url; ui_url; raw_url; fetched_url; env_url].

Definition url_value (source : result pyval) : option str :=
  match source with
  | Ok v => nonblank_str v
  | Raise _ => None
  end.

(** A computation that leaves standard output as it finds it. *)
Definition silent {A} (m : M A) : Prop :=
  ∀ w r w', m w = (r, w') → stdout w' = stdout w.

(** ** Notions of the further properties *)

(** A tag of the library as the [findTags] query reports it, the reply
    that lists given tags, and the names a tag contributes to the list
    of [_existing_tags']: none if it is kept out of automatic tagging,
    else its name, if it has one, and its aliases. *)
Record StashTag := {
  tag_name : str;
  tag_aliases : list str;
  tag_ignored : bool;
}.

Definition tag_object (t : StashTag) : pyval :=
  PDict [(u "name", PStr (tag_name t));
         (u "aliases", PList (PStr <$> tag_aliases t));
         (u "ignore_auto_tag", PBool (tag_ignored t))].

Definition findTags_reply (items : list pyval) : pyval :=
  PDict [(u "data", PDict [(u "findTags", PDict [(u "tags", PList items)])])].

Definition offered_names (t : StashTag) : list str :=
  if tag_ignored t then []
  else (if bool_decide (tag_name t = []) then [] else [tag_name t]) ++ tag_aliases t.

(** The outcome of [_call_llm_b64_image'] by the outcome of its
    request: an exception of the request as it is, the text of a reply,
    or a [RuntimeError] about a reply that holds none. *)
Definition llm_outcome (cfg : Config) (b64 mime : str) (existing : list str) : result str :=
  match _http_post_json net (llm_url cfg)
          (llm_payload cfg (llm_messages b64 mime existing)) (llm_headers cfg) with
  | Raise e => Raise e
  | Ok data =>
    match reply_content data with
    | Ok content => Ok content
    | Raise _ => Raise (Exn RuntimeError (u "Unexpected LLM response: " ++ py_repr data))
    end
  end.

(** The message of the first choice of the reply [data], as the
    function reads it: [(data["choices"][0]["message"]) or {}]. *)
Definition reply_message (data : pyval) : result pyval :=
  choices ← py_getitem data (u "choices");
  first ← py_getitem_0 choices;
  or_empty <$> py_getitem first (u "message").

(** [part] is a part of a message that holds the text [text]: a string,
    or an object whose field [text] is a string that is not empty. *)
Definition text_part (part : pyval) (text : str) : Prop :=
  part = PStr text
  ∨ ∃ d, part = PDict d ∧ dict_lookup d (u "text") = Some (PStr text) ∧ text ≠ [].

(** The reply [data] has [content] as the content of the message of its
    first choice. *)
Definition first_choice_content (data content : pyval) : Prop :=
  ∃ d first rest message,
    data = PDict d
    ∧ dict_lookup d (u "choices") = Some (PList (PDict first :: rest))
    ∧ dict_lookup first (u "message") = Some (PDict message)
    ∧ dict_lookup message (u "content") = Some content.

(** The reply to the configuration query that reports the settings of
    the plugins by plugin id. *)
Definition configuration_reply (plugins : list (str * pyval)) : pyval :=
  PDict [(u "data", PDict [(u "configuration", PDict [(u "plugins", PDict plugins)])])].

(** The reply to the [findImage] query that reports the image [img]. *)
Definition findImage_reply (img : list (str * pyval)) : pyval :=
  PDict [(u "data", PDict [(u "findImage", PDict img)])].

(** The path of the image as [_fetch_image_path] returns it, the tags
    that [tags_from_image] returns for a path, and the image id of the
    invocation, if its argument [image_id] can be read as one. *)
Definition found_path (id : Z) : pyval :=
  match (_fetch_image_path id empty_world).1 with
  | Ok path => path
  | Raise _ => PNone
  end.

Definition suggested_tags (path : pyval) : list str :=
  match ('(data, mime) ← _read_image_bytes env path;
         content ← _call_llm_b64_image env data mime (_existing_tags env);
         normalize content) with
  | Ok tags => tags
  | Raise _ => []
  end.

Definition requested_image : option Z :=
  match input_arg (u "image_id") with
  | Ok v => if is_none v then None
            else match py_int v with Ok id => Some id | Raise _ => None end
  | Raise _ => None
  end.

(** The argument [request_id] of the invocation. *)
Definition requested_id : pyval :=
  match input_arg (u "request_id") with
  | Ok v => v
  | Raise _ => PNone
  end.

(** The record that the task writes for an image when nothing fails on
    the way to the file. *)
Definition task_record (id : Z) (rid : pyval) : TaggingResult :=
  if py_truthy (found_path id) then
    {| image_id := id; tags := suggested_tags (found_path id); error := None;
       request_id := safe_request_id_of rid |}
  else
    {| image_id := id; tags := []; error := Some (u "No image path found.");
       request_id := safe_request_id_of rid |}.

(** The functions that [env] takes as given are those of the module,
    run with the constants [cfg]. *)
Definition wired (cfg : Config) : Prop :=
  (∀ w, (_existing_tags' w).1 = Ok (_existing_tags env))
  ∧ (∀ path, _read_image_bytes env path = _read_image_bytes' path)
  ∧ (∀ data mime existing w,
       _call_llm_b64_image env data mime existing
       = (_call_llm_b64_image' cfg (b64encode data) mime existing w).1).

(** The invocation [env] with the functions of the module in the place
    of what it takes as given. *)
Definition wired_env (cfg : Config) : Env := {|
  JSON_INPUT := JSON_INPUT env;
  PLUGIN_TASK_NAME := PLUGIN_TASK_NAME env;
  stash_setting := stash_setting env;
  graphql_configuration := graphql_configuration env;
  graphql_findImage := graphql_findImage env;
  getenv := getenv env;
  module_dir := module_dir env;
  _existing_tags :=
    match (_existing_tags' empty_world).1 with
    | Ok names => names
    | Raise _ => []
    end;
  _read_image_bytes := _read_image_bytes';
  _call_llm_b64_image := λ data mime existing,
    (_call_llm_b64_image' cfg (b64encode data) mime existing empty_world).1;
|}.

(** The constants of the module when nothing is configured, with the
    floats of the sample runtime. *)
Definition sample_config : Config := {|
  BASE_URL := u "http://localhost:11434/v1";
  MODEL := u "gemma3:4b-it-q8_0";
  TEMP := no_float;
  MAX_TOKENS := (-1)%Z;
  TIMEOUT := no_float;
  API_KEY := u "none";
|}.

(** The directory that a key of the connection record names, if it
    names one; and [_plugin_dir] answering from the connection record
    [sc]: with the directory under the first of the keys [plugin_dir],
    [PluginDir] and [pluginDir] that names one, and with the directory
    of the module when none does. *)
Definition dir_under (sc : list (str * pyval)) (key : str) : option str :=
  match dict_lookup sc key with
  | Some (PStr (c :: r)) => Some (c :: r)
  | _ => None
  end.

Definition answers_from (sc : list (str * pyval)) : Prop :=
  (∀ dir, dir_under sc (u "plugin_dir") = Some dir → _plugin_dir = Ok dir)
  ∧ (∀ dir, dir_under sc (u "plugin_dir") = None →
            dir_under sc (u "PluginDir") = Some dir → _plugin_dir = Ok dir)
  ∧ (∀ dir, dir_under sc (u "plugin_dir") = None → dir_under sc (u "PluginDir") = None →
            dir_under sc (u "pluginDir") = Some dir → _plugin_dir = Ok dir)
  ∧ (dir_under sc (u "plugin_dir") = None → dir_under sc (u "PluginDir") = None →
     dir_under sc (u "pluginDir") = None → _plugin_dir = Ok (module_dir env)).

(** A character of the base64 alphabet or the padding. *)
Definition is_b64_char (c : char) : bool :=
  is_ascii_upper c || is_ascii_lower c || is_ascii_digit c
  || (c =? 43)%N || (c =? 47)%N || (c =? 61)%N.

(** A string of bytes. *)
Definition is_bytes (data : list N) : Prop := Forall (λ b, (b < 256)%N) data.

(** A character of the decimal form of an integer: a digit or the
    sign. *)
Definition is_int_char (c : char) : bool := is_ascii_digit c || (c =? 45)%N.

(** * Proofs *)

(** Boolean tests of the model as the propositions they decide. *)
Ltac unbool :=
  repeat match goal with
  | H : _ && _ = true |- _ => apply andb_true_iff in H; destruct H
  | H : _ || _ = false |- _ => apply orb_false_iff in H; destruct H
  | H : _ || _ = true |- _ => apply orb_true_iff in H; destruct H
  | H : _ && _ = false |- _ => apply andb_false_iff in H; destruct H
  | H : negb _ = true |- _ => apply negb_true_iff in H
  | H : negb _ = false |- _ => apply negb_false_iff in H
  | H : (_ <=? _)%N = true |- _ => apply N.leb_le in H
  | H : (_ <=? _)%N = false |- _ => apply N.leb_gt in H
  | H : (_ <? _)%N = true |- _ => apply N.ltb_lt in H
  | H : (_ <? _)%N = false |- _ => apply N.ltb_ge in H
  | H : (_ =? _)%N = true |- _ => apply N.eqb_eq in H
  | H : (_ =? _)%N = false |- _ => apply N.eqb_neq in H
  | H : bool_decide _ = true |- _ => apply bool_decide_eq_true in H
  | H : bool_decide _ = false |- _ => apply bool_decide_eq_false in H
  end.

(** ** Strings *)

Lemma latin1_lower_no_capital c : is_ascii_upper (latin1_lower c) = false.
Proof.
  unfold latin1_lower.
  destruct (is_ascii_upper c || in_range 192 214 c || in_range 216 222 c) eqn:E;
    destruct (is_ascii_upper _) eqn:E' in |- *; try done;
    unfold is_ascii_upper, in_range in *; unbool; lia.
Qed.

Lemma lower_from_no_capital pre s c :
  c ∈ lower_from pre s → is_ascii_upper c = false.
Proof.
  revert pre. induction s as [|d s IH]; intros pre; simpl.
  - intros H. by apply elem_of_nil in H.
  - rewrite elem_of_app. intros [H|H]; [|by eapply IH].
    unfold lower_char in H. destruct (d <? 256)%N.
    + apply list_elem_of_singleton in H. subst. apply latin1_lower_no_capital.
    + by eapply hi_lower_no_capital.
Qed.

Lemma lower_no_capital s c : c ∈ lower s → is_ascii_upper c = false.
Proof. apply lower_from_no_capital. Qed.

(** ** The decoder never runs out of fuel *)

Lemma lstrip_by_length p s : length (lstrip_by p s) ≤ length s.
Proof. induction s as [|c s IH]; simpl; [done|]. destruct (p c); simpl; lia. Qed.

Lemma skip_ws_length s : length (skip_ws s) ≤ length s.
Proof. apply lstrip_by_length. Qed.

Lemma strip_prefix_length prefix s r :
  strip_prefix prefix s = Some r → length s = length prefix + length r.
Proof.
  revert s. induction prefix as [|p prefix IH]; intros [|c s]; simpl; try done.
  - by intros [= <-].
  - by intros [= <-].
  - destruct (p =? c)%N; [|done]. intros H%IH. lia.
Qed.

Lemma take_digits_length s ds r :
  take_digits s = (ds, r) → length s = length ds + length r.
Proof.
  revert ds r. induction s as [|c s IH]; intros ds r; simpl.
  - by intros [= <- <-].
  - destruct (is_ascii_digit c); [|by intros [= <- <-]].
    destruct (take_digits s) as [ds' r'] eqn:E. intros [= <- <-].
    rewrite (IH _ _ eq_refl). simpl. lia.
Qed.

Lemma match_number_shorter s is_float lit r :
  match_number s = Some (is_float, lit, r) → length r < length s.
Proof.
  unfold match_number. intros H.
  repeat (case_match; simplify_option_eq; simpl in *);
    repeat match goal with
    | E : take_digits _ = _ |- _ => apply take_digits_length in E
    end; simpl in *; lia.
Qed.

Lemma scanstring_shorter s acc x r :
  scanstring s acc = Ok (x, r) → length r < length s.
Proof.
  remember (length s) as n eqn:Hn. revert s acc Hn.
  induction n as [n IH] using lt_wf_ind. intros s acc -> H.
  destruct s as [|c s1]; [done|]. cbn [scanstring] in H.
  repeat case_match; simplify_eq; simpl; try lia;
    match goal with
    | H : scanstring ?s' _ = Ok _ |- _ =>
      eapply (IH (length s')) in H; [| simpl; lia | done]; simpl in *; lia
    end.
Qed.

(** The outcome of a decoding step is not the end of the fuel. *)
Definition fuelled {A} (r : result A) : Prop :=
  match r with
  | Ok _ => True
  | Raise e => exn_class e ≠ RecursionError
  end.

Lemma fuelled_bind {A B} (m : result A) (f : A → result B) :
  fuelled m → (∀ a, m = Ok a → fuelled (f a)) → fuelled (m ≫= f).
Proof. destruct m; simpl; auto. Qed.

Lemma scanstring_fuelled s acc : fuelled (scanstring s acc).
Proof.
  remember (length s) as n eqn:Hn. revert s acc Hn.
  induction n as [n IH] using lt_wf_ind. intros s acc ->.
  destruct s as [|c s1]; [done|]. cbn [scanstring].
  repeat case_match; simplify_eq; try done;
    match goal with
    | |- fuelled (scanstring ?s' _) => eapply (IH (length s')); [simpl; lia | done]
    end.
Qed.

Lemma number_value_fuelled is_float lit : fuelled (number_value is_float lit).
Proof. unfold number_value. repeat case_match; done. Qed.

Ltac length_facts :=
  repeat match goal with
  | H : scanstring _ _ = Ok _ |- _ => apply scanstring_shorter in H
  | H : strip_prefix _ _ = Some _ |- _ => apply strip_prefix_length in H
  | H : match_number _ = Some _ |- _ => apply match_number_shorter in H
  | H : skip_ws ?s = _ :: _ |- _ =>
    pose proof (skip_ws_length s); apply (f_equal length) in H
  | H : skip_ws ?s = [] |- _ => clear H
  | H : context [length (skip_ws ?s)] |- _ =>
    lazymatch goal with
    | _ : length (skip_ws s) ≤ length s |- _ => fail
    | _ => pose proof (skip_ws_length s)
    end
  | |- context [length (skip_ws ?s)] =>
    lazymatch goal with
    | _ : length (skip_ws s) ≤ length s |- _ => fail
    | _ => pose proof (skip_ws_length s)
    end
  end.

(** Every value the decoder reads takes at least one character. *)
Lemma decode_shorter fuel :
  (∀ s x r, scan_once fuel s = Ok (x, r) → length r < length s)
  ∧ (∀ s acc x r, parse_array fuel s acc = Ok (x, r) → length r < length s)
  ∧ (∀ s acc x r, parse_object fuel s acc = Ok (x, r) → length r < length s).
Proof.
  induction fuel as [|fuel (IHs & IHa & IHo)]; [by split_and!|].
  split_and!.
  - intros s x r H. destruct s as [|c s1]; [done|]. cbn [scan_once] in H.
    unfold mbind, result_bind in H.
    repeat (case_match; simplify_eq);
      repeat match goal with
      | H : parse_array fuel _ _ = Ok _ |- _ => apply IHa in H
      | H : parse_object fuel _ _ = Ok _ |- _ => apply IHo in H
      end; length_facts; simpl in *; lia.
  - intros s acc x r H. cbn [parse_array] in H. unfold mbind, result_bind in H.
    repeat (case_match; simplify_eq);
      repeat match goal with
      | H : scan_once fuel _ = Ok _ |- _ => apply IHs in H
      | H : parse_array fuel _ _ = Ok _ |- _ => apply IHa in H
      end; length_facts; simpl in *; lia.
  - intros s acc x r H. cbn [parse_object] in H. unfold mbind, result_bind in H.
    repeat (case_match; simplify_eq);
      repeat match goal with
      | H : scan_once fuel _ = Ok _ |- _ => apply IHs in H
      | H : parse_object fuel _ _ = Ok _ |- _ => apply IHo in H
      end; length_facts; simpl in *; lia.
Qed.

Ltac fuelled_leaf :=
  match goal with
  | |- fuelled (Ok _) => exact I
  | |- fuelled (Raise (json_error _)) => discriminate
  | H : number_value ?b ?l = Raise ?e |- fuelled (Raise ?e) =>
    let Hn := fresh in
    pose proof (number_value_fuelled b l) as Hn; rewrite H in Hn; exact Hn
  | H : fuelled (Raise ?e) |- fuelled (Raise ?e) => exact H
  end.

(** More than twice the length of the text is fuel enough. *)
Lemma decode_fuelled fuel :
  (∀ s, 2 * length s + 1 ≤ fuel → fuelled (scan_once fuel s))
  ∧ (∀ s acc, 2 * length s + 2 ≤ fuel → fuelled (parse_array fuel s acc))
  ∧ (∀ s acc, 2 * length s + 2 ≤ fuel → fuelled (parse_object fuel s acc)).
Proof.
  induction fuel as [|fuel (IHs & IHa & IHo)]; [split_and!; intros; lia|].
  pose proof (decode_shorter fuel) as (Hs & _ & _).
  split_and!.
  - intros s Hfuel. destruct s as [|c s1]; [done|]. cbn [scan_once].
    unfold mbind, result_bind.
    pose proof (scanstring_fuelled s1 []) as Hstr.
    repeat (case_match; simplify_eq); try fuelled_leaf;
      first [apply IHa | apply IHo]; length_facts; simpl in *; lia.
  - intros s acc Hfuel. cbn [parse_array]. unfold mbind, result_bind.
    pose proof (IHs s ltac:(lia)) as Hval.
    repeat (case_match; simplify_eq); try fuelled_leaf.
    apply IHa.
    repeat match goal with H : scan_once fuel _ = Ok _ |- _ => apply Hs in H end.
    length_facts. simpl in *. lia.
  - intros s acc Hfuel. cbn [parse_object]. unfold mbind, result_bind.
    destruct s as [|c s1]; [done|].
    pose proof (scanstring_fuelled s1 []) as Hstr.
    repeat (case_match; simplify_eq); try fuelled_leaf.
    + apply IHo.
      repeat match goal with H : scan_once fuel _ = Ok _ |- _ => apply Hs in H end.
      length_facts. simpl in *. lia.
    + match goal with
      | H : scan_once fuel ?s' = Raise ?e |- fuelled (Raise ?e) =>
        let Hv := fresh in
        assert (fuelled (scan_once fuel s')) as Hv;
          [apply IHs; length_facts; simpl in *; lia | by rewrite H in Hv]
      end.
Qed.

(** [json.loads] in the model fails only as Python's does: with an
    error of the decoder, or of [int] on a literal over the limit. *)
Lemma json_loads_fuelled s : fuelled (json_loads s).
Proof.
  unfold json_loads. destruct (startswith s _); [discriminate|].
  unfold mbind, result_bind.
  pose proof (proj1 (decode_fuelled (json_fuel s)) (skip_ws s)) as Hfuel.
  pose proof (skip_ws_length s) as Hlen. unfold json_fuel in *.
  destruct (scan_once _ _) as [[x r]|e]; [|apply Hfuel; lia].
  by destruct (skip_ws r).
Qed.

(** ** The cleaning loop *)

Definition length_ok (t : str) : bool := (1 <=? length t) && (length t <=? 50).

Lemma cleaned_loop_spec tags :
  cleaned_loop tags = List.filter length_ok (map clean_candidate tags).
Proof.
  unfold cleaned_loop.
  enough (∀ acc, foldl (λ cleaned t,
            let t := clean_candidate t in
            if (1 <=? length t) && (length t <=? 50) then cleaned ++ [t] else cleaned)
            acc tags = acc ++ List.filter length_ok (map clean_candidate tags)) as H
    by apply (H []).
  induction tags as [|t tags IH]; intros acc; simpl.
  - by rewrite app_nil_r.
  - rewrite IH. unfold length_ok at 2.
    destruct (_ && _); [by rewrite <- app_assoc | done].
Qed.

Lemma clean_candidate_chars t c :
  c ∈ clean_candidate t → keep_char c = true ∧ is_ascii_upper c = false.
Proof.
  unfold clean_candidate. rewrite list_elem_of_In, filter_In, <- list_elem_of_In.
  intros [H ?]. split; [done|]. by eapply lower_no_capital.
Qed.

Lemma keep_char_ok c :
  keep_char c = true → is_ascii_upper c = false → tag_char_ok c.
Proof.
  unfold keep_char, tag_char_ok. intros H Hup.
  apply orb_true_iff in H as [H|H].
  - destruct (c <? 128)%N eqn:Hc; [left | right; unbool; done].
    destruct (tag_regex_char c) eqn:G; [done | exfalso].
    unfold isalnum, tag_regex_char, latin1_isalnum, is_ascii_upper, is_ascii_lower,
      is_ascii_digit, in_range in *.
    destruct (c <? 256)%N eqn:Hc'; unbool; lia.
  - left. unbool. change (u "- _") with [45%N; 32%N; 95%N] in H.
    rewrite !elem_of_cons in H.
    destruct H as [->|[->|[->|H]]]; try done. by apply elem_of_nil in H.
Qed.

(** ** The loop that removes duplicates *)

Lemma uniq_state_snoc l t :
  foldl uniq_step (∅, []) (l ++ [t]) = uniq_step (foldl uniq_step (∅, []) l) t.
Proof. by rewrite foldl_app. Qed.

(** The invariant of the loop: [seen] holds the tags of [uniq], which
    are the non-empty tags met so far, once each and in the order of the
    input. *)
Lemma uniq_step_cases seen uniq t :
  (t ≠ [] ∧ (t ∉ seen) ∧ uniq_step (seen, uniq) t = ({[t]} ∪ seen, uniq ++ [t]))
  ∨ ((t = [] ∨ t ∈ seen) ∧ uniq_step (seen, uniq) t = (seen, uniq)).
Proof.
  unfold uniq_step.
  destruct (decide (t = [])) as [->|Hne].
  { right. split; [by left | done]. }
  destruct (decide (t ∈ seen)) as [Hs|Hs].
  - right. split; [by right|].
    by rewrite (bool_decide_eq_true_2 _ Hs), andb_false_r.
  - left. split_and!; [done..|].
    by rewrite (bool_decide_eq_false_2 _ Hne), (bool_decide_eq_false_2 _ Hs).
Qed.

Lemma uniq_state_inv l :
  ∀ seen uniq, foldl uniq_step (∅, []) l = (seen, uniq) →
    (∀ t, t ∈ seen ↔ t ∈ uniq) ∧ (∀ t, t ∈ uniq ↔ t ∈ l ∧ t ≠ [])
    ∧ NoDup uniq ∧ uniq `sublist_of` l.
Proof.
  induction l as [|t l IH] using rev_ind; intros seen uniq.
  - simpl. intros [= <- <-]. split_and!; [| | constructor | done].
    + intros t. split; intros H; [by apply not_elem_of_empty in H | by apply elem_of_nil in H].
    + intros t. split; [intros H | intros [H _]]; by apply elem_of_nil in H.
  - rewrite uniq_state_snoc. destruct (foldl uniq_step (∅, []) l) as [seen0 uniq0].
    destruct (IH _ _ eq_refl) as (Hseen & Hin & Hnd & Hsub).
    destruct (uniq_step_cases seen0 uniq0 t) as [(Hne & Hs & ->)|(Hold & ->)];
      intros [= <- <-].
    + split_and!.
      * intros x. rewrite elem_of_union, elem_of_singleton, elem_of_app,
          list_elem_of_singleton, Hseen. tauto.
      * intros x. rewrite !elem_of_app, !list_elem_of_singleton, Hin.
        split; [intros [[??]| ->]; auto | intros [[?| ->] ?]; auto].
      * apply NoDup_app. split_and!; [done | | apply NoDup_singleton].
        intros x Hx. rewrite list_elem_of_singleton. intros ->.
        by apply Hs, Hseen.
      * by apply sublist_app.
    + split_and!; [done | | done | by apply sublist_inserts_r].
      intros x. rewrite Hin, elem_of_app, list_elem_of_singleton.
      split; [intros [??]; auto | intros [[?| ->] Hx]; [done|]].
      destruct Hold as [->|Hs]; [done|]. by apply Hin, Hseen.
Qed.

Lemma uniq_loop_elem_of l t : t ∈ uniq_loop l ↔ t ∈ l ∧ t ≠ [].
Proof.
  unfold uniq_loop. destruct (foldl uniq_step (∅, []) l) as [seen uniq] eqn:E.
  by apply (uniq_state_inv l seen uniq E).
Qed.

Lemma uniq_loop_NoDup l : NoDup (uniq_loop l).
Proof.
  unfold uniq_loop. destruct (foldl uniq_step (∅, []) l) as [seen uniq] eqn:E.
  by apply (uniq_state_inv l seen uniq E).
Qed.

Lemma uniq_loop_sublist l : uniq_loop l `sublist_of` l.
Proof.
  unfold uniq_loop. destruct (foldl uniq_step (∅, []) l) as [seen uniq] eqn:E.
  by apply (uniq_state_inv l seen uniq E).
Qed.

(** One more tag: it is appended if it was not met before, and dropped
    if it was. *)
Lemma uniq_loop_snoc l t :
  uniq_loop (l ++ [t]) =
    if decide (t ∈ l ∨ t = []) then uniq_loop l else uniq_loop l ++ [t].
Proof.
  unfold uniq_loop. rewrite uniq_state_snoc.
  destruct (foldl uniq_step (∅, []) l) as [seen uniq] eqn:E.
  destruct (uniq_state_inv l seen uniq E) as (Hseen & Hin & _).
  destruct (uniq_step_cases seen uniq t) as [(Hne & Hs & ->)|(Hold & ->)];
    case_decide as Hd; simpl; try done.
  - destruct Hd as [Hd|Hd]; [|done]. destruct Hs. by apply Hseen, Hin.
  - destruct Hd. destruct Hold as [->|Hs]; [by right|left]. by apply Hin, Hseen.
Qed.

(** ** Normalization *)

Lemma json_candidates_total text : ∃ extracted, json_candidates text = Ok extracted.
Proof.
  unfold json_candidates. repeat case_match; eauto.
  unfold try_except. destruct (json_loads _) as [arr|e]; simpl; eauto.
Qed.

(** [_parse_tags] returns, and what it returns: the extracted
    candidates, those of the fallback if there are none, cleaned and
    without duplicates. *)
Lemma _parse_tags_total text :
  ∃ extracted,
    json_candidates (strip text) = Ok extracted
    ∧ _parse_tags text =
        Ok (uniq_loop (cleaned_loop (if bool_decide (extracted = [])
                                     then split_candidates (strip text)
                                     else extracted))).
Proof.
  destruct (json_candidates_total (strip text)) as [extracted H].
  exists extracted. split; [done|]. unfold _parse_tags. by rewrite H.
Qed.

Lemma uniq_cleaned_tag_ok candidates t :
  t ∈ uniq_loop (cleaned_loop candidates) → tag_ok t.
Proof.
  rewrite uniq_loop_elem_of, cleaned_loop_spec. intros [H _].
  apply list_elem_of_In, filter_In in H as [H Hlen].
  apply in_map_iff in H as (c & <- & _).
  unfold length_ok in Hlen. apply andb_true_iff in Hlen as [H1 H2].
  apply Nat.leb_le in H1, H2. split; [lia|].
  apply Forall_forall. intros ch Hch.
  apply clean_candidate_chars in Hch as [??]. by apply keep_char_ok.
Qed.

Lemma tag_ok_ascii t :
  tag_ok t → Forall (λ c, (c < 128)%N) t → matches_tag_regex t = true.
Proof.
  intros [Hlen Hchars] Hascii. unfold matches_tag_regex.
  rewrite !andb_true_iff, !Nat.leb_le, forallb_forall. split; [lia|].
  intros c Hc%list_elem_of_In.
  rewrite Forall_forall in Hchars, Hascii.
  destruct (Hchars c Hc) as [?|[? _]]; [done|]. specialize (Hascii c Hc). lia.
Qed.

Lemma _parse_tags_fallback text :
  json_extraction_fails text →
  _parse_tags text = Ok (uniq_loop (cleaned_loop (split_candidates (strip text)))).
Proof.
  intros (start & end_ & Hs & He & Hlt & Hr).
  unfold _parse_tags, json_candidates. rewrite Hs, He.
  apply Nat.ltb_lt in Hlt. rewrite Hlt.
  destruct (json_loads _); [done|]. reflexivity.
Qed.

(** C2 (amended): the reply "Sure! Here are some tags: beach, sunset,
    #ocean " has no bracket, so it is split at its commas; the first
    part keeps the words before "beach", and normalization yields
    exactly ["sure here are some tags beach", "sunset", "ocean"]. *)
Theorem C2_prose_before_first_comma_stays_in_first_tag :
  let reply := u "Sure! Here are some tags: beach, sunset, #ocean " in
  json_candidates (strip (_strip_think_blocks reply)) = Ok []
  ∧ split_candidates (strip (_strip_think_blocks reply))
    = [u "Sure! Here are some tags: beach"; u "sunset"; u "#ocean"]
  ∧ normalize reply = Ok [u "sure here are some tags beach"; u "sunset"; u "ocean"].
Proof. vm_compute. done. Qed.

(** C6 (amended): for every input string normalization returns tags of
    length 1 to 50 whose characters are lowercase ASCII letters, digits,
    space, underscore, hyphen, or characters beyond ASCII that
    [str.isalnum] accepts; a tag matches [^[a-z0-9 _-]{1,50}$] unless
    it has a character beyond ASCII. *)
Theorem C6_tags_are_short_and_alphanumeric (text : str) :
  ∃ tags,
    _parse_tags text = Ok tags
    ∧ Forall tag_ok tags
    ∧ Forall (λ t, matches_tag_regex t = true ∨ Exists (λ c, (128 ≤ c)%N) t) tags.
Proof.
  destruct (_parse_tags_total text) as (extracted & _ & ->).
  eexists. split; [done|].
  split; apply Forall_forall; intros t Ht%uniq_cleaned_tag_ok; [done|].
  destruct (decide (Forall (λ c, (c < 128)%N) t)) as [Hascii|Hhi].
  - left. by apply tag_ok_ascii.
  - right. apply not_Forall_Exists in Hhi; [|apply _].
    eapply Exists_impl; [done|]. simpl. lia.
Qed.

(** C7: normalization is a total function on strings and never raises:
    every string, the empty one and one whose bracketed substring is
    not valid JSON among them, has a sequence of tags as its result,
    and the empty string has the empty sequence.  No failure inside it
    reaches the caller.  The one step that can fail, the parse of the
    bracketed substring, is absorbed: the candidates are then those of
    the split of the whole text, as when there is no bracket; and
    where that split holds no candidate that survives the cleaning, the
    result is the empty sequence. *)
Theorem C7_normalization_is_total :
  (∀ content, ∃ tags, normalize content = Ok tags)
  ∧ normalize [] = Ok []
  ∧ (∀ text, json_extraction_fails text →
       ∃ tags, _parse_tags text = Ok tags
               ∧ tags = uniq_loop (cleaned_loop (split_candidates (strip text))))
  ∧ (∀ text, json_extraction_fails text →
       Forall (λ t, length_ok (clean_candidate t) = false) (split_candidates (strip text)) →
       _parse_tags text = Ok []).
Proof.
  split_and!.
  - intros content. unfold normalize.
    destruct (_parse_tags_total (_strip_think_blocks content)) as (? & _ & ->). eauto.
  - by vm_compute.
  - intros text Hfail. eexists. split; [by apply _parse_tags_fallback | done].
  - intros text Hfail Hnone. rewrite (_parse_tags_fallback text Hfail), cleaned_loop_spec.
    replace (List.filter length_ok (map clean_candidate (split_candidates (strip text))))
      with (@nil str); [done|].
    symmetry. induction Hnone as [|t ts Ht _ IH]; [done|].
    cbn [map List.filter]. by rewrite Ht.
Qed.

(** C8: normalizing ["cat", "outdoor", "CAT"] yields ["cat",
    "outdoor"].  In general the result is the list of cleaned candidates
    run through the duplicate filter, and this filter keeps no tag twice,
    keeps exactly the tags that occur, keeps them in the order of the
    input, and decides on each further tag by equality with the cleaned
    tags before it: one met before is dropped, a new one goes to the
    end. *)
Theorem C8_first_occurrence_wins_in_order :
  normalize (q "['cat', 'outdoor', 'CAT']") = Ok [u "cat"; u "outdoor"]
  ∧ (∀ text, ∃ extracted,
       json_candidates (strip text) = Ok extracted
       ∧ _parse_tags text =
           Ok (uniq_loop (cleaned_loop (if bool_decide (extracted = [])
                                        then split_candidates (strip text)
                                        else extracted))))
  ∧ (∀ candidates, Forall (λ t, t ≠ []) (cleaned_loop candidates))
  ∧ (∀ cleaned,
       NoDup (uniq_loop cleaned)
       ∧ (∀ t, t ∈ uniq_loop cleaned ↔ t ∈ cleaned ∧ t ≠ [])
       ∧ uniq_loop cleaned `sublist_of` cleaned)
  ∧ uniq_loop [] = []
  ∧ (∀ cleaned t,
       uniq_loop (cleaned ++ [t]) =
         if decide (t ∈ cleaned ∨ t = []) then uniq_loop cleaned
         else uniq_loop cleaned ++ [t]).
Proof.
  split_and!.
  - by vm_compute.
  - apply _parse_tags_total.
  - intros candidates. rewrite cleaned_loop_spec. apply Forall_forall.
    intros t [_ Hlen]%list_elem_of_In%filter_In. by destruct t.
  - intros cleaned. split_and!;
      [apply uniq_loop_NoDup | apply uniq_loop_elem_of | apply uniq_loop_sublist].
  - done.
  - apply uniq_loop_snoc.
Qed.

(** ** Reasoning blocks *)

Lemma match_ci_app pat tag s : is_tag pat tag → match_ci pat (tag ++ s) = Some s.
Proof.
  unfold is_tag. revert tag. induction pat as [|p pat IH]; intros [|c tag]; simpl; try done.
  destruct (re_ignorecase_eq p c); [apply IH | done].
Qed.

Lemma is_tag_length pat tag : is_tag pat tag → length tag = length pat.
Proof.
  unfold is_tag. revert tag. induction pat as [|p pat IH]; intros [|c tag]; simpl; try done.
  destruct (re_ignorecase_eq p c); [|done]. intros H. f_equal. by apply IH.
Qed.

Lemma sub_think_skip l s : sub_think (length l) (l ++ s) = sub_think 0 s.
Proof. induction l as [|c l IH]; [done | apply IH]. Qed.

Lemma sub_think_block n c l s :
  think_block_at (c :: l ++ s) = Some n → n = S (length l) →
  sub_think 0 (c :: l ++ s) = sub_think 0 s.
Proof.
  intros Hb ->. cbn [sub_think]. rewrite Hb. simpl. rewrite Nat.sub_0_r.
  apply sub_think_skip.
Qed.

Lemma strip_think_block opening body closing rest :
  is_tag think_open opening → is_tag think_close closing →
  find_ci think_close (body ++ closing ++ rest) = Some (length body) →
  _strip_think_blocks (opening ++ body ++ closing ++ rest) = _strip_think_blocks rest.
Proof.
  intros Ho Hc Hfind. unfold _strip_think_blocks.
  pose proof (is_tag_length _ _ Ho) as Hlo. pose proof (is_tag_length _ _ Hc) as Hlc.
  destruct opening as [|c opening]; [done|].
  replace ((c :: opening) ++ body ++ closing ++ rest)
    with (c :: (opening ++ body ++ closing) ++ rest)
    by (simpl; by rewrite <- !app_assoc).
  apply (sub_think_block (length think_open + length body + length think_close)).
  - unfold think_block_at.
    replace (c :: (opening ++ body ++ closing) ++ rest)
      with ((c :: opening) ++ body ++ closing ++ rest)
      by (simpl; by rewrite <- !app_assoc).
    rewrite (match_ci_app _ _ _ Ho). simpl. by rewrite Hfind.
  - rewrite !length_app, Hlc. simpl in *. lia.
Qed.

Lemma strip_think_keep c rest :
  think_block_at (c :: rest) = None →
  _strip_think_blocks (c :: rest) = c :: _strip_think_blocks rest.
Proof. unfold _strip_think_blocks. cbn [sub_think]. by intros ->. Qed.

(** What [tags_from_image] returns when the image is read and the LLM
    replies: the tags that [_parse_tags] extracts from the reply
    without its reasoning blocks. *)
Lemma tags_from_image_strips_first path data mime content w :
  _read_image_bytes env path = Ok (data, mime) →
  _call_llm_b64_image env data mime (_existing_tags env) = Ok content →
  (tags_from_image path w).1 = _parse_tags (_strip_think_blocks content).
Proof.
  intros Hread Hcall.
  unfold tags_from_image, try_catch, mbind, M_bind, lift, mret, M_ret. simpl.
  rewrite Hread. simpl. rewrite Hcall. simpl.
  by destruct (_parse_tags_total (_strip_think_blocks content)) as (? & _ & ->).
Qed.

(** C9: [tags_from_image] removes the reasoning blocks of the reply
    before it extracts the tags: what it returns for a reply is
    [_parse_tags] of the reply run through [_strip_think_blocks].
    <think>hmm</think>["indoor"] yields ["indoor"]; so does a reply
    whose block, written in capitals and over two lines, holds a
    bracket, which without the removal would yield other tags.  A
    block is an opening tag, in any case of its letters, any characters
    (newlines too) up to the first closing tag after it, in any case,
    and that closing tag; where one starts it is removed as a whole,
    and a character that starts none is kept. *)
Theorem C9_think_blocks_removed_before_extraction :
  (∀ path data mime content w,
     _read_image_bytes env path = Ok (data, mime) →
     _call_llm_b64_image env data mime (_existing_tags env) = Ok content →
     (tags_from_image path w).1 = _parse_tags (_strip_think_blocks content)
     ∧ normalize content = _parse_tags (_strip_think_blocks content))
  ∧ _parse_tags (_strip_think_blocks (q "<think>hmm</think>['indoor']")) = Ok [u "indoor"]
  ∧ (let reply := q "<THINK>[x]" ++ [10%N] ++ q "</Think>['indoor']" in
     _parse_tags (_strip_think_blocks reply) = Ok [u "indoor"]
     ∧ _parse_tags reply = Ok [u "thinkx"; u "thinkindoor"])
  ∧ (∀ opening body closing rest,
       is_tag think_open opening → is_tag think_close closing →
       find_ci think_close (body ++ closing ++ rest) = Some (length body) →
       _strip_think_blocks (opening ++ body ++ closing ++ rest)
       = _strip_think_blocks rest)
  ∧ (∀ c rest,
       think_block_at (c :: rest) = None →
       _strip_think_blocks (c :: rest) = c :: _strip_think_blocks rest)
  ∧ _strip_think_blocks [] = [].
Proof.
  split_and!;
    [ | by vm_compute | split; by vm_compute | apply strip_think_block
      | apply strip_think_keep | done].
  intros path data mime content w Hread Hcall.
  split; [by apply (tags_from_image_strips_first path data mime) | done].
Qed.

(** ** Stripping *)

Lemma lstrip_by_nil p s : lstrip_by p s = [] ↔ Forall (λ c, p c = true) s.
Proof.
  induction s as [|c s IH]; simpl; [by split|].
  destruct (p c) eqn:E.
  - rewrite IH. split; [by constructor | by inversion 1].
  - split; [done | inversion 1; congruence].
Qed.

Lemma lstrip_by_head p s c r : lstrip_by p s = c :: r → p c = false.
Proof.
  induction s as [|d s IH]; simpl; [done|].
  destruct (p d) eqn:E; [done | by intros [= <- _]].
Qed.

Lemma strip_by_nil p s : strip_by p s = [] ↔ Forall (λ c, p c = true) s.
Proof.
  unfold strip_by, rstrip_by. split.
  - intros H. apply (f_equal reverse) in H. rewrite reverse_involutive in H.
    change (reverse []) with (@nil N) in H.
    apply lstrip_by_nil in H. rewrite Forall_reverse in H.
    destruct (lstrip_by p s) as [|c r] eqn:E; [by apply lstrip_by_nil|].
    apply lstrip_by_head in E. apply Forall_cons in H as [? _]. congruence.
  - intros H. apply lstrip_by_nil in H. by rewrite H.
Qed.

(** ** Result persistence *)

Lemma sub_unsafe_chars_safe s : Forall (λ c, is_safe_char c = true) (sub_unsafe_chars s).
Proof.
  apply Forall_forall. intros c (d & -> & _)%list_elem_of_fmap.
  by destruct (is_safe_char d) eqn:E.
Qed.

Lemma safe_request_id_of_nonblank s :
  ¬ no_request_id (PStr s) →
  safe_request_id_of (PStr s) = Some (sub_unsafe_chars (strip s))
  ∧ sub_unsafe_chars (strip s) ≠ [].
Proof.
  simpl. rewrite <- (strip_by_nil isspace). fold (strip s). intros H.
  unfold safe_request_id_of, nonblank_str. rewrite bool_decide_eq_false_2 by done.
  split; [done|]. by destruct (strip s).
Qed.

(** A write that returns has stored its payload under the final path. *)
Lemma _write_result_stores id tgs err rid w w' :
  _write_result id tgs err rid w = (Ok (), w') →
  ∃ dir,
    _plugin_dir = Ok dir
    ∧ files w' !! os_path_join rt (os_path_join rt dir (u "results"))
                    (result_filename id (safe_request_id_of rid))
      = Some {| image_id := id; tags := tgs; error := err;
                request_id := safe_request_id_of rid |}.
Proof.
  unfold _write_result, mbind, M_bind, lift, fs_call.
  destruct _plugin_dir as [dir|e]; [|done]. intros H. exists dir. split; [done|].
  destruct (fs_faults w) as [|[?|] [|[?|] [|[?|] ?]]]; simpl in H;
    rewrite ?lookup_insert_eq in H; simplify_eq; simpl; apply lookup_insert_eq.
Qed.

(** C3 (amended): the request id "../../x" gives the filename
    component "______x": the dots are outside [[A-Za-z0-9_-]] as the
    slashes are, and the component has no path separator.  In general
    the request id is first trimmed of the white space around it, and
    then every character outside the class is replaced with "_" and
    every other character is kept. *)
Theorem C3_request_id_trimmed_then_sanitized :
  safe_request_id_of (PStr (u "../../x")) = Some (u "______x")
  ∧ (∀ id, result_filename id (Some (u "______x")) = str_of_int id ++ u "_______x.json")
  ∧ (∀ s safe,
       safe_request_id_of (PStr s) = Some safe →
       length safe = length (strip s)
       ∧ (∀ i c, strip s !! i = Some c →
                 safe !! i = Some (if is_safe_char c then c else 95%N))
       ∧ Forall (λ c, is_safe_char c = true) safe
       ∧ (47%N ∉ safe) ∧ (92%N ∉ safe)).
Proof.
  split_and!; [by vm_compute | done |].
  intros s safe. unfold safe_request_id_of.
  destruct (nonblank_str (PStr s)) as [s'|] eqn:E; [|done].
  simpl in E. case_bool_decide; [done|]. injection E as <-. intros [= <-].
  pose proof (sub_unsafe_chars_safe (strip s)) as Hsafe.
  split_and!; [apply length_map | | done | |].
  - intros i c Hi.
    change (sub_unsafe_chars (strip s))
      with ((λ c, if is_safe_char c then c else 95%N) <$> strip s).
    by rewrite list_lookup_fmap, Hi.
  - intros Hin. rewrite Forall_forall in Hsafe. by apply Hsafe in Hin.
  - intros Hin. rewrite Forall_forall in Hsafe. by apply Hsafe in Hin.
Qed.

Lemma safe_request_id_of_none rid :
  no_request_id rid → safe_request_id_of rid = None.
Proof.
  destruct rid as [| | | |s| |]; try done. simpl. intros H%strip_by_nil.
  unfold safe_request_id_of, nonblank_str, strip. by rewrite bool_decide_eq_true_2.
Qed.

Lemma is_safe_char_class c :
  is_safe_char c = true
  ↔ (65 ≤ c ≤ 90 ∨ 97 ≤ c ≤ 122 ∨ 48 ≤ c ≤ 57 ∨ c = 95 ∨ c = 45)%N.
Proof.
  unfold is_safe_char, is_ascii_upper, is_ascii_lower, is_ascii_digit, in_range.
  rewrite !orb_true_iff, !andb_true_iff, !N.leb_le, !N.eqb_eq. tauto.
Qed.

(** C10 (amended): a write of a result record that returns has stored
    the record under the final path.  If the request id is [None], is
    not a string, or is of white space only, the file is
    [<imageId>.json] and the field [request_id] of the record is null.
    Otherwise the request id is a string, the file is
    [<imageId>_<safe>.json] and the field is that same [safe], the
    sanitized request id and not the caller's string: the string
    without the white space around it, with every character outside
    [[A-Za-z0-9_-]] replaced by an underscore. *)
Theorem C10_stored_request_id_is_the_sanitized_one
    (id : Z) (tgs : list str) (err : option str) (rid : pyval) (w w' : World) :
  _write_result id tgs err rid w = (Ok (), w') →
  ∃ dir,
    _plugin_dir = Ok dir
    ∧ (no_request_id rid →
       files w' !! os_path_join rt (os_path_join rt dir (u "results"))
                     (str_of_int id ++ u ".json")
       = Some {| image_id := id; tags := tgs; error := err; request_id := None |})
    ∧ (¬ no_request_id rid →
       ∃ s safe,
         rid = PStr s
         ∧ files w' !! os_path_join rt (os_path_join rt dir (u "results"))
                         (str_of_int id ++ u "_" ++ safe ++ u ".json")
           = Some {| image_id := id; tags := tgs; error := err; request_id := Some safe |}
         ∧ safe ≠ []
         ∧ length safe = length (strip s)
         ∧ (∀ i c, strip s !! i = Some c →
                   safe !! i = Some (if is_safe_char c then c else 95%N))
         ∧ Forall (λ c, (65 ≤ c ≤ 90 ∨ 97 ≤ c ≤ 122 ∨ 48 ≤ c ≤ 57 ∨ c = 95 ∨ c = 45)%N) safe).
Proof.
  intros H. apply _write_result_stores in H as (dir & Hdir & Hfile).
  exists dir. split; [done|]. split.
  - intros Hnone. by rewrite (safe_request_id_of_none _ Hnone) in Hfile.
  - intros Hsome. destruct rid as [| | | |s| |]; try (by destruct Hsome).
    apply (safe_request_id_of_nonblank s) in Hsome as [Hsafe Hne].
    rewrite Hsafe in Hfile. exists s, (sub_unsafe_chars (strip s)).
    split_and!; [done | | done | apply length_map | |].
    + unfold result_filename in Hfile. by destruct (sub_unsafe_chars (strip s)).
    + intros i c Hi.
      change (sub_unsafe_chars (strip s))
        with ((λ c, if is_safe_char c then c else 95%N) <$> strip s).
      by rewrite list_lookup_fmap, Hi.
    + eapply Forall_impl; [apply sub_unsafe_chars_safe|].
      intros c Hc. by apply is_safe_char_class.
Qed.

(** ** Orchestration *)

Lemma same_fs_refl w : same_fs w w.
Proof. done. Qed.

Lemma same_fs_trans w1 w2 w3 : same_fs w1 w2 → same_fs w2 w3 → same_fs w1 w3.
Proof. intros [??] [??]. split; congruence. Qed.

Lemma stash_log_spec level w : ∃ w', stash_log level w = (Ok (), w') ∧ same_fs w w'.
Proof. eexists. split; [reflexivity | done]. Qed.

(** A handler that returns makes the whole [try] return. *)
Lemma try_catch_returns {A} (body : M A) handler w :
  (∀ e w0, ∃ a w1, handler e w0 = (Ok a, w1)) →
  ∃ a w', try_catch body handler w = (Ok a, w').
Proof.
  intros Hh. unfold try_catch. destruct (body w) as [[a|e] w0]; eauto.
Qed.

Lemma _fetch_image_path_returns id w :
  ∃ path w', _fetch_image_path id w = (Ok path, w') ∧ same_fs w w'.
Proof.
  unfold _fetch_image_path, try_catch.
  destruct (lift _ w) as [[path|e] w0] eqn:E; unfold lift in E; injection E as _ <-.
  - exists path, w. by split.
  - eexists PNone, _. split; [reflexivity | done].
Qed.

Lemma tags_from_image_returns path w :
  ∃ tgs w', tags_from_image path w = (Ok tgs, w') ∧ same_fs w w'.
Proof.
  unfold tags_from_image, try_catch, mbind, M_bind, lift, mret, M_ret. simpl.
  destruct (_read_image_bytes env path) as [[data mime]|e]; simpl;
    [|eexists _, _; split; [reflexivity | done]].
  destruct (_call_llm_b64_image env data mime (_existing_tags env)) as [content|e]; simpl;
    [|eexists _, _; split; [reflexivity | done]].
  destruct (_parse_tags (_strip_think_blocks content)) as [tgs|e]; simpl;
    eexists _, _; (split; [reflexivity | done]).
Qed.

(** An exception in the image fetch or in the LLM call ends
    [tags_from_image] with no tag. *)
Lemma tags_from_image_swallows path w :
  raises ('(data, mime) ← _read_image_bytes env path;
          _call_llm_b64_image env data mime (_existing_tags env)) = true →
  ∃ w', tags_from_image path w = (Ok [], w') ∧ same_fs w w'.
Proof.
  unfold tags_from_image, try_catch, mbind, M_bind, lift, mret, M_ret, result_bind. simpl.
  destruct (_read_image_bytes env path) as [[data mime]|e]; simpl;
    [|intros _; eexists; split; [reflexivity | done]].
  destruct (_call_llm_b64_image env data mime (_existing_tags env)) as [content|e]; simpl;
    [done | intros _; eexists; split; [reflexivity | done]].
Qed.

Lemma input_arg_dict name v :
  input_arg name = Ok v → is_none v = false → ∃ d, JSON_INPUT env = PDict d.
Proof.
  unfold input_arg. destruct (py_truthy (JSON_INPUT env)); [|by intros [= <-]].
  destruct (JSON_INPUT env); try done. eauto.
Qed.

Lemma _plugin_dir_returns d : JSON_INPUT env = PDict d → ∃ dir, _plugin_dir = Ok dir.
Proof.
  intros HJ. unfold _plugin_dir. rewrite HJ. simpl.
  destruct (py_truthy _); simpl; eauto.
Qed.

Lemma _write_result_returns dir id tgs err rid w :
  _plugin_dir = Ok dir → no_fault 3 w →
  ∃ w', _write_result id tgs err rid w = (Ok (), w').
Proof.
  intros Hdir Hnf. unfold _write_result, mbind, M_bind, lift, fs_call. rewrite Hdir.
  unfold no_fault in Hnf.
  destruct (fs_faults w) as [|[m1|] [|[m2|] [|[m3|] ?]]]; simpl in *;
    rewrite ?lookup_insert_eq; eauto;
    exfalso;
    first [ by discriminate (Hnf (Some m1) ltac:(set_solver))
          | by discriminate (Hnf (Some m2) ltac:(set_solver))
          | by discriminate (Hnf (Some m3) ltac:(set_solver)) ].
Qed.

Lemma no_fault_same_fs n w w' : same_fs w w' → no_fault n w → no_fault n w'.
Proof. intros [_ Hf]. unfold no_fault. by rewrite Hf. Qed.

Lemma tag_image_task_returns w : ∃ w', tag_image_task w = (Ok (), w').
Proof.
  unfold tag_image_task.
  match goal with |- ∃ w', try_catch ?b ?h w = _ =>
    destruct (try_catch_returns b h w) as ([] & w' & H); [|by eauto] end.
  intros e w0. unfold mbind at 1, M_bind at 1.
  destruct (stash_log_spec LogError w0) as (w1 & -> & _).
  apply try_catch_returns. intros _ w2. by eexists (), w2.
Qed.

(** A write leaves the log alone, whatever its outcome. *)
Lemma _write_result_log id tgs err rid w r w' :
  _write_result id tgs err rid w = (r, w') → log w' = log w.
Proof.
  unfold _write_result, mbind, M_bind, lift, fs_call.
  destruct _plugin_dir as [dir|e]; [|by intros [= <- <-]].
  destruct (fs_faults w) as [|[?|] [|[?|] [|[?|] ?]]]; simpl; by intros [= <- <-].
Qed.

(** The log of [tag_image] when the fetch of the image or the LLM call
    raises: the error that [tags_from_image] reports, then the warning
    that no tag was returned. *)
Lemma tag_image_swallows_log id path w :
  (_fetch_image_path id w).1 = Ok path → py_truthy path = true →
  raises ('(data, mime) ← _read_image_bytes env path;
          _call_llm_b64_image env data mime (_existing_tags env)) = true →
  ∃ w', tag_image id w = (Ok (Some []), w') ∧ same_fs w w'
        ∧ log w' = log w ++ [LogError; LogWarn].
Proof.
  intros Hpath Htruthy Hraise.
  unfold tag_image, mbind at 1, M_bind at 1.
  unfold _fetch_image_path, try_catch in *.
  destruct (lift _ w) as [[path'|e] w0] eqn:E; unfold lift in E; injection E as _ <-;
    simpl in Hpath; injection Hpath as <-; [|done].
  rewrite Htruthy. cbn [negb].
  unfold tags_from_image, try_catch, mbind, M_bind, lift, mret, M_ret, result_bind in *.
  simpl in *.
  destruct (_read_image_bytes env path') as [[data mime]|e]; simpl in *.
  - destruct (_call_llm_b64_image env data mime (_existing_tags env)) as [content|e];
      simpl in *; [done|].
    eexists. split_and!; [reflexivity | done | by rewrite <- app_assoc].
  - eexists. split_and!; [reflexivity | done | by rewrite <- app_assoc].
Qed.

(** What the task does when the fetch of the image or the LLM call
    raises: [tags_from_image] has swallowed the exception and logged
    it, so the record that goes to the write reports no tag and no
    error, and it is the record in the file when the write meets no
    fault. *)
Lemma tag_image_task_swallowed_and_logged w v id rid path :
  input_arg (u "image_id") = Ok v → py_int v = Ok id →
  input_arg (u "request_id") = Ok rid →
  (_fetch_image_path id w).1 = Ok path → py_truthy path = true →
  raises ('(data, mime) ← _read_image_bytes env path;
          _call_llm_b64_image env data mime (_existing_tags env)) = true →
  ∃ w' dir more,
    tag_image_task w = (Ok (), w')
    ∧ log w' = log w ++ [LogError; LogWarn] ++ more
    ∧ _plugin_dir = Ok dir
    ∧ (no_fault 3 w →
       more = []
       ∧ files w' !! os_path_join rt (os_path_join rt dir (u "results"))
                       (result_filename id (safe_request_id_of rid))
         = Some {| image_id := id; tags := []; error := None;
                   request_id := safe_request_id_of rid |}).
Proof.
  intros Hv Hid Hrid Hpath Htruthy Hraise.
  assert (is_none v = false) as Hnn by (by destruct v).
  destruct (input_arg_dict _ _ Hv Hnn) as [d HJ].
  destruct (_plugin_dir_returns d HJ) as [dir Hdir].
  destruct (tag_image_swallows_log id path w Hpath Htruthy Hraise) as (w1 & Htag & Hfs & Hlog).
  assert (tag_image_task w =
          match _write_result id [] None rid w1 with
          | (Ok a, w2) => (Ok a, w2)
          | (Raise e, w2) =>
            (_ ← stash_log LogError;
             try_catch
               (image_id ← lift (input_arg (u "image_id"));
                if negb (is_none image_id) then
                  request_id ← lift (input_arg (u "request_id"));
                  image_id ← lift (py_int image_id);
                  _write_result image_id [] (Some (exn_str e)) request_id
                else mret ())
               (λ _, mret ())) w2
          end) as ->.
  { unfold tag_image_task, try_catch at 1, mbind at 1, M_bind at 1, lift at 1. rewrite Hv.
    unfold mbind at 1, M_bind at 1, lift at 1. rewrite Hrid, Hnn.
    unfold mbind at 1, M_bind at 1, lift at 1. rewrite Hid.
    unfold mbind at 1, M_bind at 1. by rewrite Htag. }
  destruct (_write_result id [] None rid w1) as [[[]|e] w2] eqn:Hw.
  - exists w2, dir, []. split_and!; [done | | done |].
    + by rewrite (_write_result_log _ _ _ _ _ _ _ Hw), Hlog.
    + intros _. split; [done|].
      destruct (_write_result_stores _ _ _ _ _ _ Hw) as (dir' & Hdir' & Hfile).
      rewrite Hdir in Hdir'. by injection Hdir' as <-.
  - apply _write_result_log in Hw as Hlog2.
    unfold mbind at 1, M_bind at 1, stash_log at 1. cbn beta iota.
    unfold try_catch, mbind at 1, M_bind at 1, lift at 1. rewrite Hv, Hnn. cbn [negb].
    unfold mbind at 1, M_bind at 1, lift at 1. rewrite Hrid.
    unfold mbind at 1, M_bind at 1, lift at 1. rewrite Hid.
    match goal with |- context [_write_result ?i ?t ?x ?q ?w0] =>
      destruct (_write_result i t x q w0) as [[[]|e'] w3] eqn:Hw2 end;
      apply _write_result_log in Hw2; simpl in Hw2;
      (exists w3, dir, [LogError]; split_and!; [done | | done |]).
    + by rewrite Hw2, Hlog2, Hlog, <- !app_assoc.
    + intros Hnf.
      destruct (_write_result_returns dir id [] None rid w1 Hdir
                  (no_fault_same_fs _ _ _ Hfs Hnf)) as [w4 Hw4].
      congruence.
    + by rewrite Hw2, Hlog2, Hlog, <- !app_assoc.
    + intros Hnf.
      destruct (_write_result_returns dir id [] None rid w1 Hdir
                  (no_fault_same_fs _ _ _ Hfs Hnf)) as [w4 Hw4].
      congruence.
Qed.

(** C1 (amended): the orchestrator never propagates an exception to its
    caller.  When an image path was found and the fetch of the image or
    the LLM call raises (normalization never does), [tags_from_image]
    catches the exception and logs it as an error, and the task goes on
    to write a record with an empty tag list and a null error field;
    when that write meets no fault, this is the persisted record: the
    exception is logged, not recorded. *)
Theorem C1_failure_after_path_gives_empty_tags_and_no_error :
  (∀ w, ∃ w', tag_image_task w = (Ok (), w'))
  ∧ (∀ w v id rid path,
       input_arg (u "image_id") = Ok v → py_int v = Ok id →
       input_arg (u "request_id") = Ok rid →
       (_fetch_image_path id w).1 = Ok path → py_truthy path = true →
       raises ('(data, mime) ← _read_image_bytes env path;
               _call_llm_b64_image env data mime (_existing_tags env)) = true →
       ∃ w' dir logged,
         tag_image_task w = (Ok (), w')
         ∧ log w' = log w ++ logged ∧ LogError ∈ logged
         ∧ _plugin_dir = Ok dir
         ∧ (no_fault 3 w →
            files w' !! os_path_join rt (os_path_join rt dir (u "results"))
                          (result_filename id (safe_request_id_of rid))
            = Some {| image_id := id; tags := []; error := None;
                      request_id := safe_request_id_of rid |})).
Proof.
  split; [apply tag_image_task_returns|].
  intros w v id rid path Hv Hid Hrid Hpath Htruthy Hraise.
  destruct (tag_image_task_swallowed_and_logged w v id rid path Hv Hid Hrid Hpath Htruthy Hraise)
    as (w' & dir & more & Hrun & Hlog & Hdir & Hfile).
  exists w', dir, ([LogError; LogWarn] ++ more).
  split_and!; [done | done | by left | done |].
  intros Hnf. by destruct (Hfile Hnf).
Qed.

(** ** Configuration resolution *)

Lemma url_step_value source otherwise :
  url_step source otherwise =
    match url_value source with
    | Some v => rstrip_chars (u "/") (strip v)
    | None => otherwise
    end.
Proof. unfold url_step, url_value. destruct source as [v|e]; [|done]. simpl. by destruct (nonblank_str v). Qed.

Lemma _resolve_base_url_foldr :
  _resolve_base_url = foldr url_step (rstrip_chars (u "/") DEFAULT_BASE_URL) url_sources.
Proof. reflexivity. Qed.

(** The first source that holds a value decides. *)
Lemma foldr_url_step_first default sources k source v :
  sources !! k = Some source → url_value source = Some v →
  (∀ j earlier, j < k → sources !! j = Some earlier → url_value earlier = None) →
  foldr url_step default sources = rstrip_chars (u "/") (strip v).
Proof.
  revert k. induction sources as [|s0 sources IH]; intros k Hk Hv Hearlier; [done|].
  simpl. rewrite url_step_value. destruct k as [|k].
  - injection Hk as ->. by rewrite Hv.
  - rewrite (Hearlier 0 s0) by (done || lia).
    apply (IH k); [done..|]. intros j earlier Hj. apply (Hearlier (S j)). lia.
Qed.

Lemma foldr_url_step_none default sources :
  (∀ source, source ∈ sources → url_value source = None) →
  foldr url_step default sources = default.
Proof.
  induction sources as [|s0 sources IH]; intros H; [done|].
  simpl. rewrite url_step_value, (H s0) by left. apply IH. intros ??. apply H. by right.
Qed.

Lemma _env_or_setting_cases name env_name default v :
  Setting name PNone = Ok v →
  _env_or_setting name env_name default =
    Ok (match (if is_none v then from_option PStr PNone (getenv env env_name) else v) with
        | PNone => default
        | PStr s => if bool_decide (strip s = []) then default else PStr s
        | x => x
        end).
Proof.
  intros Hv. unfold _env_or_setting. rewrite Hv. simpl.
  destruct (if is_none v then _ else v) as [| | | |s| |]; simpl; try done.
  by case_bool_decide.
Qed.

(** C4 (amended): for the base URL, a source that raises, holds no
    string or holds a string of white space only is passed over; the
    first source that holds another string decides, and the result is
    that string trimmed and then without its trailing slashes; with no
    such source it is the default without its trailing slashes.  For
    the scalar fields, the environment variable is consulted only when
    the setting is [None]; the value so found is replaced by the
    default when it is [None] or a string of white space only, and is
    returned as it is, untrimmed, otherwise. *)
Theorem C4_blank_sources_and_trimming :
  (∀ k source v,
     url_sources !! k = Some source → url_value source = Some v →
     (∀ j earlier, j < k → url_sources !! j = Some earlier → url_value earlier = None) →
     _resolve_base_url = rstrip_chars (u "/") (strip v))
  ∧ ((∀ source, source ∈ url_sources → url_value source = None) →
     _resolve_base_url = rstrip_chars (u "/") DEFAULT_BASE_URL)
  ∧ (∀ name env_name default v,
       Setting name PNone = Ok v →
       (v = PNone → getenv env env_name = None →
          _env_or_setting name env_name default = Ok default)
       ∧ (∀ s, v = PNone → getenv env env_name = Some s →
            _env_or_setting name env_name default
            = Ok (if bool_decide (strip s = []) then default else PStr s))
       ∧ (∀ s, v = PStr s →
            _env_or_setting name env_name default
            = Ok (if bool_decide (strip s = []) then default else PStr s))
       ∧ (v ≠ PNone → (∀ s, v ≠ PStr s) →
            _env_or_setting name env_name default = Ok v)).
Proof.
  split_and!.
  - intros k source v. rewrite _resolve_base_url_foldr. apply foldr_url_step_first.
  - rewrite _resolve_base_url_foldr. apply foldr_url_step_none.
  - intros name env_name default v Hv.
    rewrite (_env_or_setting_cases _ _ _ _ Hv). split_and!.
    + by intros -> ->.
    + by intros s -> ->.
    + by intros s ->.
    + intros Hn Hs. destruct v; simpl; try done. by destruct (Hs s).
Qed.

(** ** The process *)

Lemma silent_ret {A} (a : A) : silent (mret a).
Proof. by intros w r w' [= <- <-]. Qed.

Lemma silent_lift {A} (r : result A) : silent (lift r).
Proof. by intros w r' w' [= <- <-]. Qed.



Lemma silent_stash_log level : silent (stash_log level).
Proof. by intros w r w' [= <- <-]. Qed.

Lemma silent_fs_call change : silent (fs_call change).
Proof.
  intros w r w'. unfold fs_call.
  destruct (fs_faults w) as [|[?|] ?]; by intros [= <- <-].
Qed.

Create HintDb silent discriminated.
#[local] Hint Resolve silent_ret silent_lift silent_stash_log silent_fs_call : silent.





(** * Further properties of the code *)

(** ** The tags that exist already *)

Lemma dedupe_state_inv l :
  ∀ seen uniq, foldl dedupe_step (∅, []) l = (seen, uniq) →
    (∀ n, n ∈ seen ↔ n ∈ uniq) ∧ (∀ n, n ∈ uniq ↔ n ∈ l)
    ∧ NoDup uniq ∧ uniq `sublist_of` l.
Proof.
  induction l as [|n l IH] using rev_ind; intros seen uniq.
  - simpl. intros [= <- <-]. split_and!; [| done | constructor | done].
    intros n. split; intros H; [by apply not_elem_of_empty in H | by apply elem_of_nil in H].
  - rewrite foldl_app. simpl. destruct (foldl dedupe_step (∅, []) l) as [seen0 uniq0].
    destruct (IH _ _ eq_refl) as (Hseen & Hin & Hnd & Hsub).
    unfold dedupe_step. case_bool_decide as Hn; intros [= <- <-].
    + split_and!; [done | | done | by apply sublist_inserts_r].
      intros x. rewrite Hin, elem_of_app, list_elem_of_singleton.
      split; [auto | intros [?| ->]; [done|]]. by apply Hin, Hseen.
    + split_and!.
      * intros x. rewrite elem_of_union, elem_of_singleton, elem_of_app,
          list_elem_of_singleton, Hseen. tauto.
      * intros x. by rewrite !elem_of_app, Hin.
      * apply NoDup_app. split_and!; [done | | apply NoDup_singleton].
        intros x Hx. rewrite list_elem_of_singleton. intros ->. by apply Hn, Hseen.
      * by apply sublist_app.
Qed.

Lemma dedupe_loop_NoDup l : NoDup (dedupe_loop l).
Proof.
  unfold dedupe_loop. destruct (foldl dedupe_step (∅, []) l) as [seen uniq] eqn:E.
  by apply (dedupe_state_inv l seen uniq E).
Qed.

Lemma dedupe_loop_elem_of l n : n ∈ dedupe_loop l ↔ n ∈ l.
Proof.
  unfold dedupe_loop. destruct (foldl dedupe_step (∅, []) l) as [seen uniq] eqn:E.
  by apply (dedupe_state_inv l seen uniq E).
Qed.

Lemma dedupe_loop_sublist l : dedupe_loop l `sublist_of` l.
Proof.
  unfold dedupe_loop. destruct (foldl dedupe_step (∅, []) l) as [seen uniq] eqn:E.
  by apply (dedupe_state_inv l seen uniq E).
Qed.

Lemma dedupe_loop_snoc l n :
  dedupe_loop (l ++ [n]) = if decide (n ∈ l) then dedupe_loop l else dedupe_loop l ++ [n].
Proof.
  unfold dedupe_loop. rewrite foldl_app. simpl.
  destruct (foldl dedupe_step (∅, []) l) as [seen uniq] eqn:E.
  destruct (dedupe_state_inv l seen uniq E) as (Hseen & Hin & _).
  unfold dedupe_step. case_bool_decide as Hn; case_decide as Hd; simpl; try done.
  - destruct Hd. by apply Hin, Hseen.
  - destruct Hn. by apply Hseen, Hin.
Qed.

(** [_existing_tags'] is the list of the names collected, without its
    duplicates, and the empty list when collecting them raises. *)
Lemma _existing_tags_cases w :
  ∃ w', same_fs w w' ∧ stdout w' = stdout w
        ∧ _existing_tags' w =
            (Ok (match collected_names with
                 | Ok names => dedupe_loop names
                 | Raise _ => []
                 end), w').
Proof.
  unfold _existing_tags', try_catch, lift.
  destruct collected_names as [names|e]; simpl.
  - exists w. split; [apply same_fs_refl | done].
  - exists {| files := files w; fs_faults := fs_faults w;
               log := log w ++ [LogTrace]; stdout := stdout w |}.
    by split.
Qed.

(** [_existing_tags'] never raises, whatever the reply to the query is:
    it returns a list without duplicates, the empty one when the query
    or the reading of its reply raises, and leaves the files and
    standard output alone. *)
Theorem existing_tags_returns_distinct_names (w : World) :
  ∃ names w',
    _existing_tags' w = (Ok names, w') ∧ NoDup names
    ∧ same_fs w w' ∧ stdout w' = stdout w
    ∧ (raises collected_names = true → names = []).
Proof.
  destruct (_existing_tags_cases w) as (w' & Hfs & Hout & ->).
  eexists _, w'. split_and!; [done | | done | done |].
  - destruct collected_names; [apply dedupe_loop_NoDup | constructor].
  - by destruct collected_names.
Qed.

Lemma names_loop_raises items acc :
  Exists (λ t, is_dict t = false) items → raises (names_loop items acc) = true.
Proof.
  intros H. revert acc. induction H as [t items Ht|t items _ IH]; intros acc; simpl.
  - by destruct t.
  - unfold mbind, result_bind. destruct (tag_names t); [apply IH | done].
Qed.

Lemma collected_names_reply items :
  graphql_findTags net = Ok (findTags_reply items) →
  collected_names = names_loop items [].
Proof.
  unfold collected_names. intros ->. simpl. by destruct items.
Qed.

(** One entry of the reply that is not an object costs the whole list:
    the loop raises on it, and [_existing_tags'] returns no name at
    all, also none of the well-formed entries before it. *)
Theorem existing_tags_all_or_nothing (items : list pyval) (w : World) :
  graphql_findTags net = Ok (findTags_reply items) →
  Exists (λ t, is_dict t = false) items →
  (_existing_tags' w).1 = Ok [].
Proof.
  intros Hreply Hbad.
  destruct (_existing_tags_cases w) as (w' & _ & _ & ->). simpl.
  rewrite (collected_names_reply _ Hreply).
  pose proof (names_loop_raises items [] Hbad).
  by destruct (names_loop items []).
Qed.

Lemma py_str_of_strs (l : list str) : map py_str (PStr <$> l) = l.
Proof. induction l as [|x l IH]; simpl; [done | by f_equal]. Qed.

Lemma elem_of_concat {A} (x : A) (ls : list (list A)) :
  x ∈ concat ls ↔ ∃ l, l ∈ ls ∧ x ∈ l.
Proof.
  rewrite list_elem_of_In, in_concat. setoid_rewrite list_elem_of_In. done.
Qed.

Lemma tag_names_object t : tag_names (tag_object t) = Ok (offered_names t).
Proof.
  unfold tag_names, offered_names, tag_object. destruct t as [name aliases ignored]. simpl.
  destruct ignored; [done|].
  assert (py_iter (py_or (PList (PStr <$> aliases)) (PList [])) = Ok (PStr <$> aliases)) as ->
    by by destruct aliases.
  simpl. rewrite py_str_of_strs. by case_bool_decide.
Qed.

Lemma names_loop_objects ts acc :
  names_loop (tag_object <$> ts) acc = Ok (acc ++ concat (offered_names <$> ts)).
Proof.
  revert acc. induction ts as [|t ts IH]; intros acc; simpl.
  - by rewrite app_nil_r.
  - rewrite tag_names_object. simpl. rewrite IH. by rewrite <- app_assoc.
Qed.

(** When the reply lists well-formed tags, the names returned are those
    of the tags not kept out of automatic tagging: the name of each, if
    it is not empty, and its aliases, in the order of the reply and each
    name once, at its first place. *)
Theorem existing_tags_are_the_offered_names (ts : list StashTag) (w : World) :
  graphql_findTags net = Ok (findTags_reply (tag_object <$> ts)) →
  ∃ names,
    (_existing_tags' w).1 = Ok names
    ∧ names = dedupe_loop (concat (offered_names <$> ts))
    ∧ NoDup names
    ∧ (∀ n, n ∈ names ↔ ∃ t, t ∈ ts ∧ n ∈ offered_names t)
    ∧ names `sublist_of` concat (offered_names <$> ts).
Proof.
  intros Hreply.
  destruct (_existing_tags_cases w) as (w' & _ & _ & ->). simpl.
  rewrite (collected_names_reply _ Hreply), names_loop_objects. simpl.
  eexists. split_and!; [done | done | apply dedupe_loop_NoDup | | apply dedupe_loop_sublist].
  intros n. rewrite dedupe_loop_elem_of, elem_of_concat. split.
  - intros (l & (t & -> & Ht)%list_elem_of_fmap & Hn). eauto.
  - intros (t & Ht & Hn). exists (offered_names t). split; [|done].
    apply list_elem_of_fmap. eauto.
Qed.

(** The filter of duplicates of [_existing_tags'] keeps the first of
    equal names: a name met before is dropped, a new one goes to the
    end.  Unlike the filter of [_parse_tags], it keeps the empty name. *)
Theorem existing_tags_dedupe_keeps_first (names : list str) (n : str) :
  dedupe_loop [] = []
  ∧ dedupe_loop (names ++ [n]) =
      (if decide (n ∈ names) then dedupe_loop names else dedupe_loop names ++ [n])
  ∧ ([] ∈ dedupe_loop names ↔ [] ∈ names)
  ∧ [] ∉ uniq_loop names.
Proof.
  split_and!; [done | apply dedupe_loop_snoc | apply dedupe_loop_elem_of |].
  rewrite uniq_loop_elem_of. by intros [_ ?].
Qed.

(** ** The bytes of the image *)

Lemma str_or_nonempty x default : default ≠ [] → str_or x default ≠ [].
Proof. intros H. by destruct x as [[|c r]|]. Qed.

(** What [_read_image_bytes'] returns, it has read in full: from a URL
    (a string that starts with "http://" or "https://", in lower case)
    only the body of a reply whose status is from 200 to 299, with the
    header [Content-Type] of that reply as the type; from any other
    string the file of that name, with the type guessed from the name.
    The type is never empty: a missing or empty one becomes
    "application/octet-stream" for a URL and "image/jpeg" for a file.
    A reply with another status raises a [RuntimeError] that names the
    URL and the status. *)
Theorem read_image_bytes_outcomes (path : pyval) :
  (∀ data mime,
     _read_image_bytes' path = Ok (data, mime) →
     mime ≠ []
     ∧ ∃ p, path = PStr p
         ∧ if startswith p (u "http://") || startswith p (u "https://")
           then ∃ status headers,
                  _http_get net p = Ok (status, headers, data)
                  ∧ (200 ≤ status < 300)%Z
                  ∧ mime = str_or (headers !! u "Content-Type") (u "application/octet-stream")
           else open_rb net p = Ok data
                ∧ mime = str_or (guess_type net p) (u "image/jpeg"))
  ∧ (∀ p status headers body,
       path = PStr p →
       startswith p (u "http://") || startswith p (u "https://") = true →
       _http_get net p = Ok (status, headers, body) →
       ¬ (200 ≤ status < 300)%Z →
       _read_image_bytes' path
       = Raise (Exn RuntimeError
                  (u "Failed to fetch image URL " ++ p ++ u ": HTTP " ++ str_of_int status))).
Proof.
  split.
  - intros data mime H. destruct path as [| | | |p| |]; try done.
    unfold _read_image_bytes', mbind, result_bind in H.
    destruct (startswith p (u "http://") || startswith p (u "https://")) eqn:Hurl.
    + destruct (_http_get net p) as [[[status headers] body]|e] eqn:Hget; [|done].
      destruct ((status <? 200)%Z || (300 <=? status)%Z) eqn:Hs; [done|].
      injection H as <- <-. split; [by apply str_or_nonempty|].
      exists p. split; [done|]. rewrite Hurl. exists status, headers.
      split; [done|]. split; [lia|done].
    + destruct (open_rb net p) as [data'|e] eqn:Hopen; [|done].
      injection H as <- <-. split; [by apply str_or_nonempty|].
      exists p. split; [done|]. by rewrite Hurl.
  - intros p status headers body -> Hurl Hget Hs.
    unfold _read_image_bytes', mbind, result_bind. rewrite Hurl, Hget.
    destruct ((status <? 200)%Z || (300 <=? status)%Z) eqn:E; [done|]. lia.
Qed.

(** ** The reply of the LLM *)

Lemma reply_content_cases data content :
  reply_content data = Ok content →
  ∃ d, (choices ← py_getitem data (u "choices");
        first ← py_getitem_0 choices;
        or_empty <$> py_getitem first (u "message")) = Ok (PDict d)
       ∧ let found := _message_content_to_str (from_option id PNone (dict_lookup d (u "content"))) in
         content = if bool_decide (found = []) then json_dumps true (PDict d) else found.
Proof.
  unfold reply_content, mbind, result_bind, fmap, result_fmap.
  destruct (py_getitem data _) as [choices|]; [|done].
  destruct (py_getitem_0 choices) as [first|]; [|done].
  destruct (py_getitem first _) as [message|]; [|done].
  destruct (or_empty message) as [| | | | | |d] eqn:E; try done.
  unfold py_get. intros H. exists d. split; [done|].
  simpl. destruct (bool_decide _); by injection H as <-.
Qed.

Lemma _call_llm_cases cfg b64 mime existing w :
  ∃ w', same_fs w w' ∧ stdout w' = stdout w
        ∧ _call_llm_b64_image' cfg b64 mime existing w = (llm_outcome cfg b64 mime existing, w').
Proof.
  unfold _call_llm_b64_image', llm_outcome.
  unfold mbind at 1, M_bind at 1.
  match goal with |- context [try_catch ?b ?h w] =>
    assert (∃ w1, try_catch b h w = (Ok (), w1) ∧ same_fs w w1 ∧ stdout w1 = stdout w)
      as (w1 & -> & Hfs & Hout)
  end.
  { unfold try_catch, mbind, M_bind, lift.
    destruct (Setting _ _) as [tracing|e]; [|by exists w].
    destruct (py_truthy tracing); [|by exists w]. by eexists. }
  exists w1. split_and!; [done..|].
  unfold mbind, M_bind, lift, try_except.
  destruct (_http_post_json _ _ _ _) as [data|e]; [|done].
  by destruct (reply_content data).
Qed.

Lemma json_dumps_dict_nonempty a d : json_dumps a (PDict d) ≠ [].
Proof. done. Qed.

Lemma reply_content_nonempty data content : reply_content data = Ok content → content ≠ [].
Proof.
  intros (d & _ & ->)%reply_content_cases. simpl.
  case_bool_decide; [apply json_dumps_dict_nonempty | done].
Qed.

(** The text that [_call_llm_b64_image'] returns is never empty.  When
    it returns, the request was answered with a reply whose first
    choice holds a message that is an object (or a falsy value, read as
    the empty object), and the text is that of the [content] of the
    message; where that content yields no text, the function returns
    the JSON text of the whole message instead, which starts with a
    brace. *)
Theorem call_llm_never_returns_empty_text
    (cfg : Config) (b64 mime : str) (existing : list str) (w : World) (content : str) :
  (_call_llm_b64_image' cfg b64 mime existing w).1 = Ok content →
  content ≠ []
  ∧ ∃ data message,
      _http_post_json net (llm_url cfg) (llm_payload cfg (llm_messages b64 mime existing))
        (llm_headers cfg) = Ok data
      ∧ reply_message data = Ok (PDict message)
      ∧ let found :=
          _message_content_to_str
            (from_option id PNone (dict_lookup message (u "content"))) in
        (found ≠ [] → content = found)
        ∧ (found = [] →
           content = json_dumps true (PDict message) ∧ head content = Some 123%N).
Proof.
  destruct (_call_llm_cases cfg b64 mime existing w) as (w' & _ & _ & ->). simpl.
  unfold llm_outcome. destruct (_http_post_json _ _ _ _) as [data|e] eqn:Hpost; [|done].
  destruct (reply_content data) as [c|e] eqn:E; [|done].
  intros [= <-]. split; [by eapply reply_content_nonempty|].
  apply reply_content_cases in E as (d & Hmsg & Hc).
  exists data, d. split; [done|]. split; [done|]. cbn zeta in *.
  case_bool_decide as Hfound; split; intros H; try done.
  by rewrite Hc.
Qed.

(** [_call_llm_b64_image'] sends one request, to the path
    [/chat/completions] under the base URL, with an [Authorization]
    header exactly when the API key is not empty.  An exception of the
    request is propagated as it is; every failure to find the text in
    the reply is reported as a [RuntimeError] that quotes the reply.
    The call changes neither the files nor standard output. *)
Theorem call_llm_outcomes
    (cfg : Config) (b64 mime : str) (existing : list str) (w : World) :
  ∃ payload w',
    same_fs w w' ∧ stdout w' = stdout w
    ∧ llm_headers cfg !! u "Authorization"
      = (if bool_decide (API_KEY cfg = []) then None else Some (u "Bearer " ++ API_KEY cfg))
    ∧ _call_llm_b64_image' cfg b64 mime existing w =
        (match _http_post_json net (BASE_URL cfg ++ u "/chat/completions")
                 payload (llm_headers cfg) with
         | Raise e => Raise e
         | Ok data =>
           match reply_content data with
           | Ok content => Ok content
           | Raise _ =>
             Raise (Exn RuntimeError (u "Unexpected LLM response: " ++ py_repr data))
           end
         end, w').
Proof.
  destruct (_call_llm_cases cfg b64 mime existing w) as (w' & Hfs & Hout & ->).
  eexists _, w'. split_and!; [done | done | | reflexivity].
  unfold llm_headers. destruct (API_KEY cfg); [done|]. simpl.
  apply lookup_singleton_eq.
Qed.

Lemma omap_text_parts parts texts :
  Forall2 text_part parts texts → omap content_part parts = texts.
Proof.
  induction 1 as [|part text parts texts Hpart _ IH]; [done|].
  cbn [omap list_omap]. rewrite IH.
  destruct Hpart as [->|(d & -> & Hd & Hne)]; [done|].
  unfold content_part. rewrite Hd. simpl. by destruct text.
Qed.

Lemma message_of_text_parts parts texts :
  Forall2 text_part parts texts → texts ≠ [] →
  _message_content_to_str (PList parts) = join [10%N] texts.
Proof.
  intros Hparts Hne. unfold _message_content_to_str.
  rewrite (omap_text_parts _ _ Hparts). by destruct texts.
Qed.

(** A message given as a list of parts is the texts of its parts, one
    per line: a part that is a string counts as it is, an object counts
    with its field [text].  A list with no part that holds a text is
    returned as its JSON text, like any value that is neither a string,
    a list nor [None]. *)
Theorem message_content_joins_text_parts (parts : list pyval) :
  (∀ texts, Forall2 text_part parts texts → texts ≠ [] →
            _message_content_to_str (PList parts) = join [10%N] texts)
  ∧ (Forall (λ part, content_part part = None) parts →
     _message_content_to_str (PList parts) = json_dumps true (PList parts)).
Proof.
  split; [apply message_of_text_parts|].
  intros Hnone. unfold _message_content_to_str.
  assert (omap content_part parts = []) as ->; [|done].
  induction Hnone as [|part parts Hpart _ IH]; [done|].
  cbn [omap list_omap]. by rewrite Hpart.
Qed.

Lemma reply_content_first_choice d first rest message content :
  dict_lookup d (u "choices") = Some (PList (PDict first :: rest)) →
  dict_lookup first (u "message") = Some (PDict message) →
  dict_lookup message (u "content") = Some content →
  reply_content (PDict d) =
    Ok (if bool_decide (_message_content_to_str content = [])
        then json_dumps true (PDict message)
        else _message_content_to_str content).
Proof.
  intros Hd Hfirst Hmsg.
  unfold reply_content, py_getitem. rewrite Hd. cbn [mbind result_bind py_getitem_0].
  rewrite Hfirst. cbn [mbind result_bind].
  assert (or_empty (PDict message) = PDict message) as -> by by destruct message.
  unfold py_get. rewrite Hmsg. simpl. by case_bool_decide.
Qed.

(** A reply whose first choice holds a message with a text returns that
    text: a content that is a string, not empty, as it is, and a
    content that is a list of parts as the texts of the parts, one per
    line. *)
Theorem call_llm_returns_the_text_of_the_first_choice
    (cfg : Config) (b64 mime : str) (existing : list str) (w : World) (data : pyval) :
  _http_post_json net (llm_url cfg) (llm_payload cfg (llm_messages b64 mime existing))
    (llm_headers cfg) = Ok data →
  (∀ s, first_choice_content data (PStr s) → s ≠ [] →
        (_call_llm_b64_image' cfg b64 mime existing w).1 = Ok s)
  ∧ (∀ parts texts,
       first_choice_content data (PList parts) →
       Forall2 text_part parts texts → join [10%N] texts ≠ [] →
       (_call_llm_b64_image' cfg b64 mime existing w).1 = Ok (join [10%N] texts)).
Proof.
  intros Hpost.
  destruct (_call_llm_cases cfg b64 mime existing w) as (w' & _ & _ & ->). simpl.
  unfold llm_outcome. rewrite Hpost. split.
  - intros s (d & first & rest & message & -> & Hd & Hfirst & Hmsg) Hne.
    rewrite (reply_content_first_choice _ _ _ _ _ Hd Hfirst Hmsg). simpl.
    by rewrite bool_decide_eq_false_2.
  - intros parts texts (d & first & rest & message & -> & Hd & Hfirst & Hmsg) Hparts Hne.
    rewrite (reply_content_first_choice _ _ _ _ _ Hd Hfirst Hmsg).
    rewrite (message_of_text_parts _ _ Hparts) by by intros ->.
    by rewrite bool_decide_eq_false_2.
Qed.

(** ** A list of tags through the encoder and the decoder *)

Lemma hex_value_digit d : (d < 16)%N → hex_value (hex_digit_char d) = Some d.
Proof.
  intros H.
  assert (d ∈ [0; 1; 2; 3; 4; 5; 6; 7; 8; 9; 10; 11; 12; 13; 14; 15]%N) as Hd.
  { rewrite !elem_of_cons. lia. }
  rewrite !elem_of_cons in Hd. destruct_or!; subst; try done. by apply elem_of_nil in Hd.
Qed.

Lemma hex4_hex_fixed c :
  (c < 65536)%N →
  ∃ h1 h2 h3 h4, hex_fixed 4 c = [h1; h2; h3; h4] ∧ hex4 h1 h2 h3 h4 = Some c.
Proof.
  intros H. eexists _, _, _, _. split; [reflexivity|].
  unfold hex4.
  do 4 (rewrite hex_value_digit by (by apply N.mod_lt); cbn [mbind option_bind]).
  f_equal. zify. Z.to_euclidean_division_equations. lia.
Qed.

(** The decoder reads an escaped character back. *)
Lemma scanstring_escape c rest acc :
  scanstring (json_escape false c ++ rest) acc = scanstring rest (acc ++ [c]).
Proof.
  unfold json_escape.
  repeat (case_match; [unbool; subst; reflexivity|]).
  destruct (c <? 32)%N eqn:Hc.
  - apply N.ltb_lt in Hc.
    destruct (hex4_hex_fixed c ltac:(lia)) as (h1 & h2 & h3 & h4 & -> & Hhex).
    cbn [app u Ascii.N_of_ascii scanstring]. simpl N.eqb. cbn iota. rewrite Hhex.
    assert (is_high_surrogate c = false) as ->
      by (apply andb_false_iff; left; apply N.leb_gt; lia).
    by destruct rest as [|? [|? [|? [|? [|? [|? ?]]]]]].
  - simpl. rewrite H, H0.
    assert ((c <=? 31)%N = false) as -> by (apply N.ltb_ge in Hc; apply N.leb_gt; lia). done.
Qed.

Lemma scanstring_json_string s rest acc :
  scanstring (concat (map (json_escape false) s) ++ 34%N :: rest) acc = Ok (acc ++ s, rest).
Proof.
  revert acc. induction s as [|c s IH]; intros acc; simpl.
  - by rewrite app_nil_r.
  - rewrite <- app_assoc, scanstring_escape, IH. by rewrite <- app_assoc.
Qed.

Lemma join_cons_cons sep (x y : str) ys :
  join sep (x :: y :: ys) = x ++ sep ++ join sep (y :: ys).
Proof. done. Qed.

Lemma scan_once_json_string fuel s rest :
  scan_once (S fuel) (json_string false s ++ rest) = Ok (PStr s, rest).
Proof.
  unfold json_string. cbn [app scan_once]. simpl N.eqb. cbn iota.
  rewrite <- app_assoc. cbn [app]. by rewrite scanstring_json_string.
Qed.

Lemma join_json_strings_head sep (y : str) ys :
  ∃ t, join sep (map (json_string false) (y :: ys)) = 34%N :: t.
Proof. destruct ys; by eexists. Qed.

(** The decoder reads the elements of an encoded list of strings back;
    a unit of fuel per element is enough. *)
Lemma parse_array_strings xs : ∀ x acc fuel rest,
  length xs + 2 ≤ fuel →
  parse_array fuel
    (join (u ", ") (map (json_string false) (x :: xs)) ++ 93%N :: rest) acc
  = Ok (PList (acc ++ (PStr <$> x :: xs)), rest).
Proof.
  induction xs as [|y ys IH]; intros x acc fuel rest Hfuel;
    (destruct fuel as [|[|fuel]]; [simpl in Hfuel; lia..|]).
  - cbn [map join parse_array]. rewrite scan_once_json_string. done.
  - cbn [map]. rewrite join_cons_cons, <- !app_assoc. cbn [parse_array].
    rewrite scan_once_json_string. cbn [mbind result_bind].
    change (json_string false y :: map (json_string false) ys)
      with (map (json_string false) (y :: ys)).
    specialize (IH y (acc ++ [PStr x]) (S fuel) rest ltac:(simpl in *; lia)).
    destruct (join_json_strings_head (u ", ") y ys) as (t & Ht).
    rewrite Ht in IH |- *.
    change (skip_ws (u ", " ++ (34%N :: t) ++ 93%N :: rest))
      with (44%N :: 32%N :: (34%N :: t) ++ 93%N :: rest).
    cbv beta iota. change (44 =? 93)%N with false. change (44 =? 44)%N with true.
    cbv iota.
    change (skip_ws (32%N :: (34%N :: t) ++ 93%N :: rest))
      with ((34%N :: t) ++ 93%N :: rest).
    etrans; [exact IH|]. by rewrite <- app_assoc.
Qed.

Lemma length_join_json_strings (l : list str) :
  length l ≤ length (join (u ", ") (map (json_string false) l)).
Proof.
  induction l as [|x [|y l] IH]; [done | simpl; lia |].
  cbn [map]. rewrite join_cons_cons. cbn [map] in IH.
  rewrite !length_app. unfold json_string at 1. simpl in *. lia.
Qed.

(** [json.loads] undoes [json.dumps(..., ensure_ascii=False)] on a list
    of strings. *)
Lemma json_loads_dumps_strings (l : list str) :
  json_loads (json_dumps false (PList (PStr <$> l))) = Ok (PList (PStr <$> l)).
Proof.
  destruct l as [|x xs]; [by vm_compute|].
  cbn [json_dumps].
  assert (map (json_dumps false) (PStr <$> x :: xs) = map (json_string false) (x :: xs)) as ->.
  { generalize (x :: xs). intros l. induction l; simpl; [done | by f_equal]. }
  destruct (join_json_strings_head (u ", ") x xs) as (t & Ht).
  pose proof (length_join_json_strings (x :: xs)) as Hlen.
  pose proof (parse_array_strings xs x [] (2 * length (34%N :: t ++ [93%N]) + 3) []) as Hp.
  rewrite Ht in Hlen, Hp |- *.
  unfold json_loads.
  change (u "[" ++ (34%N :: t) ++ u "]") with (91%N :: 34%N :: t ++ [93%N]).
  change (startswith (91%N :: 34%N :: t ++ [93%N]) [65279%N]) with false. cbv iota.
  change (skip_ws (91%N :: 34%N :: t ++ [93%N])) with (91%N :: 34%N :: t ++ [93%N]).
  unfold json_fuel.
  replace (2 * length (91%N :: 34%N :: t ++ [93%N]) + 2)
    with (S (2 * length (34%N :: t ++ [93%N]) + 3)) by (simpl; lia).
  cbn [scan_once]. change (91 =? 34)%N with false. change (91 =? 123)%N with false.
  change (91 =? 91)%N with true. cbv iota.
  change (skip_ws (34%N :: t ++ [93%N])) with (34%N :: t ++ [93%N]).
  cbv beta iota. change (34 =? 93)%N with false. cbv iota.
  change ((34%N :: t) ++ [93%N]) with (34%N :: t ++ [93%N]) in Hp.
  rewrite Hp; [done|]. simpl in *. rewrite length_app. simpl. lia.
Qed.

Lemma rfind_char_snoc c s : rfind_char c (s ++ [c]) = Some (length s).
Proof.
  induction s as [|d s IH]; simpl.
  - by rewrite N.eqb_refl.
  - by rewrite IH.
Qed.

Lemma strip_bracketed mid : strip (91%N :: mid ++ [93%N]) = 91%N :: mid ++ [93%N].
Proof.
  unfold strip, strip_by. cbn [lstrip_by]. change (isspace 91) with false. cbv iota.
  assert (reverse (91%N :: mid ++ [93%N]) = 93%N :: reverse mid ++ [91%N]) as Hr.
  { by rewrite reverse_cons, reverse_app. }
  unfold rstrip_by. rewrite Hr. cbn [lstrip_by]. change (isspace 93) with false. cbv iota.
  rewrite <- Hr. apply reverse_involutive.
Qed.

(** The tags offered to the LLM come back as they are cleaned: when
    the reply is the JSON array that [_call_llm_b64_image'] sends for
    the existing tags (with [ensure_ascii=False]), [_parse_tags] yields
    the cleaned tags of the list, without duplicates and in the order
    of the list, whatever characters the tags hold. *)
Theorem parse_tags_reads_back_the_offered_tags (b64 mime : str) (existing : list str) :
  (existing ≠ [] →
   text_message (json_dumps false (PList (PStr <$> existing)))
   ∈ llm_messages b64 mime existing)
  ∧ _parse_tags (json_dumps false (PList (PStr <$> existing)))
    = Ok (uniq_loop (cleaned_loop existing)).
Proof.
  split.
  { intros Hne. destruct existing; [done|]. unfold llm_messages.
    rewrite !elem_of_app, !elem_of_cons. auto. }
  destruct existing as [|x xs]; [by vm_compute|].
  pose proof (json_loads_dumps_strings (x :: xs)) as Hloads.
  remember (PStr <$> x :: xs) as vs eqn:Hvs.
  cbn [json_dumps] in *.
  set (mid := join (u ", ") (map (json_dumps false) vs)) in *.
  change (u "[" ++ mid ++ u "]") with (91%N :: mid ++ [93%N]) in *.
  unfold _parse_tags. rewrite strip_bracketed.
  assert (json_candidates (91%N :: mid ++ [93%N]) = Ok (x :: xs)) as ->.
  { unfold json_candidates. cbn [find_char]. change (91 =? 91)%N with true. cbv iota.
    change (91%N :: mid ++ [93%N]) with ((91%N :: mid) ++ [93%N]) at 1.
    rewrite rfind_char_snoc. cbn [length].
    assert (slice (91%N :: mid ++ [93%N]) 0 (S (length mid) + 1) = 91%N :: mid ++ [93%N]) as ->.
    { unfold slice. rewrite drop_0. apply take_ge. simpl. rewrite length_app. simpl. lia. }
    rewrite Hloads. subst vs. cbn [mbind result_bind try_except Nat.ltb Nat.leb].
    by rewrite py_str_of_strs. }
  done.
Qed.

(** ** Reasoning blocks that are not there *)

Lemma find_ci_None_cons pat c s :
  find_ci pat (c :: s) = None → match_ci pat (c :: s) = None ∧ find_ci pat s = None.
Proof.
  cbn [find_ci]. case_bool_decide as Hm; [done|]. intros H. split.
  - destruct (match_ci pat (c :: s)); [|done]. by destruct Hm.
  - by destruct (find_ci pat s).
Qed.

Lemma find_ci_None_suffix pat pre s :
  find_ci pat (pre ++ s) = None → find_ci pat s = None.
Proof.
  induction pre as [|c pre IH]; [done|]. simpl app.
  intros [_ H]%find_ci_None_cons. by apply IH.
Qed.

Lemma match_ci_suffix pat s rest : match_ci pat s = Some rest → ∃ pre, s = pre ++ rest.
Proof.
  revert s. induction pat as [|p pat IH]; intros s; simpl.
  - intros [= ->]. by exists [].
  - destruct s as [|c s]; [done|]. destruct (re_ignorecase_eq p c); [|done].
    intros (pre & ->)%IH. by exists (c :: pre).
Qed.

Lemma sub_think_sublist skip s : sub_think skip s `sublist_of` s.
Proof.
  revert skip. induction s as [|c s IH]; intros skip; [done|]. cbn [sub_think].
  destruct skip as [|k]; [|by apply sublist_cons].
  destruct (think_block_at (c :: s)); [by apply sublist_cons | by apply sublist_skip].
Qed.

(** [_strip_think_blocks] only removes: what it returns is the text
    with some of its characters left out.  It removes nothing from a
    text that holds no opening tag, and nothing from one that holds no
    closing tag: a reasoning block that is not closed stays in the
    reply. *)
Theorem strip_think_blocks_only_removes_closed_blocks (text : str) :
  _strip_think_blocks text `sublist_of` text
  ∧ (find_ci think_open text = None → _strip_think_blocks text = text)
  ∧ (find_ci think_close text = None → _strip_think_blocks text = text).
Proof.
  split_and!; [apply sub_think_sublist | |].
  - unfold _strip_think_blocks. induction text as [|c s IH]; [done|].
    intros [Hm Hs]%find_ci_None_cons. cbn [sub_think].
    unfold think_block_at. rewrite Hm. simpl. by rewrite IH.
  - unfold _strip_think_blocks. induction text as [|c s IH]; [done|].
    intros Hnone. pose proof Hnone as [_ Hs]%find_ci_None_cons. cbn [sub_think].
    assert (think_block_at (c :: s) = None) as ->; [|by rewrite IH].
    unfold think_block_at.
    destruct (match_ci think_open (c :: s)) as [rest|] eqn:Hm; [|done].
    apply match_ci_suffix in Hm as (pre & Hpre). rewrite Hpre in Hnone.
    apply find_ci_None_suffix in Hnone. simpl. by rewrite Hnone.
Qed.

(** ** The name of the result file *)

Lemma lstrip_by_none p s : Forall (λ c, p c = false) s → lstrip_by p s = s.
Proof. destruct 1 as [|c s Hc _]; simpl; [done | by rewrite Hc]. Qed.

Lemma strip_by_none p s : Forall (λ c, p c = false) s → strip_by p s = s.
Proof.
  intros H. unfold strip_by, rstrip_by. rewrite (lstrip_by_none _ _ H).
  rewrite lstrip_by_none by by apply Forall_reverse. apply reverse_involutive.
Qed.

Lemma safe_char_not_space c : is_safe_char c = true → isspace c = false.
Proof.
  intros H. destruct (isspace c) eqn:E; [exfalso|done].
  unfold is_safe_char, isspace, latin1_isspace, is_ascii_upper, is_ascii_lower,
    is_ascii_digit, in_range in *.
  destruct (c <? 256)%N eqn:Hc; unbool; lia.
Qed.

Lemma sub_unsafe_chars_id s : Forall (λ c, is_safe_char c = true) s → sub_unsafe_chars s = s.
Proof.
  induction 1 as [|c s Hc _ IH]; [done|]. unfold sub_unsafe_chars in *. simpl.
  by rewrite Hc, IH.
Qed.

Lemma safe_request_id_of_Some rid safe :
  safe_request_id_of rid = Some safe →
  safe ≠ [] ∧ Forall (λ c, is_safe_char c = true) safe.
Proof.
  unfold safe_request_id_of, nonblank_str. destruct rid as [| | | |s| |]; try done.
  case_bool_decide as Hs; [done|]. intros [= <-]. split; [|apply sub_unsafe_chars_safe].
  by destruct (strip s).
Qed.

(** Sanitizing is idempotent: a request id that [_write_result] has
    made safe is its own safe form, so a caller that sends the safe id
    again names the same file and finds the same id in the record. *)
Theorem safe_request_id_is_a_fixed_point (rid : pyval) (safe : str) :
  safe_request_id_of rid = Some safe →
  safe_request_id_of (PStr safe) = Some safe
  ∧ ∀ id, result_filename id (safe_request_id_of (PStr safe))
          = result_filename id (safe_request_id_of rid).
Proof.
  intros H. pose proof (safe_request_id_of_Some _ _ H) as [Hne Hsafe].
  assert (strip safe = safe) as Hstrip.
  { apply strip_by_none. eapply Forall_impl; [done|]. apply safe_char_not_space. }
  assert (safe_request_id_of (PStr safe) = Some safe) as Hfix.
  { unfold safe_request_id_of, nonblank_str. rewrite Hstrip.
    rewrite bool_decide_eq_false_2 by done.
    by rewrite Hstrip, sub_unsafe_chars_id. }
  split; [done|]. intros id. by rewrite Hfix, H.
Qed.

Lemma u_inj s t : u s = u t → s = t.
Proof.
  revert t. induction s as [|a s IH]; intros [|b t]; simpl; try done.
  intros [= Hab Hst]. f_equal; [|by apply IH].
  by rewrite <- (Ascii.ascii_N_embedding a), <- (Ascii.ascii_N_embedding b), Hab.
Qed.

Lemma str_of_int_inj z1 z2 : str_of_int z1 = str_of_int z2 → z1 = z2.
Proof.
  unfold str_of_int. intros H%u_inj. apply DecimalZ.to_int_inj.
  assert (∀ z, NilZero.int_of_string (NilZero.string_of_int (Z.to_int z)) = Some (Z.to_int z))
    as Hisi.
  { intros [|p|p]; [done|..]; apply NilZero.isi; try done;
      intros [= Hp]; by apply DecimalPos.Unsigned.to_uint_nonnil in Hp. }
  apply (f_equal NilZero.int_of_string) in H. rewrite !Hisi in H. by injection H.
Qed.

Lemma string_of_uint_chars d : Forall (λ c, is_int_char c = true) (u (NilEmpty.string_of_uint d)).
Proof. induction d; simpl; by constructor. Qed.

Lemma str_of_int_chars z : Forall (λ c, is_int_char c = true) (str_of_int z).
Proof.
  assert (∀ d, Forall (λ c, is_int_char c = true) (u (NilZero.string_of_uint d))) as Hu.
  { intros d. destruct d; try apply string_of_uint_chars. by repeat constructor. }
  unfold str_of_int. destruct (Z.to_int z); simpl; [apply Hu|].
  constructor; [done | apply Hu].
Qed.

(** A text splits in one way only into characters of a kind and a rest
    that starts with a character of another kind. *)
Lemma span_unique (p : char → bool) a1 a2 c1 c2 t1 t2 :
  Forall (λ c, p c = true) a1 → Forall (λ c, p c = true) a2 →
  p c1 = false → p c2 = false →
  a1 ++ c1 :: t1 = a2 ++ c2 :: t2 → a1 = a2 ∧ c1 :: t1 = c2 :: t2.
Proof.
  intros H1. revert a2. induction H1 as [|x a1 Hx _ IH]; intros a2 H2 Hc1 Hc2.
  - destruct H2 as [|y a2 Hy _]; [done|]. simpl. intros [= -> _]. congruence.
  - destruct H2 as [|y a2 Hy H2]; simpl.
    + intros [= -> _]. congruence.
    + intros [= -> Htl]. destruct (IH a2 H2 Hc1 Hc2 Htl) as [-> ?]. done.
Qed.

(** The file of a result tells the image and the request apart: two
    writes go to the same file name only if the image ids are equal and
    the safe request ids are equal, so results of distinct images, and
    of distinct requests about one image, never overwrite each other.
    Request ids that differ only in characters outside the safe class
    or in the white space around them share their safe form and their
    file. *)
Theorem result_filename_is_injective (id1 id2 : Z) (rid1 rid2 : pyval) :
  result_filename id1 (safe_request_id_of rid1)
  = result_filename id2 (safe_request_id_of rid2) →
  id1 = id2 ∧ safe_request_id_of rid1 = safe_request_id_of rid2.
Proof.
  unfold result_filename.
  set (suffix := λ o : option str, match o with Some (c :: r) => u "_" ++ c :: r | _ => [] end).
  change (str_of_int id1 ++ suffix (safe_request_id_of rid1) ++ u ".json"
          = str_of_int id2 ++ suffix (safe_request_id_of rid2) ++ u ".json" →
          id1 = id2 ∧ safe_request_id_of rid1 = safe_request_id_of rid2).
  assert (∀ o, ∃ c t, suffix o ++ u ".json" = c :: t ∧ is_int_char c = false) as Hhead.
  { intros [[|c r]|]; by eexists _, _. }
  destruct (Hhead (safe_request_id_of rid1)) as (c1 & t1 & E1 & Hc1).
  destruct (Hhead (safe_request_id_of rid2)) as (c2 & t2 & E2 & Hc2).
  rewrite E1, E2. intros H.
  apply (span_unique is_int_char) in H as [Hid Hrest];
    [|apply str_of_int_chars..|done|done].
  apply str_of_int_inj in Hid. split; [done|].
  rewrite <- E1, <- E2 in Hrest. apply app_inv_tail in Hrest.
  destruct (safe_request_id_of rid1) as [s1|] eqn:R1,
           (safe_request_id_of rid2) as [s2|] eqn:R2; try done.
  - apply safe_request_id_of_Some in R1 as [Hn1 _], R2 as [Hn2 _].
    destruct s1, s2; try done. simpl in Hrest. by injection Hrest as -> ->.
  - apply safe_request_id_of_Some in R1 as [Hn1 _]. by destruct s1.
  - apply safe_request_id_of_Some in R2 as [Hn2 _]. by destruct s2.
Qed.

(** ** Writing a result *)

(** The write is atomic for a reader of the result file: the record
    goes to a temporary file that is then renamed.  When [_plugin_dir]
    raises, so does the write, with the same exception, and no file
    changes.  When it returns a directory (and the temporary path
    differs from the final one), the write touches no path but these
    two; when the write returns, the final path holds the whole record
    and the temporary file is gone; when it raises, the final path
    holds what it held before. *)
Theorem write_result_is_atomic
    (id : Z) (tgs : list str) (err : option str) (rid : pyval)
    (w w' : World) (r : result unit) :
  _write_result id tgs err rid w = (r, w') →
  match _plugin_dir with
  | Raise e => r = Raise e ∧ files w' = files w
  | Ok dir =>
    let results_dir := os_path_join rt dir (u "results") in
    let name := result_filename id (safe_request_id_of rid) in
    let tmp_path := os_path_join rt results_dir (name ++ u ".tmp") in
    let final_path := os_path_join rt results_dir name in
    tmp_path ≠ final_path →
    (∀ path, path ≠ tmp_path → path ≠ final_path → files w' !! path = files w !! path)
    ∧ match r with
      | Ok _ =>
        files w' !! final_path
        = Some {| image_id := id; tags := tgs; error := err;
                  request_id := safe_request_id_of rid |}
        ∧ files w' !! tmp_path = None
      | Raise _ => files w' !! final_path = files w !! final_path
      end
  end.
Proof.
  unfold _write_result, mbind, M_bind, lift, fs_call.
  destruct _plugin_dir as [dir|e]; [|by intros [= <- <-]].
  intros Hrun Hne. revert Hrun.
  destruct (fs_faults w) as [|[?|] [|[?|] [|[?|] ?]]]; simpl;
    rewrite ?lookup_insert_eq; intros [= <- <-]; simpl;
    (split; [intros path Ht Hf|]);
    rewrite ?lookup_insert_eq, ?lookup_insert_ne, ?lookup_delete_eq, ?lookup_delete_ne,
      ?lookup_insert_ne by done; done.
Qed.

(** ** The task, step by step *)

Lemma _fetch_image_path_value id w :
  ∃ w', _fetch_image_path id w = (Ok (found_path id), w')
        ∧ same_fs w w' ∧ stdout w' = stdout w.
Proof.
  unfold found_path, _fetch_image_path.
  match goal with |- context [try_catch (lift ?r) _] => destruct r as [path|e] end.
  - exists w. by split_and!.
  - eexists. split_and!; [reflexivity | done | done].
Qed.

Lemma tags_from_image_value path w :
  ∃ w', tags_from_image path w = (Ok (suggested_tags path), w')
        ∧ same_fs w w' ∧ stdout w' = stdout w.
Proof.
  unfold tags_from_image, suggested_tags, normalize, try_catch, mbind, M_bind, lift,
    mret, M_ret, result_bind. simpl.
  destruct (_read_image_bytes env path) as [[data mime]|e]; simpl;
    [|eexists; split_and!; [reflexivity | done | done]].
  destruct (_call_llm_b64_image env data mime (_existing_tags env)) as [content|e]; simpl;
    [|eexists; split_and!; [reflexivity | done | done]].
  destruct (_parse_tags_total (_strip_think_blocks content)) as (? & _ & ->). simpl.
  eexists; split_and!; [reflexivity | done | done].
Qed.

Lemma tag_image_value id w :
  ∃ w', tag_image id w
        = (Ok (if py_truthy (found_path id) then Some (suggested_tags (found_path id))
               else None), w')
        ∧ same_fs w w' ∧ stdout w' = stdout w.
Proof.
  destruct (_fetch_image_path_value id w) as (w1 & Hfetch & Hfs1 & Hout1).
  unfold tag_image, mbind at 1, M_bind at 1. rewrite Hfetch.
  destruct (py_truthy (found_path id)); simpl.
  - destruct (tags_from_image_value (found_path id) w1) as (w2 & Htags & Hfs2 & Hout2).
    unfold mbind at 1, M_bind at 1. rewrite Htags.
    destruct Hfs1 as [??], Hfs2 as [??].
    case_bool_decide; simpl; eexists;
      (split_and!; [reflexivity | split; simpl; congruence | simpl; congruence]).
  - destruct Hfs1 as [??]. eexists. split_and!; [reflexivity | by split | done].
Qed.

Lemma suggested_tags_normal path :
  Forall tag_ok (suggested_tags path) ∧ NoDup (suggested_tags path).
Proof.
  unfold suggested_tags, normalize, mbind, result_bind.
  destruct (_read_image_bytes env path) as [[data mime]|e]; [|by split; constructor].
  destruct (_call_llm_b64_image env data mime _) as [content|e]; [|by split; constructor].
  destruct (_parse_tags_total (_strip_think_blocks content)) as (extracted & _ & ->).
  split; [|apply uniq_loop_NoDup].
  apply Forall_forall. intros t. apply uniq_cleaned_tag_ok.
Qed.

Lemma requested_image_Some id :
  requested_image = Some id →
  ∃ v d, input_arg (u "image_id") = Ok v ∧ is_none v = false ∧ py_int v = Ok id
         ∧ input_arg (u "request_id") = Ok requested_id ∧ JSON_INPUT env = PDict d.
Proof.
  unfold requested_image, requested_id.
  destruct (input_arg (u "image_id")) as [v|] eqn:Hv; [|done].
  destruct (is_none v) eqn:Hn; [done|].
  destruct (py_int v) as [id'|] eqn:Hid; [|done]. intros [= ->].
  destruct (input_arg_dict _ _ Hv Hn) as [d HJ].
  exists v, d. split_and!; try done.
  unfold input_arg in *. rewrite HJ in *.
  destruct (py_truthy (PDict d)); [|done].
  destruct (py_get (PDict d) (u "args") (PDict [])) as [args|]; [|done]. simpl in *.
  by destruct args.
Qed.

(** The run of the task up to its write: the arguments are read, the
    path is looked up and the tags are asked for, and the files are as
    they were. *)
Lemma tag_image_task_body id w :
  requested_image = Some id →
  ∃ w1, same_fs w w1 ∧ stdout w1 = stdout w
        ∧ tag_image_task w =
            try_catch
              (_write_result id (tags (task_record id requested_id))
                 (error (task_record id requested_id)) requested_id)
              (λ e,
                 _ ← stash_log LogError;
                 try_catch
                   (_write_result id [] (Some (exn_str e)) requested_id)
                   (λ _, mret ())) w1.
Proof.
  intros (v & d & Hv & Hn & Hid & Hrid & HJ)%requested_image_Some.
  destruct (tag_image_value id w) as (w1 & Htag & Hfs & Hout).
  exists w1. split_and!; [done..|].
  unfold tag_image_task, try_catch, mbind at 1, M_bind at 1, lift at 1. rewrite Hv.
  unfold mbind at 1, M_bind at 1, lift at 1. rewrite Hrid, Hn. cbn [negb].
  unfold mbind at 1, M_bind at 1, lift at 1. rewrite Hid.
  unfold mbind at 1, M_bind at 1. rewrite Htag.
  unfold task_record.
  destruct (py_truthy (found_path id)); cbn [tags error];
    (destruct (_write_result _ _ _ _ w1) as [[[]|e] w2]; [done|]).
  all: unfold mbind, M_bind, lift, stash_log; cbn beta iota; rewrite Hn; cbn [negb];
    cbn beta iota; by rewrite Hid.
Qed.

Lemma task_stores_record (id : Z) (w : World) :
  requested_image = Some id → no_fault 3 w →
  ∃ w' dir,
    tag_image_task w = (Ok (), w')
    ∧ _plugin_dir = Ok dir
    ∧ files w' !! os_path_join rt (os_path_join rt dir (u "results"))
                    (result_filename id (safe_request_id_of requested_id))
      = Some (task_record id requested_id)
    ∧ Forall tag_ok (tags (task_record id requested_id))
    ∧ NoDup (tags (task_record id requested_id))
    ∧ (error (task_record id requested_id) = None ↔ py_truthy (found_path id) = true).
Proof.
  intros Hreq Hnf.
  destruct (tag_image_task_body id w Hreq) as (w1 & Hfs & _ & ->).
  apply requested_image_Some in Hreq as (v & d & _ & _ & _ & _ & HJ).
  destruct (_plugin_dir_returns d HJ) as [dir Hdir].
  destruct (_write_result_returns dir id (tags (task_record id requested_id))
              (error (task_record id requested_id)) requested_id w1 Hdir
              (no_fault_same_fs _ _ _ Hfs Hnf)) as [w' Hw].
  exists w', dir. unfold try_catch. rewrite Hw. split_and!; [done | done | | | |].
  - destruct (_write_result_stores _ _ _ _ _ _ Hw) as (dir' & Hdir' & Hfile).
    rewrite Hdir in Hdir'. injection Hdir' as <-. rewrite Hfile.
    unfold task_record. by destruct (py_truthy _).
  - unfold task_record. destruct (py_truthy _); [apply suggested_tags_normal | constructor].
  - unfold task_record. destruct (py_truthy _); [apply suggested_tags_normal | constructor].
  - unfold task_record. by destruct (py_truthy _).
Qed.

(** What the task persists when the host names an image and the write
    meets no fault: with a path, the tags that [tags_from_image]
    returns, which are normalized, and no error; without a path, no tag
    and the error "No image path found.". *)
Theorem task_persists_the_record (id : Z) (w : World) :
  requested_image = Some id → no_fault 3 w →
  ∃ w' dir,
    tag_image_task w = (Ok (), w')
    ∧ _plugin_dir = Ok dir
    ∧ files w' !! os_path_join rt (os_path_join rt dir (u "results"))
                    (result_filename id (safe_request_id_of requested_id))
      = Some (task_record id requested_id)
    ∧ Forall tag_ok (tags (task_record id requested_id))
    ∧ NoDup (tags (task_record id requested_id))
    ∧ (error (task_record id requested_id) = None ↔ py_truthy (found_path id) = true).
Proof. apply task_stores_record. Qed.

Lemma input_arg_both a b v : input_arg a = Ok v → ∃ v', input_arg b = Ok v'.
Proof.
  unfold input_arg. destruct (py_truthy (JSON_INPUT env)); [|by eauto].
  destruct (py_get (JSON_INPUT env) (u "args") (PDict [])) as [args|]; [|done]. simpl.
  destruct args; try done. eauto.
Qed.

Lemma task_skips_without_image_id (w : World) :
  requested_image = None →
  ∃ w', tag_image_task w = (Ok (), w') ∧ same_fs w w' ∧ stdout w' = stdout w.
Proof.
  unfold requested_image. intros Hreq.
  unfold tag_image_task, try_catch, mbind at 1, M_bind at 1, lift at 1.
  destruct (input_arg (u "image_id")) as [v|e] eqn:Hv.
  - destruct (input_arg_both _ (u "request_id") _ Hv) as [rid Hrid].
    unfold mbind at 1, M_bind at 1, lift at 1. rewrite Hrid.
    destruct (is_none v) eqn:Hn.
    + eexists. split_and!; [reflexivity | done | done].
    + destruct (py_int v) as [id|e] eqn:Hid; [done|].
      unfold mbind, M_bind, lift, stash_log. cbn beta iota. rewrite Hn. cbn [negb].
      cbn beta iota. rewrite Hid.
      eexists. split_and!; [reflexivity | done | done].
  - unfold mbind, M_bind, lift, stash_log. cbn beta iota.
    eexists. split_and!; [reflexivity | done | done].
Qed.

(** Without an image id that can be read as an integer (no input, no
    argument [image_id], or one that [int] rejects) the task writes
    nothing: it returns, and the files, the faults to come and standard
    output are as they were. *)
Theorem task_without_image_id_writes_nothing (w : World) :
  requested_image = None →
  ∃ w', tag_image_task w = (Ok (), w') ∧ same_fs w w' ∧ stdout w' = stdout w.
Proof. apply task_skips_without_image_id. Qed.

(** A write changes no path but its temporary and its final one, and
    what it leaves under the final one is its own record. *)
Lemma _write_result_frame dir id tgs err rid w r w' path :
  _plugin_dir = Ok dir →
  _write_result id tgs err rid w = (r, w') →
  files w' !! path = files w !! path
  ∨ path = os_path_join rt (os_path_join rt dir (u "results"))
             (result_filename id (safe_request_id_of rid) ++ u ".tmp")
  ∨ (path = os_path_join rt (os_path_join rt dir (u "results"))
              (result_filename id (safe_request_id_of rid))
     ∧ files w' !! path
       = Some {| image_id := id; tags := tgs; error := err;
                 request_id := safe_request_id_of rid |}).
Proof.
  intros Hdir. unfold _write_result, mbind, M_bind, lift, fs_call. rewrite Hdir.
  set (tmp_path := os_path_join rt _ (_ ++ u ".tmp")).
  set (final_path := os_path_join rt _ (result_filename _ _)).
  destruct (decide (path = tmp_path)) as [->|Htmp]; [auto|].
  destruct (decide (path = final_path)) as [->|Hfinal].
  - destruct (fs_faults w) as [|[?|] [|[?|] [|[?|] ?]]]; simpl;
      rewrite ?lookup_insert_eq; intros [= <- <-]; simpl;
      rewrite ?lookup_insert_eq, ?lookup_insert_ne by done; auto.
  - destruct (fs_faults w) as [|[?|] [|[?|] [|[?|] ?]]]; simpl;
      rewrite ?lookup_insert_eq; intros [= <- <-]; simpl;
      rewrite ?lookup_insert_ne, ?lookup_delete_ne, ?lookup_insert_ne by done; auto.
Qed.

(** Whatever happens to the task, the only paths whose content it
    changes are the temporary and the final path of the result of the
    invocation; and where it has changed the final path, the file holds
    a whole record with normalized tags, each of them once, for the
    image and the request of the invocation.  (Of the content of the
    temporary file, which a failed write may leave behind, nothing is
    said.) *)
Theorem task_writes_only_normalized_records
    (w w' : World) (r : result unit) (path : str) :
  tag_image_task w = (r, w') →
  files w' !! path = files w !! path
  ∨ ∃ dir id,
      _plugin_dir = Ok dir ∧ requested_image = Some id
      ∧ (path = os_path_join rt (os_path_join rt dir (u "results"))
                  (result_filename id (safe_request_id_of requested_id) ++ u ".tmp")
         ∨ (path = os_path_join rt (os_path_join rt dir (u "results"))
                     (result_filename id (safe_request_id_of requested_id))
            ∧ ∃ doc, files w' !! path = Some doc
                     ∧ Forall tag_ok (tags doc) ∧ NoDup (tags doc)
                     ∧ image_id doc = id
                     ∧ request_id doc = safe_request_id_of requested_id)).
Proof.
  destruct requested_image as [id|] eqn:Hreq.
  - destruct (tag_image_task_body id w Hreq) as (w1 & [Hfs _] & _ & ->).
    destruct (requested_image_Some id Hreq) as (v & d & _ & _ & _ & _ & HJ).
    destruct (_plugin_dir_returns d HJ) as [dir Hdir].
    assert (Forall tag_ok (tags (task_record id requested_id))
            ∧ NoDup (tags (task_record id requested_id))) as [Hok Hnd].
    { unfold task_record. destruct (py_truthy _); cbn [tags];
        [apply suggested_tags_normal | split; constructor]. }
    unfold try_catch, mbind, M_bind, stash_log.
    destruct (_write_result _ _ _ _ w1) as [[[]|e] w2] eqn:Hw1.
    + intros [= <- <-]. rewrite <- Hfs.
      destruct (_write_result_frame dir _ _ _ _ _ _ _ path Hdir Hw1) as [?|[->|[-> Hdoc]]];
        [by left | right; exists dir, id; by auto |].
      right. exists dir, id. split_and!; [done..|]. right. split; [done|].
      eexists. split; [exact Hdoc|]. by split_and!.
    + match goal with |- context [_write_result ?i ?t ?x ?q ?w0] =>
        destruct (_write_result i t x q w0) as [[[]|e'] w3] eqn:Hw2 end;
        intros [= <- <-]; rewrite <- Hfs;
        (destruct (_write_result_frame dir _ _ _ _ _ _ _ path Hdir Hw2)
           as [Hsame|[->|[-> Hdoc]]];
         [ simpl in Hsame; rewrite Hsame;
           destruct (_write_result_frame dir _ _ _ _ _ _ _ path Hdir Hw1)
             as [?|[->|[-> Hdoc]]];
           [ by left
           | right; exists dir, id; by auto
           | right; exists dir, id; split_and!; [done..|]; right; split; [done|];
             eexists; split; [exact Hdoc|]; by split_and! ]
         | right; exists dir, id; by auto
         | right; exists dir, id; split_and!; [done..|]; right; split; [done|];
           eexists; split; [exact Hdoc|]; split_and!; [constructor | constructor | done..] ]).
  - destruct (task_skips_without_image_id w Hreq) as (w1 & -> & [Hfs _] & _).
    intros [= <- <-]. rewrite Hfs. by left.
Qed.

(** A fault in one of the three calls of a write makes the write raise
    the error of the file system, with the faults after it still to
    come. *)
Lemma _write_result_fault dir id tgs err rid w calls msg rest :
  _plugin_dir = Ok dir →
  fs_faults w = replicate calls None ++ Some msg :: rest → calls < 3 →
  ∃ w', _write_result id tgs err rid w = (Raise (Exn OSError msg), w')
        ∧ fs_faults w' = rest ∧ stdout w' = stdout w.
Proof.
  intros Hdir Hfaults Hcalls.
  unfold _write_result, mbind, M_bind, lift, fs_call. rewrite Hdir, Hfaults.
  destruct calls as [|[|[|?]]]; [..|lia]; simpl; eexists; by split_and!.
Qed.

(** A write that fails is tried again as a report of its failure: when
    one of the calls of the first write meets a fault and the three
    calls after it meet none, the record that ends up in the file
    names the error of the file system, and its tags are gone. *)
Theorem task_records_a_failed_write
    (id : Z) (w : World) (calls : nat) (msg : str) (rest : list (option str)) :
  requested_image = Some id →
  fs_faults w = replicate calls None ++ Some msg :: rest → calls < 3 →
  (∀ f, f ∈ take 3 rest → f = None) →
  ∃ w' dir,
    tag_image_task w = (Ok (), w')
    ∧ _plugin_dir = Ok dir
    ∧ files w' !! os_path_join rt (os_path_join rt dir (u "results"))
                    (result_filename id (safe_request_id_of requested_id))
      = Some {| image_id := id; tags := []; error := Some msg;
                request_id := safe_request_id_of requested_id |}.
Proof.
  intros Hreq Hfaults Hcalls Hrest.
  destruct (tag_image_task_body id w Hreq) as (w1 & [_ Hfs] & _ & ->).
  apply requested_image_Some in Hreq as (v & d & _ & _ & _ & _ & HJ).
  destruct (_plugin_dir_returns d HJ) as [dir Hdir].
  rewrite <- Hfs in Hfaults.
  destruct (_write_result_fault dir id (tags (task_record id requested_id))
              (error (task_record id requested_id)) requested_id w1 calls msg rest
              Hdir Hfaults Hcalls) as (w2 & Hw1 & Hf2 & _).
  unfold try_catch at 1. rewrite Hw1.
  unfold mbind, M_bind, stash_log. cbn beta iota.
  set (w3 := {| files := files w2; fs_faults := fs_faults w2;
                log := log w2 ++ [LogError]; stdout := stdout w2 |}).
  destruct (_write_result_returns dir id [] (Some msg) requested_id w3 Hdir) as [w' Hw2].
  { unfold no_fault. simpl. by rewrite Hf2. }
  exists w', dir. unfold try_catch. simpl exn_str. rewrite Hw2. split_and!; [done..|].
  destruct (_write_result_stores _ _ _ _ _ _ Hw2) as (dir' & Hdir' & Hfile).
  rewrite Hdir in Hdir'. by injection Hdir' as <-.
Qed.

(** ** The path of the image *)

Lemma dict_lookup_head k x d : dict_lookup ((k, x) :: d) k = Some x.
Proof. simpl. by rewrite bool_decide_eq_true_2. Qed.

Lemma or_empty_dict d : or_empty (PDict d) = PDict d.
Proof. by destruct d. Qed.

Ltac read_reply :=
  repeat first
    [ rewrite or_empty_dict
    | rewrite dict_lookup_head
    | match goal with H : dict_lookup _ _ = _ |- _ => rewrite H end
    | match goal with H : py_truthy _ = _ |- _ => rewrite H end
    | progress cbn -[dict_lookup u or_empty py_truthy] ].

(** [_fetch_image_path] asks for the image under the decimal form of
    its id.  It returns the [image] entry of [paths] when that entry is
    there and truthy, whatever [files] holds; failing that, the [path]
    of the first of [files]; and [None], after an error in the log,
    when the query raises. *)
Theorem fetch_image_path_prefers_the_image_url (i : Z) (img : list (str * pyval)) :
  (∀ ps path,
     graphql_findImage env (str_of_int i) = Ok (findImage_reply img) →
     dict_lookup img (u "paths") = Some (PDict ps) →
     dict_lookup ps (u "image") = Some path → py_truthy path = true →
     found_path i = path)
  ∧ (∀ first more,
       graphql_findImage env (str_of_int i) = Ok (findImage_reply img) →
       dict_lookup img (u "paths") = None →
       dict_lookup img (u "files") = Some (PList (PDict first :: more)) →
       found_path i = from_option id PNone (dict_lookup first (u "path")))
  ∧ (∀ w, raises (graphql_findImage env (str_of_int i)) = true →
          ∃ w', _fetch_image_path i w = (Ok PNone, w') ∧ log w' = log w ++ [LogError]).
Proof.
  split_and!.
  - intros ps path Hreply Hps Himage Htruthy.
    unfold found_path, _fetch_image_path, try_catch, lift, findImage_reply in *.
    rewrite Hreply. read_reply. reflexivity.
  - intros first more Hreply Hps Hfiles.
    unfold found_path, _fetch_image_path, try_catch, lift, findImage_reply in *.
    rewrite Hreply. read_reply. change (or_empty PNone) with (PDict []).
    cbn -[dict_lookup u or_empty]. by rewrite or_empty_dict.
  - intros w Hraise. unfold _fetch_image_path, try_catch, lift.
    destruct (graphql_findImage env (str_of_int i)); [done|]. by eexists.
Qed.

(** ** The base URL *)

Lemma lstrip_by_suffix p s : ∃ dropped, s = dropped ++ lstrip_by p s.
Proof.
  induction s as [|c s [dropped IH]]; simpl; [by exists []|].
  destruct (p c); [|by exists []]. exists (c :: dropped). simpl. by f_equal.
Qed.

Lemma rstrip_by_prefix p s : ∃ dropped, s = rstrip_by p s ++ dropped.
Proof.
  unfold rstrip_by. destruct (lstrip_by_suffix p (reverse s)) as [dropped H].
  exists (reverse dropped). apply (f_equal reverse) in H.
  by rewrite reverse_involutive, reverse_app in H.
Qed.

Lemma rstrip_by_last p s c : last (rstrip_by p s) = Some c → p c = false.
Proof.
  unfold rstrip_by. rewrite last_reverse.
  destruct (lstrip_by p (reverse s)) as [|d r] eqn:E; [done|].
  intros [= <-]. by eapply lstrip_by_head.
Qed.

Lemma rstrip_by_nil p s : rstrip_by p s = [] ↔ Forall (λ c, p c = true) s.
Proof.
  unfold rstrip_by. split.
  - intros H. apply (f_equal reverse) in H. rewrite reverse_involutive in H.
    change (reverse []) with (@nil N) in H. apply lstrip_by_nil in H.
    by rewrite Forall_reverse in H.
  - intros H. rewrite <- Forall_reverse in H. apply lstrip_by_nil in H. by rewrite H.
Qed.

Lemma strip_by_ends p s :
  (∀ c, head (strip_by p s) = Some c → p c = false)
  ∧ (∀ c, last (strip_by p s) = Some c → p c = false).
Proof.
  unfold strip_by. split; [|apply rstrip_by_last].
  intros c Hc. destruct (rstrip_by_prefix p (lstrip_by p s)) as [dropped H].
  destruct (rstrip_by p (lstrip_by p s)) as [|d r]; [done|].
  injection Hc as ->. simpl in H. by apply lstrip_by_head in H.
Qed.

Lemma strip_by_idemp p s : strip_by p (strip_by p s) = strip_by p s.
Proof.
  destruct (strip_by_ends p s) as [Hhead Hlast].
  set (t := strip_by p s) in *. unfold strip_by, rstrip_by.
  assert (lstrip_by p t = t) as ->.
  { destruct t as [|c r]; [done|]. simpl. by rewrite (Hhead c). }
  assert (lstrip_by p (reverse t) = reverse t) as ->; [|apply reverse_involutive].
  destruct (reverse t) as [|c r] eqn:E; [done|]. simpl. rewrite (Hlast c); [done|].
  by rewrite <- (reverse_involutive t), E, last_reverse.
Qed.

Lemma rstrip_slash_last s : last (rstrip_chars (u "/") s) ≠ Some 47%N.
Proof.
  intros Hl%rstrip_by_last. cbv beta in Hl. apply bool_decide_eq_false in Hl.
  apply Hl. change (u "/") with [47%N]. left.
Qed.

Lemma url_step_no_slash source otherwise :
  last otherwise ≠ Some 47%N → last (url_step source otherwise) ≠ Some 47%N.
Proof.
  intros H. rewrite url_step_value. destruct (url_value source); [|done].
  apply rstrip_slash_last.
Qed.

(** The base URL never ends with a slash, whichever source it comes
    from, so the path of the request is joined to it by one slash.  It
    can be empty: a first source that holds nothing but slashes, with
    white space around them or not, gives the empty base URL, not the
    default. *)
Theorem base_url_has_no_trailing_slash :
  last _resolve_base_url ≠ Some 47%N
  ∧ (∀ cfg, module_config = Ok cfg →
            last (BASE_URL cfg) ≠ Some 47%N
            ∧ llm_url cfg = _resolve_base_url ++ u "/chat/completions")
  ∧ (∀ k source v,
       url_sources !! k = Some source → url_value source = Some v →
       (∀ j earlier, j < k → url_sources !! j = Some earlier → url_value earlier = None) →
       Forall (λ c, c = 47%N) (strip v) →
       _resolve_base_url = []).
Proof.
  assert (last _resolve_base_url ≠ Some 47%N) as Hlast.
  { unfold _resolve_base_url. repeat apply url_step_no_slash. apply rstrip_slash_last. }
  split_and!; [done | |].
  - intros cfg Hcfg. unfold module_config, mbind, result_bind in Hcfg.
    repeat match type of Hcfg with
           | match ?r with _ => _ end = _ => destruct r; [|done]
           end.
    injection Hcfg as <-. by split.
  - intros k source v Hk Hv Hearlier Hslashes.
    rewrite _resolve_base_url_foldr, (foldr_url_step_first _ _ k source v) by done.
    apply rstrip_by_nil. eapply Forall_impl; [done|]. intros c ->.
    apply bool_decide_eq_true_2. change (u "/") with [47%N]. left.
Qed.

(** The URL that [_fetch_llm_base_url_from_settings] finds in the
    saved configuration is trimmed and not empty; the function returns
    [None] when the query raises.  The settings saved under the plugin
    id "llm_image_tag" come before those under "LLMImageTag", which are
    read when the former hold no URL. *)
Theorem fetched_base_url_is_trimmed :
  (∀ v, _fetch_llm_base_url_from_settings = Some v → strip v = v ∧ v ≠ [])
  ∧ (raises (graphql_configuration env) = true → _fetch_llm_base_url_from_settings = None)
  ∧ (∀ plugins settings v,
       graphql_configuration env = Ok (configuration_reply plugins) →
       dict_lookup plugins (u "llm_image_tag") = Some (PDict settings) →
       dict_lookup settings (u "llmBaseUrl") = Some (PStr v) → strip v ≠ [] →
       _fetch_llm_base_url_from_settings = Some (strip v))
  ∧ (∀ plugins settings v,
       graphql_configuration env = Ok (configuration_reply plugins) →
       dict_lookup plugins (u "llm_image_tag") = None →
       dict_lookup plugins (u "LLMImageTag") = Some (PDict settings) →
       dict_lookup settings (u "llmBaseUrl") = Some (PStr v) → strip v ≠ [] →
       _fetch_llm_base_url_from_settings = Some (strip v)).
Proof.
  assert (∀ x v, strip <$> nonblank_str x = Some v → strip v = v ∧ v ≠ []) as Hnb.
  { intros x v. unfold nonblank_str. destruct x as [| | | |s| |]; try done.
    case_bool_decide as Hs; [done|]. intros [= <-]. split; [apply strip_by_idemp | done]. }
  split_and!.
  - intros v. unfold _fetch_llm_base_url_from_settings, mbind, result_bind, fmap, result_fmap.
    destruct (graphql_configuration env) as [resp|]; [|done].
    destruct (negb (is_dict resp)); [done|].
    destruct (py_get resp _ _) as [data|]; [|done].
    destruct (py_get (or_empty data) _ _) as [configuration|]; [|done].
    destruct (py_get (or_empty configuration) _ _) as [plugins|]; [|done].
    destruct (negb (is_dict (or_empty plugins))); [done|].
    destruct (py_get (or_empty plugins) (u "llm_image_tag") PNone) as [s1|]; [|done].
    assert (∀ s : pyval, ∀ r : option str,
              match s with
              | PDict _ =>
                match py_get s (u "llmBaseUrl") PNone with
                | Ok a => Ok (strip <$> nonblank_str a)
                | Raise e => Raise e
                end
              | _ => Ok None
              end = Ok r → r = Some v → strip v = v ∧ v ≠ []) as Hone.
    { intros s r Hs ->. destruct s; try done.
      destruct (py_get _ _ _) as [a|]; [|done]. injection Hs as Hs. by eapply Hnb. }
    destruct (match s1 with PDict _ => _ | _ => _ end) as [[v1|]|] eqn:E1; [| |done].
    + intros [= <-]. by eapply Hone.
    + destruct (py_get (or_empty plugins) (u "LLMImageTag") PNone) as [s2|]; [|done].
      destruct (match s2 with PDict _ => _ | _ => _ end) as [r2|] eqn:E2; [|done].
      intros ->. by eapply Hone.
  - intros Hraise. unfold _fetch_llm_base_url_from_settings.
    by destruct (graphql_configuration env).
  - intros plugins settings v Hreply Hp Hs Hv.
    unfold _fetch_llm_base_url_from_settings, configuration_reply in *. rewrite Hreply.
    read_reply. unfold nonblank_str. by rewrite bool_decide_eq_false_2.
  - intros plugins settings v Hreply Hp1 Hp2 Hs Hv.
    unfold _fetch_llm_base_url_from_settings, configuration_reply in *. rewrite Hreply.
    read_reply. unfold nonblank_str. by rewrite bool_decide_eq_false_2.
Qed.

(** ** The process, once more *)


(** An invocation that names no task does nothing but answer: when
    neither [PLUGIN_TASK_NAME] nor the argument [mode] is
    "tag_image_task", the entry point writes no file, and prints
    [null]. *)
Theorem entry_point_without_task_writes_nothing (w : World) :
  py_eq_str (PLUGIN_TASK_NAME env) (u "tag_image_task") = false →
  (∀ mode, (args ← py_get (JSON_INPUT env) (u "args") (PDict []);
            py_get args (u "mode") PNone) = Ok mode →
           py_eq_str mode (u "tag_image_task") = false) →
  ∃ w', entry_point w = (Ok (), w') ∧ same_fs w w'
        ∧ stdout w' = stdout w ++ [u "null"].
Proof.
  intros Hname Hmode. unfold entry_point, try_catch, print, stash_log, mbind, M_bind, lift.
  rewrite Hname.
  destruct (Setting (u "zzdebugTracing") (PBool false)) as [tracing|e];
    [|eexists; split_and!; [reflexivity | done | done]].
  destruct (py_truthy (JSON_INPUT env)).
  - unfold mbind, result_bind in Hmode.
    destruct (py_get (JSON_INPUT env) (u "args") (PDict [])) as [args|e];
      [|destruct (py_truthy tracing); eexists; split_and!; done].
    destruct (py_truthy tracing); cbn -[u];
      (destruct (py_get args (u "mode") PNone) as [mode|e] eqn:E;
       [rewrite (Hmode mode eq_refl)|]; eexists; split_and!; done).
  - destruct (py_truthy tracing); eexists; split_and!; done.
Qed.

(** ** Defaults *)

(** With no setting saved and no variable set for the model, the
    temperature, the token limit and the timeout, the module-level
    constants are computed, and they are the defaults of the module; the
    API key is "none" when [LLM_API_KEY] is not set, and the prompt is
    the built-in one when [LLM_TAG_PROMPT] is not set. *)
Theorem module_config_defaults :
  (∀ name, name ∈ [u "llmModel"; u "llmTemp"; u "llmMaxTokens"; u "llmTimeout"] →
           stash_setting env name = Ok None) →
  (∀ name, name ∈ [u "LLM_MODEL"; u "LLM_TEMP"; u "LLM_MAX_TOKENS"; u "LLM_TIMEOUT"] →
           getenv env name = None) →
  module_config =
    Ok {| BASE_URL := _resolve_base_url;
          MODEL := u "gemma3:4b-it-q8_0";
          TEMP := float_of_literal rt (u "0.7");
          MAX_TOKENS := (-1)%Z;
          TIMEOUT := float_of_literal rt (u "3600.0");
          API_KEY := from_option id (u "none") (getenv env (u "LLM_API_KEY")) |}
  ∧ (getenv env (u "LLM_TAG_PROMPT") = None → PROMPT = PROMPT_DEFAULT).
Proof.
  intros Hset Hvar. split; [|by unfold PROMPT; intros ->].
  unfold module_config, _env_or_setting, Setting.
  rewrite !Hset by (by repeat constructor).
  rewrite (Hvar (u "LLM_MODEL")), (Hvar (u "LLM_TEMP")), (Hvar (u "LLM_MAX_TOKENS")),
    (Hvar (u "LLM_TIMEOUT")) by (by repeat constructor).
  reflexivity.
Qed.

(** ** The plugin directory *)

Lemma first_dir_nonempty sc keys dir : first_dir sc keys = Some dir → dir ≠ [].
Proof.
  induction keys as [|key keys IH]; [done|]. simpl.
  destruct (dict_lookup sc key) as [[| | | |[|c r]| |]|]; try done. by intros [= <-].
Qed.

Lemma dir_under_Some sc key dir :
  dir_under sc key = Some dir ↔ dict_lookup sc key = Some (PStr dir) ∧ dir ≠ [].
Proof.
  unfold dir_under. destruct (dict_lookup sc key) as [[| | | |[|c r]| |]|]; split;
    try done; try (by intros [[= <-] ?]); try (by intros [[=] ?]).
  by intros [= <-].
Qed.

(** From a connection record, [_plugin_dir] returns the first directory
    that the keys name, in their order. *)
Lemma first_dir_answers sc :
  _plugin_dir = Ok (from_option id (module_dir env)
                      (first_dir sc [u "plugin_dir"; u "PluginDir"; u "pluginDir"])) →
  answers_from sc.
Proof.
  intros H. unfold answers_from, dir_under. rewrite H. cbn [first_dir].
  destruct (dict_lookup sc (u "plugin_dir")) as [[| | | |[|c1 r1]| |]|];
    destruct (dict_lookup sc (u "PluginDir")) as [[| | | |[|c2 r2]| |]|];
    destruct (dict_lookup sc (u "pluginDir")) as [[| | | |[|c3 r3]| |]|];
    split_and!; intros; simplify_eq; done.
Qed.

(** [_plugin_dir] returns for every invocation with an input object,
    and never with an empty directory unless the directory of the
    module is empty.  The connection record is [server_connection] if
    that is truthy, else [serverConnection]; if it is an object, the
    keys count in the order [plugin_dir], [PluginDir], [pluginDir], a
    key naming a directory when its value is a string that is not
    empty, and a missing, empty or other value passing to the next key;
    with none of them, and with a connection record that is no object,
    the directory of the module is the answer. *)
Theorem plugin_dir_precedence (d : list (str * pyval)) :
  JSON_INPUT env = PDict d →
  (∃ dir, _plugin_dir = Ok dir ∧ (dir = module_dir env ∨ dir ≠ []))
  ∧ (∀ sc, dict_lookup d (u "server_connection") = Some (PDict sc) → sc ≠ [] →
           answers_from sc)
  ∧ (∀ sc, (∀ a, dict_lookup d (u "server_connection") = Some a → py_truthy a = false) →
           dict_lookup d (u "serverConnection") = Some (PDict sc) →
           answers_from sc)
  ∧ (∀ a, dict_lookup d (u "server_connection") = Some a → py_truthy a = true →
          is_dict a = false → _plugin_dir = Ok (module_dir env))
  ∧ (∀ sc key dir,
       dir_under sc key = Some dir ↔ dict_lookup sc key = Some (PStr dir) ∧ dir ≠ []).
Proof.
  intros HJ. split_and!.
  - unfold _plugin_dir. rewrite HJ. unfold py_get, mbind, result_bind.
    destruct (py_truthy _);
      match goal with |- context [from_option id (module_dir env) ?found] =>
        destruct found as [dir|] eqn:E end; eexists; (split; [reflexivity|]); simpl; auto;
      right; repeat case_match; simplify_eq; by eapply first_dir_nonempty.
  - intros sc Hsc Hne. apply first_dir_answers.
    unfold _plugin_dir. rewrite HJ. unfold py_get, mbind, result_bind.
    rewrite Hsc. assert (py_truthy (PDict sc) = true) as Ht by by destruct sc.
    cbn [from_option id]. by rewrite Ht.
  - intros sc Hfalsy Hsc. apply first_dir_answers.
    unfold _plugin_dir. rewrite HJ. unfold py_get, mbind, result_bind.
    assert (py_truthy (from_option id PNone (dict_lookup d (u "server_connection"))) = false)
      as ->.
    { destruct (dict_lookup d (u "server_connection")) as [a|] eqn:E; [|done].
      by apply Hfalsy. }
    rewrite Hsc. cbn [from_option id]. unfold py_or.
    destruct sc as [|kv sc]; reflexivity.
  - intros a Ha Ht Hd. unfold _plugin_dir. rewrite HJ. unfold py_get, mbind, result_bind.
    rewrite Ha. cbn [from_option id]. rewrite Ht. by destruct a.
  - apply dir_under_Some.
Qed.

(** ** The image in the request *)

Lemma list_ind3 {A} (P : list A → Prop) :
  P [] → (∀ a, P [a]) → (∀ a b, P [a; b]) →
  (∀ a b c l, P l → P (a :: b :: c :: l)) → ∀ l, P l.
Proof.
  intros H0 H1 H2 H3.
  assert (∀ n l, length l ≤ n → P l) as H; [|intros l; by apply (H (length l))].
  induction n as [|n IH]; intros [|a [|b [|c l]]] Hl; simpl in Hl; try done; try lia.
  apply H3, IH. lia.
Qed.

Lemma b64_char_alphabet i : is_b64_char (b64_char i) = true ∧ b64_char i ≠ 61%N.
Proof.
  split.
  - destruct (is_b64_char (b64_char i)) eqn:E; [done|exfalso].
    unfold is_b64_char, b64_char, is_ascii_upper, is_ascii_lower, is_ascii_digit,
      in_range in E.
    repeat case_match; unbool; lia.
  - unfold b64_char. repeat case_match; unbool; lia.
Qed.

Lemma b64_char_inj i j : (i < 64)%N → (j < 64)%N → b64_char i = b64_char j → i = j.
Proof. unfold b64_char. intros Hi Hj. repeat case_match; unbool; lia. Qed.

(** A number below [m * k] by its quotient and its remainder by [k]. *)
Lemma div_mod_parts (x k m : N) :
  (0 < k)%N → (x < m * k)%N →
  ∃ q r, (x `div` k = q ∧ x `mod` k = r ∧ x = q * k + r ∧ r < k ∧ q < m)%N.
Proof.
  intros Hk Hx. exists (x `div` k)%N, (x `mod` k)%N.
  pose proof (N.div_mod x k ltac:(lia)). pose proof (N.mod_lt x k ltac:(lia)).
  split_and!; [done | done | lia | done |].
  apply N.Div0.div_lt_upper_bound; lia.
Qed.

Lemma b64_group_inj (a b c a' b' c' : N) :
  (a < 256 → b < 256 → c < 256 → a' < 256 → b' < 256 → c' < 256 →
   a `div` 4 = a' `div` 4 →
   a `mod` 4 * 16 + b `div` 16 = a' `mod` 4 * 16 + b' `div` 16 →
   b `mod` 16 * 4 + c `div` 64 = b' `mod` 16 * 4 + c' `div` 64 →
   c `mod` 64 = c' `mod` 64 →
   a = a' ∧ b = b' ∧ c = c')%N.
Proof.
  intros Ha Hb Hc Ha' Hb' Hc'.
  destruct (div_mod_parts a 4 64) as (qa & ra & -> & -> & -> & ? & ?); [lia..|].
  destruct (div_mod_parts a' 4 64) as (qa' & ra' & -> & -> & -> & ? & ?); [lia..|].
  destruct (div_mod_parts b 16 16) as (qb & rb & -> & -> & -> & ? & ?); [lia..|].
  destruct (div_mod_parts b' 16 16) as (qb' & rb' & -> & -> & -> & ? & ?); [lia..|].
  destruct (div_mod_parts c 64 4) as (qc & rc & -> & -> & -> & ? & ?); [lia..|].
  destruct (div_mod_parts c' 64 4) as (qc' & rc' & -> & -> & -> & ? & ?); [lia..|].
  lia.
Qed.

Lemma b64_sextet_bounds (a b : N) :
  (a < 256 → b < 256 →
   a `div` 4 < 64 ∧ a `mod` 4 * 16 + b `div` 16 < 64 ∧ a `mod` 16 * 4 + b `div` 64 < 64
   ∧ a `mod` 4 * 16 < 64 ∧ a `mod` 16 * 4 < 64 ∧ a `mod` 64 < 64)%N.
Proof.
  intros Ha Hb.
  pose proof (N.mod_lt a 4 ltac:(done)). pose proof (N.mod_lt a 16 ltac:(done)).
  pose proof (N.mod_lt a 64 ltac:(done)).
  assert (a `div` 4 < 64)%N by (apply N.Div0.div_lt_upper_bound; lia).
  assert (b `div` 16 < 16)%N by (apply N.Div0.div_lt_upper_bound; lia).
  assert (b `div` 64 < 4)%N by (apply N.Div0.div_lt_upper_bound; lia).
  lia.
Qed.

(** The image goes into the request unharmed: the base64 text of the
    bytes has four characters for every three bytes or part of three,
    all of them ASCII characters of the base64 alphabet, and different
    images have different texts. *)
Theorem b64encode_is_faithful (data : list N) :
  length (b64encode data) = 4 * ((length data + 2) `div` 3)
  ∧ Forall (λ c, is_b64_char c = true) (b64encode data)
  ∧ (∀ data', is_bytes data → is_bytes data' →
              b64encode data = b64encode data' → data = data').
Proof.
  split_and!.
  - induction data as [| | |a b c l IH] using list_ind3; try done.
    cbn [b64encode length app]. rewrite IH.
    replace (S (S (S (length l))) + 2) with (length l + 2 + 1 * 3) by lia.
    rewrite Nat.div_add by done. lia.
  - induction data as [| | |a b c l IH] using list_ind3; cbn [b64encode app];
      repeat (constructor; [first [apply b64_char_alphabet | done]|]); done.
  - unfold is_bytes.
    induction data as [|a|a b|a b c l IH] using list_ind3;
      intros [|a' [|b' [|c' l']]] Hd Hd'; cbn [b64encode app]; intros H;
      repeat match goal with
             | H : Forall _ (_ :: _) |- _ => apply Forall_cons in H as [??]
             end;
      simplify_eq; try done;
      repeat match goal with
             | H : b64_char _ = 61%N |- _ => by apply b64_char_alphabet in H
             | H : 61%N = b64_char _ |- _ =>
               symmetry in H; by apply b64_char_alphabet in H
             end.
    + destruct (b64_sextet_bounds a 0) as (? & _ & _ & ? & _); [done..|].
      destruct (b64_sextet_bounds a' 0) as (? & _ & _ & ? & _); [done..|].
      repeat match goal with
             | H : b64_char _ = b64_char _ |- _ => apply b64_char_inj in H; [|done..]
             end.
      destruct (b64_group_inj a 0 0 a' 0 0) as (-> & _); try done.
      change (0 `div` 16)%N with 0%N. by rewrite !N.add_0_r.
    + destruct (b64_sextet_bounds a b) as (? & ? & _); [done..|].
      destruct (b64_sextet_bounds a' b') as (? & ? & _); [done..|].
      destruct (b64_sextet_bounds b 0) as (_ & _ & _ & _ & ? & _); [done..|].
      destruct (b64_sextet_bounds b' 0) as (_ & _ & _ & _ & ? & _); [done..|].
      repeat match goal with
             | H : b64_char _ = b64_char _ |- _ => apply b64_char_inj in H; [|done..]
             end.
      destruct (b64_group_inj a b 0 a' b' 0) as (-> & -> & _); try done.
      change (0 `div` 64)%N with 0%N. by rewrite !N.add_0_r.
    + destruct (b64_sextet_bounds a b) as (? & ? & _); [done..|].
      destruct (b64_sextet_bounds a' b') as (? & ? & _); [done..|].
      destruct (b64_sextet_bounds b c) as (_ & _ & ? & _); [done..|].
      destruct (b64_sextet_bounds b' c') as (_ & _ & ? & _); [done..|].
      destruct (b64_sextet_bounds c 0) as (_ & _ & _ & _ & _ & ?); [done..|].
      destruct (b64_sextet_bounds c' 0) as (_ & _ & _ & _ & _ & ?); [done..|].
      repeat match goal with
             | H : b64_char _ = b64_char _ |- _ => apply b64_char_inj in H; [|done..]
             end.
      destruct (b64_group_inj a b c a' b' c') as (-> & -> & ->); try done.
      do 3 f_equal. by apply IH.
Qed.

(** ** From the reply of the LLM to the file *)

Lemma llm_outcome_text cfg b64 mime existing data s :
  _http_post_json net (llm_url cfg) (llm_payload cfg (llm_messages b64 mime existing))
    (llm_headers cfg) = Ok data →
  first_choice_content data (PStr s) → s ≠ [] →
  llm_outcome cfg b64 mime existing = Ok s.
Proof.
  intros Hpost (d & first & rest & message & -> & Hd & Hfirst & Hmsg) Hne.
  unfold llm_outcome. rewrite Hpost.
  rewrite (reply_content_first_choice _ _ _ _ _ Hd Hfirst Hmsg). simpl.
  by rewrite bool_decide_eq_false_2.
Qed.

(** The whole way of a successful run: the host names an image whose
    path is a URL, the image is fetched with a status from 200 to 299,
    and the LLM, asked with the image in base64 and the existing tags,
    answers with a text.  Then the file of the result holds the
    normalized tags of that text, and no error. *)
Theorem task_stores_the_normalized_reply
    (cfg : Config) (i : Z) (url : str) (status : Z) (headers : gmap str str)
    (body : list N) (data : pyval) (reply : str) (w : World) :
  wired cfg →
  requested_image = Some i →
  found_path i = PStr url →
  startswith url (u "http://") || startswith url (u "https://") = true →
  _http_get net url = Ok (status, headers, body) → (200 ≤ status < 300)%Z →
  _http_post_json net (llm_url cfg)
    (llm_payload cfg
       (llm_messages (b64encode body)
          (str_or (headers !! u "Content-Type") (u "application/octet-stream"))
          (_existing_tags env)))
    (llm_headers cfg) = Ok data →
  first_choice_content data (PStr reply) → reply ≠ [] →
  no_fault 3 w →
  ∃ w' dir tgs,
    tag_image_task w = (Ok (), w')
    ∧ _plugin_dir = Ok dir
    ∧ normalize reply = Ok tgs
    ∧ files w' !! os_path_join rt (os_path_join rt dir (u "results"))
                    (result_filename i (safe_request_id_of requested_id))
      = Some {| image_id := i; tags := tgs; error := None;
                request_id := safe_request_id_of requested_id |}.
Proof.
  intros (_ & Hread & Hcall) Hreq Hpath Hurl Hget Hstatus Hpost Hdata Hne Hnf.
  destruct (task_stores_record i w Hreq Hnf) as (w' & dir & Htask & Hdir & Hfile & _).
  destruct (_parse_tags_total (_strip_think_blocks reply)) as (extracted & _ & Hnorm).
  eexists w', dir, _. split_and!; [done | done | exact Hnorm |].
  rewrite Hfile. unfold task_record. rewrite Hpath.
  assert (py_truthy (PStr url) = true) as ->.
  { destruct url; [|done]. by vm_compute in Hurl. }
  f_equal. unfold suggested_tags. rewrite Hread.
  unfold _read_image_bytes', mbind, result_bind. rewrite Hurl, Hget.
  assert ((status <? 200)%Z || (300 <=? status)%Z = false) as -> by lia.
  rewrite (Hcall _ _ _ empty_world).
  destruct (_call_llm_cases cfg (b64encode body)
              (str_or (headers !! u "Content-Type") (u "application/octet-stream"))
              (_existing_tags env) empty_world) as (w1 & _ & _ & ->).
  cbn [fst]. rewrite (llm_outcome_text _ _ _ _ _ _ Hpost Hdata Hne).
  unfold normalize in *. by rewrite Hnorm.
Qed.

(** ** A plain list as a reply *)

Lemma split_on_nonempty sep s : ∃ part parts, split_on sep s = part :: parts.
Proof.
  induction s as [|c s (part & parts & IH)]; simpl; [by eexists _, _|].
  destruct (c =? sep)%N; [by eexists _, _|]. rewrite IH. by eexists _, _.
Qed.

Lemma split_on_nosep sep s : sep ∉ s → split_on sep s = [s].
Proof.
  induction s as [|c s IH]; [done|]. intros Hs. apply not_elem_of_cons in Hs as [Hc Hs].
  simpl. rewrite (proj2 (N.eqb_neq c sep)) by done. by rewrite IH.
Qed.

Lemma split_on_app_sep sep x rest :
  sep ∉ x → split_on sep (x ++ sep :: rest) = x :: split_on sep rest.
Proof.
  induction x as [|c x IH]; simpl.
  - by rewrite N.eqb_refl.
  - intros Hs. apply not_elem_of_cons in Hs as [Hc Hs].
    rewrite (proj2 (N.eqb_neq c sep)) by done. by rewrite IH.
Qed.

(** The parts of two texts put together: the last part of the first
    and the first part of the second become one. *)
Lemma split_on_app sep s t :
  ∃ parts lastp part parts',
    split_on sep s = parts ++ [lastp] ∧ split_on sep t = part :: parts'
    ∧ split_on sep (s ++ t) = parts ++ [lastp ++ part] ++ parts'.
Proof.
  destruct (split_on_nonempty sep t) as (part & parts' & Ht).
  induction s as [|c s (parts & lastp & part0 & parts0 & Hs & Ht0 & Hst)]; simpl.
  - by exists [], [], part, parts'.
  - rewrite Ht in Ht0. injection Ht0 as <- <-. destruct (c =? sep)%N.
    + exists ([] :: parts), lastp, part, parts'. by rewrite Hs, Hst.
    + rewrite Hs, Hst. destruct parts as [|p parts]; simpl.
      * by exists [], (c :: lastp), part, parts'.
      * by exists ((c :: p) :: parts), lastp, part, parts'.
Qed.

Lemma split_on_parts sep s part : part ∈ split_on sep s → ∀ c, c ∈ part → c ∈ s.
Proof.
  revert part. induction s as [|c s IH]; simpl; intros part.
  - by intros ->%list_elem_of_singleton.
  - destruct (c =? sep)%N.
    + intros [->|H]%elem_of_cons d Hd; [by apply elem_of_nil in Hd|]. right. by eapply IH.
    + destruct (split_on_nonempty sep s) as (p & ps & Hs). rewrite Hs in *.
      intros [->|H]%elem_of_cons d Hd.
      * apply elem_of_cons in Hd as [->|Hd]; [by left|]. right. eapply IH; [by left | done].
      * right. eapply IH; [by right | done].
Qed.

Lemma lstrip_by_app_all p d s : Forall (λ c, p c = true) d → lstrip_by p (d ++ s) = lstrip_by p s.
Proof. induction 1 as [|c d Hc _ IH]; simpl; [done | by rewrite Hc]. Qed.

Lemma lstrip_by_app_some p s d :
  ¬ Forall (λ c, p c = true) s → lstrip_by p (s ++ d) = lstrip_by p s ++ d.
Proof.
  induction s as [|c s IH]; intros Hs; [by destruct Hs|]. simpl.
  destruct (p c) eqn:Hc; [|done]. apply IH. intros H. apply Hs. by constructor.
Qed.

Lemma rstrip_by_app_all p s d :
  Forall (λ c, p c = true) d → rstrip_by p (s ++ d) = rstrip_by p s.
Proof.
  intros Hd. unfold rstrip_by. rewrite reverse_app, lstrip_by_app_all; [done|].
  by apply Forall_reverse.
Qed.

Lemma strip_by_app_all p s d :
  Forall (λ c, p c = true) d → strip_by p (s ++ d) = strip_by p s.
Proof.
  intros Hd. destruct (decide (Forall (λ c, p c = true) s)) as [Hs|Hs].
  - rewrite (proj2 (strip_by_nil p s)) by done. apply strip_by_nil. by apply Forall_app.
  - unfold strip_by. rewrite lstrip_by_app_some by done. by apply rstrip_by_app_all.
Qed.

Lemma strip_by_all_app p d s :
  Forall (λ c, p c = true) d → strip_by p (d ++ s) = strip_by p s.
Proof. intros Hd. unfold strip_by. by rewrite lstrip_by_app_all. Qed.

Lemma lstrip_by_dropped p s : ∃ d, s = d ++ lstrip_by p s ∧ Forall (λ c, p c = true) d.
Proof.
  induction s as [|c s (d & IH & Hd)]; simpl; [by exists []|].
  destruct (p c) eqn:Hc; [|by exists []]. exists (c :: d). split; [simpl; by f_equal | by constructor].
Qed.

Lemma rstrip_by_dropped p s : ∃ d, s = rstrip_by p s ++ d ∧ Forall (λ c, p c = true) d.
Proof.
  unfold rstrip_by. destruct (lstrip_by_dropped p (reverse s)) as (d & H & Hd).
  exists (reverse d). split; [|by apply Forall_reverse].
  apply (f_equal reverse) in H. by rewrite reverse_involutive, reverse_app in H.
Qed.

(** A text is white space, its stripped form, and white space. *)
Lemma strip_dropped s :
  ∃ d1 d2, s = d1 ++ strip s ++ d2
           ∧ Forall (λ c, isspace c = true) d1 ∧ Forall (λ c, isspace c = true) d2.
Proof.
  destruct (lstrip_by_dropped isspace s) as (d1 & H1 & Hd1).
  destruct (rstrip_by_dropped isspace (lstrip_by isspace s)) as (d2 & H2 & Hd2).
  exists d1, d2. split_and!; [|done..]. etrans; [exact H1|]. f_equal. exact H2.
Qed.

(** The cleaned candidates of a list of parts. *)
Lemma cleaned_loop_app l1 l2 : cleaned_loop (l1 ++ l2) = cleaned_loop l1 ++ cleaned_loop l2.
Proof. by rewrite !cleaned_loop_spec, map_app, List.filter_app. Qed.

Lemma clean_candidate_strip t : clean_candidate (strip t) = clean_candidate t.
Proof. unfold clean_candidate, strip. by rewrite strip_by_idemp. Qed.

Lemma cleaned_loop_strip l : cleaned_loop (map strip l) = cleaned_loop l.
Proof.
  rewrite !cleaned_loop_spec, map_map. f_equal. apply map_ext. apply clean_candidate_strip.
Qed.

Lemma clean_candidate_blank t : Forall (λ c, isspace c = true) t → clean_candidate t = [].
Proof.
  intros H. unfold clean_candidate, strip. by rewrite (proj2 (strip_by_nil isspace t)).
Qed.

Lemma cleaned_loop_blank l :
  Forall (Forall (λ c, isspace c = true)) l → cleaned_loop l = [].
Proof.
  rewrite cleaned_loop_spec. induction 1 as [|t l Ht _ IH]; [done|]. simpl.
  by rewrite clean_candidate_blank.
Qed.

Lemma clean_candidate_pad d1 t d2 :
  Forall (λ c, isspace c = true) d1 → Forall (λ c, isspace c = true) d2 →
  clean_candidate (d1 ++ t ++ d2) = clean_candidate t.
Proof.
  intros H1 H2. unfold clean_candidate, strip.
  by rewrite strip_by_all_app, strip_by_app_all.
Qed.

Lemma split_on_blank sep d :
  Forall (λ c, isspace c = true) d → Forall (Forall (λ c, isspace c = true)) (split_on sep d).
Proof.
  intros Hd. apply Forall_forall. intros part Hpart. apply Forall_forall. intros c Hc.
  rewrite Forall_forall in Hd. apply Hd. by eapply split_on_parts.
Qed.

(** White space around a text does not change its cleaned parts. *)
Lemma cleaned_split_pad sep d1 s d2 :
  Forall (λ c, isspace c = true) d1 → Forall (λ c, isspace c = true) d2 →
  cleaned_loop (split_on sep (d1 ++ s ++ d2)) = cleaned_loop (split_on sep s).
Proof.
  intros H1 H2.
  destruct (split_on_app sep s d2) as (Q & lq & q' & qs' & Hs & Hd2 & Hsd).
  destruct (split_on_app sep d1 (s ++ d2)) as (P & lp & p' & ps' & Hd1 & Hsd' & ->).
  pose proof (split_on_blank sep d1 H1) as Hb1. rewrite Hd1 in Hb1.
  pose proof (split_on_blank sep d2 H2) as Hb2. rewrite Hd2 in Hb2.
  apply Forall_app in Hb1 as [HP [Hlp _]%Forall_cons].
  apply Forall_cons in Hb2 as [Hq' Hqs'].
  rewrite Hsd in Hsd'. rewrite Hs.
  assert (cleaned_loop [lp ++ p'] = cleaned_loop [p']) as Hfirst.
  { rewrite !cleaned_loop_spec. simpl.
    by rewrite <- (app_nil_r (lp ++ p')), <- app_assoc, clean_candidate_pad. }
  assert (cleaned_loop [lq ++ q'] = cleaned_loop [lq]) as Hlast.
  { rewrite !cleaned_loop_spec. simpl.
    by rewrite <- (clean_candidate_pad [] lq q') by done. }
  rewrite !cleaned_loop_app, (cleaned_loop_blank P) by done. simpl.
  destruct Q as [|q Q]; simpl in Hsd'; injection Hsd' as <- <-.
  - by rewrite Hfirst, Hlast, (cleaned_loop_blank qs'), app_nil_r.
  - rewrite Hfirst.
    change (Q ++ (lq ++ q') :: qs') with (Q ++ [lq ++ q'] ++ qs').
    change (q :: Q) with ([q] ++ Q).
    rewrite !cleaned_loop_app, Hlast, (cleaned_loop_blank qs') by done.
    by rewrite app_nil_r, app_assoc.
Qed.

Lemma cleaned_split_strip sep s :
  cleaned_loop (split_on sep (strip s)) = cleaned_loop (split_on sep s).
Proof.
  destruct (strip_dropped s) as (d1 & d2 & Hs & H1 & H2).
  rewrite Hs at 2. by rewrite cleaned_split_pad.
Qed.

Lemma elem_of_strip c s : c ∈ strip s → c ∈ s.
Proof.
  destruct (strip_dropped s) as (d1 & d2 & Hs & _). intros H. rewrite Hs.
  rewrite !elem_of_app. auto.
Qed.

Lemma elem_of_strip_2 c s : c ∈ s → isspace c = false → c ∈ strip s.
Proof.
  destruct (strip_dropped s) as (d1 & d2 & Hs & H1 & H2). rewrite Hs at 1.
  rewrite !elem_of_app, Forall_forall in *. intros [H|[H|H]] Hc; [|done|].
  - apply H1 in H. congruence.
  - apply H2 in H. congruence.
Qed.

Lemma find_char_None c s : c ∉ s → find_char c s = None.
Proof.
  induction s as [|d s IH]; [done|]. intros [Hd Hs]%not_elem_of_cons. simpl.
  rewrite (proj2 (N.eqb_neq d c)) by done. by rewrite IH.
Qed.

Lemma elem_of_join c sep l : c ∈ join sep l → c ∈ sep ∨ ∃ x, x ∈ l ∧ c ∈ x.
Proof.
  induction l as [|x [|y l] IH]; [by intros ?%elem_of_nil | |].
  - intros H. right. exists x. split; [by left | done].
  - rewrite join_cons_cons, !elem_of_app. intros [H|[H|H]]; [| by left |].
    + right. exists x. split; [by left | done].
    + destruct (IH H) as [?|(z & Hz & Hc)]; [by left|]. right. exists z. split; [by right | done].
Qed.

Lemma split_on_join sep pad x xs :
  sep ∉ pad → Forall (λ t, sep ∉ t) (x :: xs) →
  split_on sep (join (sep :: pad) (x :: xs)) = x :: map (app pad) xs.
Proof.
  intros Hpad. revert x. induction xs as [|y ys IH]; intros x [Hx Hxs]%Forall_cons.
  - simpl. by apply split_on_nosep.
  - rewrite join_cons_cons. change ((sep :: pad) ++ ?t) with (sep :: pad ++ t).
    rewrite split_on_app_sep by done.
    destruct (split_on_app sep pad (join (sep :: pad) (y :: ys)))
      as (P & lp & part & parts & Hp & Hj & ->).
    rewrite split_on_nosep in Hp by done. rewrite (IH y Hxs) in Hj.
    injection Hj as <- <-.
    destruct P as [|p P]; simpl in Hp; [by injection Hp as <-|].
    injection Hp as _ Hp. by destruct P.
Qed.

Lemma cleaned_loop_pad pad l :
  Forall (λ c, isspace c = true) pad → cleaned_loop (map (app pad) l) = cleaned_loop l.
Proof.
  intros Hpad. rewrite !cleaned_loop_spec, map_map. f_equal. apply map_ext. intros t.
  by rewrite <- (app_nil_r (pad ++ t)), <- app_assoc, clean_candidate_pad.
Qed.

Ltac not_among :=
  repeat (apply not_elem_of_cons; split; [done|]); apply not_elem_of_nil.

(** The tags of a text without a bracket: its parts at the commas, or
    at the newlines if there is no comma, cleaned and without
    duplicates. *)
Lemma _parse_tags_plain text :
  91%N ∉ text →
  _parse_tags text =
    Ok (uniq_loop (cleaned_loop
          (split_on (if bool_decide (44%N ∈ text) then 44%N else 10%N) text))).
Proof.
  intros Hb. destruct (_parse_tags_total text) as (extracted & Hj & ->).
  unfold json_candidates in Hj.
  rewrite find_char_None in Hj by (intros H; by apply Hb, elem_of_strip).
  injection Hj as <-. rewrite bool_decide_eq_true_2 by done.
  unfold split_candidates. rewrite cleaned_loop_strip.
  assert (bool_decide (44%N ∈ strip text) = bool_decide (44%N ∈ text)) as ->.
  { apply bool_decide_ext. split; [apply elem_of_strip|]. intros H. by apply elem_of_strip_2. }
  by rewrite cleaned_split_strip.
Qed.

(** A reply that lists the tags in plain text is read as the list:
    items separated by a comma and a blank, or one per line, give the
    cleaned items without duplicates, provided no item holds a comma, a
    newline or an opening bracket. *)
Theorem parse_tags_reads_a_plain_list (items : list str) :
  Forall (λ t, (44%N ∉ t) ∧ (91%N ∉ t) ∧ (10%N ∉ t)) items →
  _parse_tags (join (u ", ") items) = Ok (uniq_loop (cleaned_loop items))
  ∧ _parse_tags (join [10%N] items) = Ok (uniq_loop (cleaned_loop items)).
Proof.
  intros Hitems.
  assert (Forall (λ t : str, 44%N ∉ t) items ∧ Forall (λ t : str, 91%N ∉ t) items
          ∧ Forall (λ t : str, 10%N ∉ t) items) as (Hcomma & Hbracket & Hline).
  { split_and!; (eapply Forall_impl; [done|]); by intros t (? & ? & ?). }
  assert (∀ sep, 91%N ∉ sep → 91%N ∉ join sep items) as Hnb.
  { intros sep Hsep [H|(x & Hx & H)]%elem_of_join; [done|].
    rewrite Forall_forall in Hbracket. by eapply Hbracket. }
  destruct items as [|x xs].
  { split; vm_compute; reflexivity. }
  split.
  - change (u ", ") with [44%N; 32%N].
    rewrite _parse_tags_plain by (apply Hnb; not_among).
    destruct xs as [|y ys].
    + simpl. apply Forall_cons in Hcomma as [Hx _], Hline as [Hl _].
      rewrite bool_decide_eq_false_2 by done. by rewrite split_on_nosep.
    + rewrite bool_decide_eq_true_2.
      2:{ rewrite join_cons_cons, !elem_of_app. right. left. by left. }
      rewrite split_on_join; [|not_among | done].
      change (x :: map (app [32%N]) (y :: ys)) with ([x] ++ map (app [32%N]) (y :: ys)).
      rewrite cleaned_loop_app, cleaned_loop_pad, <- cleaned_loop_app; [done|].
      by repeat constructor.
  - rewrite _parse_tags_plain by (apply Hnb; not_among).
    rewrite bool_decide_eq_false_2.
    2:{ intros [H|(t & Ht & H)]%elem_of_join; [revert H; not_among|].
        rewrite Forall_forall in Hcomma. by eapply Hcomma. }
    rewrite split_on_join; [|apply not_elem_of_nil | done].
    f_equal. f_equal. f_equal. simpl. f_equal. apply map_id.
Qed.

End python.

(** * The claims at concrete inputs

    The statements below are closed: they evaluate the model on the
    sample invocations, with the POSIX Latin-1 runtime where a runtime
    is needed. *)

(** C1, as stated, fails: the image path is found, the fetch of the
    image raises, nothing is propagated, and the record that is
    persisted has a null error field. *)
Lemma C1_fetch_failure_persisted_without_error :
  (_fetch_image_path env_fetch_fails 7 empty_world).1 = Ok (PStr (u "http://stash/image/7"))
  ∧ raises (_read_image_bytes env_fetch_fails (PStr (u "http://stash/image/7"))) = true
  ∧ (tag_image_task latin1_runtime env_fetch_fails empty_world).1 = Ok ()
  ∧ files (tag_image_task latin1_runtime env_fetch_fails empty_world).2
      !! u "/plugins/llm_image_tag/results/7.json"
    = Some {| image_id := 7; tags := []; error := None; request_id := None |}.
Proof. split_and!; by vm_compute. Qed.

Lemma C1_witness :
  raises ('(data, mime) ← _read_image_bytes env_fetch_fails (PStr (u "http://stash/image/7"));
          _call_llm_b64_image env_fetch_fails data mime (_existing_tags env_fetch_fails)) = true
  ∧ no_fault 3 empty_world
  ∧ ∃ w' dir logged,
      tag_image_task latin1_runtime env_fetch_fails empty_world = (Ok (), w')
      ∧ log w' = log empty_world ++ logged ∧ LogError ∈ logged
      ∧ _plugin_dir env_fetch_fails = Ok dir
      ∧ files w' !! os_path_join latin1_runtime
                      (os_path_join latin1_runtime dir (u "results"))
                      (result_filename 7 (safe_request_id_of latin1_runtime PNone))
        = Some {| image_id := 7; tags := []; error := None;
                  request_id := safe_request_id_of latin1_runtime PNone |}.
Proof.
  assert (no_fault 3 empty_world) as Hnf by (intros f H; by apply elem_of_nil in H).
  split; [reflexivity|]. split; [exact Hnf|].
  destruct (proj2 (C1_failure_after_path_gives_empty_tags_and_no_error
                     latin1_runtime env_fetch_fails)
                  empty_world (PInt 7) 7%Z PNone (PStr (u "http://stash/image/7"))
                  eq_refl eq_refl eq_refl eq_refl eq_refl eq_refl)
    as (w' & dir & logged & Hrun & Hlog & Herr & Hdir & Hfile).
  exists w', dir, logged. split_and!; [exact Hrun | exact Hlog | exact Herr | exact Hdir|].
  exact (Hfile Hnf).
Defined.

(** C2, as stated, fails: the tags are not ["beach", "sunset",
    "ocean"]. *)
Lemma C2_reply_keeps_its_preamble :
  normalize latin1_runtime (u "Sure! Here are some tags: beach, sunset, #ocean ")
  ≠ Ok [u "beach"; u "sunset"; u "ocean"].
Proof. intros H. vm_compute in H. discriminate H. Qed.

(** C3, as stated, fails: "../../x" does not give ".._.._x", its dots
    are replaced too; and the blank that starts " x" is removed, not
    replaced. *)
Lemma C3_dots_replaced_and_blanks_trimmed :
  safe_request_id_of latin1_runtime (PStr (u "../../x")) = Some (u "______x")
  ∧ safe_request_id_of latin1_runtime (PStr (u "../../x")) ≠ Some (u ".._.._x")
  ∧ safe_request_id_of latin1_runtime (PStr (u " x")) = Some (u "x")
  ∧ sub_unsafe_chars (u " x") = u "_x".
Proof.
  split_and!; by vm_compute.
Qed.

Lemma C3_witness :
  safe_request_id_of latin1_runtime (PStr (u " a/b ")) = Some (u "a_b")
  ∧ length (u "a_b") = length (strip latin1_runtime (u " a/b "))
  ∧ (∀ i c, strip latin1_runtime (u " a/b ") !! i = Some c →
            u "a_b" !! i = Some (if is_safe_char c then c else 95%N))
  ∧ Forall (λ c, is_safe_char c = true) (u "a_b")
  ∧ (47%N ∉ u "a_b") ∧ (92%N ∉ u "a_b").
Proof.
  split; [reflexivity|].
  exact (proj2 (proj2 (C3_request_id_trimmed_then_sanitized latin1_runtime))
               (u " a/b ") (u "a_b") eq_refl).
Defined.

(** C4, as stated, fails: a setting of white space only hides the
    environment variable, and the default is taken; a model name comes
    out with the blanks around it; a base URL can end in a blank. *)
Lemma C4_blank_setting_hides_variable_and_values_stay_untrimmed :
  _env_or_setting latin1_runtime
    (env_with [(u "llmModel", PStr (u "  "))] [(u "LLM_MODEL", u "llava")])
    (u "llmModel") (u "LLM_MODEL") DEFAULT_MODEL
  = Ok DEFAULT_MODEL
  ∧ MODEL <$> module_config latin1_runtime (env_with [] [(u "LLM_MODEL", u " llava ")])
    = Ok (u " llava ")
  ∧ _resolve_base_url latin1_runtime (env_with [(u "llmBaseUrl", PStr (u "http://x /"))] [])
    = u "http://x ".
Proof. split_and!; by vm_compute. Qed.

Lemma C4_witness :
  let env := env_with [(u "llmModel", PStr (u "  "))]
                      [(u "LLM_BASE_URL", u " http://gpu:8080/v1/ ")] in
  _resolve_base_url latin1_runtime env = u "http://gpu:8080/v1"
  ∧ _env_or_setting latin1_runtime env (u "llmModel") (u "LLM_MODEL") DEFAULT_MODEL
    = Ok DEFAULT_MODEL.
Proof.
  intros env.
  pose proof (C4_blank_sources_and_trimming latin1_runtime env) as (Hurl & _ & Hscalar).
  split.
  - apply (Hurl 4 (Ok (PStr (u " http://gpu:8080/v1/ "))) (u " http://gpu:8080/v1/ "));
      [reflexivity | reflexivity |].
    intros j earlier Hj Hl.
    do 4 (destruct j as [|j]; [by injection Hl as <- |]). lia.
  - destruct (Hscalar (u "llmModel") (u "LLM_MODEL") DEFAULT_MODEL (PStr (u "  ")) eq_refl)
      as (_ & _ & Hblank & _).
    apply (Hblank (u "  ") eq_refl).
Defined.

(** C5: with the environment variable [LLM_TEMP] set to "hot", or with
    the setting [llmTemp] saved as "hot", the conversion to a float
    raises while the module computes its constants, outside every
    [try]: the process ends with status 1, and the world, standard
    output included, is as it was: [null] is not printed. *)
Theorem C5_malformed_temperature_ends_the_process_without_null
    (rt : PyRuntime) (w : World) :
  run_plugin rt (env_with [] [(u "LLM_TEMP", u "hot")]) w = (1%Z, w)
  ∧ run_plugin rt (env_with [(u "llmTemp", PStr (u "hot"))] []) w = (1%Z, w).
Proof. split; by vm_compute. Qed.

(** C6, as stated, fails: the letter U+00E9 is alphanumeric for
    [str.isalnum], so it is a tag, written out or as the escape
    [\u00e9] in a JSON array, and this tag does not match the
    expression. *)
Lemma C6_accented_letter_is_a_tag :
  _parse_tags latin1_runtime [233%N] = Ok [[233%N]]
  ∧ _parse_tags latin1_runtime (q "['\u00e9']") = Ok [[233%N]]
  ∧ matches_tag_regex [233%N] = false.
Proof. split_and!; by vm_compute. Qed.

Lemma C7_witness :
  json_extraction_fails latin1_runtime (u "[?]")
  ∧ Forall (λ t, length_ok (clean_candidate latin1_runtime t) = false)
           (split_candidates latin1_runtime (strip latin1_runtime (u "[?]")))
  ∧ _parse_tags latin1_runtime (u "[?]") = Ok []
  ∧ json_extraction_fails latin1_runtime (u "[oops]")
  ∧ ∃ tags, _parse_tags latin1_runtime (u "[oops]") = Ok tags
            ∧ tags = uniq_loop (cleaned_loop latin1_runtime
                       (split_candidates latin1_runtime (strip latin1_runtime (u "[oops]")))).
Proof.
  pose proof (C7_normalization_is_total latin1_runtime) as (_ & _ & Hsplit & Hempty).
  assert (json_extraction_fails latin1_runtime (u "[?]")) as H1.
  { exists 0, 2. repeat split. apply Nat.lt_0_succ. }
  assert (json_extraction_fails latin1_runtime (u "[oops]")) as H2.
  { exists 0, 5. repeat split. apply Nat.lt_0_succ. }
  assert (Forall (λ t, length_ok (clean_candidate latin1_runtime t) = false)
                 (split_candidates latin1_runtime (strip latin1_runtime (u "[?]")))) as H3.
  { repeat constructor. }
  split_and!; [exact H1 | exact H3 | exact (Hempty _ H1 H3) | exact H2 | exact (Hsplit _ H2)].
Defined.

Lemma C9_witness :
  let reply := q "<THINK>[x]" ++ [10%N] ++ q "</Think>['indoor']" in
  let env := env_replying reply in
  let path := PStr (u "http://stash/image/7") in
  _read_image_bytes env path = Ok ([255; 216; 255]%N, u "image/jpeg")
  ∧ _call_llm_b64_image env [255; 216; 255]%N (u "image/jpeg") (_existing_tags env) = Ok reply
  ∧ (tags_from_image latin1_runtime env path empty_world).1
    = _parse_tags latin1_runtime (_strip_think_blocks reply)
  ∧ (tags_from_image latin1_runtime env path empty_world).1 = Ok [u "indoor"]
  ∧ _parse_tags latin1_runtime reply ≠ Ok [u "indoor"]
  ∧ is_tag think_open (u "<THINK>") ∧ is_tag think_close (u "</Think>")
  ∧ _strip_think_blocks reply = _strip_think_blocks (q "['indoor']")
  ∧ _strip_think_blocks (q "['indoor']") = 91%N :: _strip_think_blocks (q "'indoor']").
Proof.
  intros reply env path.
  pose proof (C9_think_blocks_removed_before_extraction latin1_runtime env)
    as (Htags & _ & [Hstripped Hraw] & Hblock & Hkeep & _).
  destruct (Htags path [255; 216; 255]%N (u "image/jpeg") reply empty_world eq_refl eq_refl)
    as [Hrun _].
  split_and!; [reflexivity | reflexivity | exact Hrun | | | reflexivity | reflexivity | |].
  - etrans; [exact Hrun | exact Hstripped].
  - fold reply in Hraw. rewrite Hraw. by intros [= ?].
  - apply (Hblock (u "<THINK>") (q "[x]" ++ [10%N]) (u "</Think>") (q "['indoor']"));
      reflexivity.
  - apply (Hkeep 91%N (q "'indoor']")). reflexivity.
Defined.

(** C10, as stated, fails: the request id 123 is neither [None] nor of
    white space only, and the record of the write holds no request id
    and lies in [7.json]. *)
Lemma C10_numeric_request_id_is_dropped :
  let run := _write_result latin1_runtime sample_env 7 [u "cat"] None (PInt 123) empty_world in
  run.1 = Ok ()
  ∧ files run.2 !! u "/plugins/llm_image_tag/results/7.json"
    = Some {| image_id := 7; tags := [u "cat"]; error := None; request_id := None |}
  ∧ files run.2 !! u "/plugins/llm_image_tag/results/7_123.json" = None.
Proof. split_and!; by vm_compute. Qed.

Lemma C10_witness :
  let rid := PStr (u " ../../x ") in
  let w' := (_write_result latin1_runtime sample_env 5 [u "a"; u "b"] None rid empty_world).2 in
  _write_result latin1_runtime sample_env 5 [u "a"; u "b"] None rid empty_world = (Ok (), w')
  ∧ ¬ no_request_id latin1_runtime rid
  ∧ files w' !! u "/plugins/llm_image_tag/results/5_______x.json"
    = Some {| image_id := 5; tags := [u "a"; u "b"]; error := None;
              request_id := Some (u "______x") |}
  ∧ ∃ dir s safe,
      _plugin_dir sample_env = Ok dir
      ∧ rid = PStr s
      ∧ files w' !! os_path_join latin1_runtime
                      (os_path_join latin1_runtime dir (u "results"))
                      (str_of_int 5 ++ u "_" ++ safe ++ u ".json")
        = Some {| image_id := 5; tags := [u "a"; u "b"]; error := None;
                  request_id := Some safe |}
      ∧ safe ≠ []
      ∧ length safe = length (strip latin1_runtime s)
      ∧ (∀ i c, strip latin1_runtime s !! i = Some c →
                safe !! i = Some (if is_safe_char c then c else 95%N))
      ∧ Forall (λ c, (65 ≤ c ≤ 90 ∨ 97 ≤ c ≤ 122 ∨ 48 ≤ c ≤ 57 ∨ c = 95 ∨ c = 45)%N) safe.
Proof.
  intros rid w'.
  assert (¬ no_request_id latin1_runtime rid) as Hsome.
  { intros H. apply Forall_cons in H as [_ H]. apply Forall_cons in H as [H _].
    discriminate H. }
  split; [reflexivity|]. split; [exact Hsome|]. split; [reflexivity|].
  destruct (C10_stored_request_id_is_the_sanitized_one latin1_runtime sample_env
              5%Z [u "a"; u "b"] None rid empty_world w' eq_refl)
    as (dir & Hdir & _ & Hstored).
  destruct (Hstored Hsome) as (s & safe & Hs & Hfile & Hne & Hlen & Hchars & Hclass).
  exists dir, s, safe. by split_and!.
Defined.

(** * The further properties at concrete inputs *)

(** The invocation wired to the functions of the module takes their
    outcomes as given. *)
Lemma wired_env_is_wired (rt : PyRuntime) (env : Env) (net : Net) (cfg : Config) :
  wired rt (wired_env rt env net cfg) net cfg.
Proof.
  split_and!.
  - intros w. simpl.
    destruct (_existing_tags_cases rt net w) as (w1 & _ & _ & ->).
    by destruct (_existing_tags_cases rt net empty_world) as (w2 & _ & _ & ->).
  - done.
  - intros data mime existing w. simpl.
    destruct (_call_llm_cases rt env net cfg (b64encode data) mime existing empty_world)
      as (w1 & _ & _ & ->).
    change (_call_llm_b64_image' rt (wired_env rt env net cfg) net cfg)
      with (_call_llm_b64_image' rt env net cfg).
    by destruct (_call_llm_cases rt env net cfg (b64encode data) mime existing w)
      as (w2 & _ & _ & ->).
Qed.

Lemma existing_tags_returns_distinct_names_witness :
  ∃ names w',
    _existing_tags' latin1_runtime sample_net empty_world = (Ok names, w') ∧ NoDup names
    ∧ same_fs empty_world w' ∧ stdout w' = stdout empty_world
    ∧ (raises (collected_names latin1_runtime sample_net) = true → names = []).
Proof. exact (existing_tags_returns_distinct_names latin1_runtime sample_net empty_world). Defined.

Lemma existing_tags_all_or_nothing_witness :
  let items := sample_tags ++ [PStr (u "oops")] in
  let net := net_with items 200 (Ok PNone) in
  graphql_findTags net = Ok (findTags_reply items)
  ∧ Exists (λ t, is_dict t = false) items
  ∧ (_existing_tags' latin1_runtime net empty_world).1 = Ok [].
Proof.
  intros items net.
  assert (Exists (λ t, is_dict t = false) items) as Hbad.
  { do 3 apply Exists_cons_tl. by apply Exists_cons_hd. }
  split_and!; [reflexivity | exact Hbad |].
  apply (existing_tags_all_or_nothing latin1_runtime net items empty_world);
    [reflexivity | exact Hbad].
Defined.

Lemma existing_tags_are_the_offered_names_witness :
  let ts := [ {| tag_name := u "cat"; tag_aliases := [u "kitten"]; tag_ignored := false |};
              {| tag_name := u "secret"; tag_aliases := []; tag_ignored := true |};
              {| tag_name := u "dog"; tag_aliases := [u "cat"]; tag_ignored := false |} ] in
  graphql_findTags sample_net = Ok (findTags_reply (tag_object <$> ts))
  ∧ dedupe_loop (concat (offered_names <$> ts)) = [u "cat"; u "kitten"; u "dog"]
  ∧ ∃ names,
      (_existing_tags' latin1_runtime sample_net empty_world).1 = Ok names
      ∧ names = dedupe_loop (concat (offered_names <$> ts))
      ∧ NoDup names
      ∧ (∀ n, n ∈ names ↔ ∃ t, t ∈ ts ∧ n ∈ offered_names t)
      ∧ names `sublist_of` concat (offered_names <$> ts).
Proof.
  intros ts. split_and!; [reflexivity | by vm_compute |].
  apply (existing_tags_are_the_offered_names latin1_runtime sample_net ts empty_world).
  reflexivity.
Defined.

Lemma read_image_bytes_outcomes_witness :
  let url := u "http://stash/image/7" in
  let gone := net_with [] 404 (Ok PNone) in
  _read_image_bytes' sample_net (PStr url) = Ok ([137; 80; 78; 71]%N, u "image/png")
  ∧ (u "image/png" ≠ []
     ∧ ∃ p, PStr url = PStr p
         ∧ if startswith p (u "http://") || startswith p (u "https://")
           then ∃ status headers,
                  _http_get sample_net p = Ok (status, headers, [137; 80; 78; 71]%N)
                  ∧ (200 ≤ status < 300)%Z
                  ∧ u "image/png"
                    = str_or (headers !! u "Content-Type") (u "application/octet-stream")
           else open_rb sample_net p = Ok [137; 80; 78; 71]%N
                ∧ u "image/png" = str_or (guess_type sample_net p) (u "image/jpeg"))
  ∧ startswith url (u "http://") || startswith url (u "https://") = true
  ∧ _http_get gone url = Ok (404%Z, {[ u "Content-Type" := u "image/png" ]}, [137; 80; 78; 71]%N)
  ∧ ¬ (200 ≤ 404 < 300)%Z
  ∧ _read_image_bytes' gone (PStr url)
    = Raise (Exn RuntimeError (u "Failed to fetch image URL http://stash/image/7: HTTP 404")).
Proof.
  intros url gone. split; [reflexivity|]. split.
  { apply (proj1 (read_image_bytes_outcomes sample_net (PStr url))). reflexivity. }
  split; [reflexivity|]. split; [reflexivity|]. split; [lia|].
  - apply (proj2 (read_image_bytes_outcomes gone (PStr url))
             url 404%Z {[ u "Content-Type" := u "image/png" ]} [137; 80; 78; 71]%N);
      [reflexivity | reflexivity | reflexivity | lia].
Defined.

Lemma call_llm_never_returns_empty_text_witness :
  let silent_reply := net_with [] 200 (Ok (reply_with (PStr []))) in
  let run := _call_llm_b64_image' latin1_runtime sample_env silent_reply sample_config
               (u "iVBORw==") (u "image/png") [] empty_world in
  let text := q "{'role': 'assistant', 'content': ''}" in
  run.1 = Ok text
  ∧ text ≠ []
  ∧ ∃ data message,
      reply_message latin1_runtime data = Ok (PDict message)
      ∧ _message_content_to_str latin1_runtime
          (from_option id PNone (dict_lookup message (u "content"))) = []
      ∧ text = json_dumps true (PDict message)
      ∧ head text = Some 123%N.
Proof.
  intros silent_reply run text.
  assert (run.1 = Ok text) as Hrun by by vm_compute.
  destruct (call_llm_never_returns_empty_text latin1_runtime sample_env silent_reply
              sample_config (u "iVBORw==") (u "image/png") [] empty_world text Hrun)
    as (Hne & data & message & Hpost & Hmsg & Hfound & Hempty).
  split; [exact Hrun|]. split; [exact Hne|].
  exists data, message.
  injection Hpost as <-. injection Hmsg as <-.
  split; [reflexivity|]. split; [reflexivity|]. exact (Hempty eq_refl).
Defined.

Lemma call_llm_outcomes_witness :
  ∃ payload w',
    same_fs empty_world w' ∧ stdout w' = stdout empty_world
    ∧ llm_headers sample_config !! u "Authorization"
      = (if bool_decide (API_KEY sample_config = []) then None
         else Some (u "Bearer " ++ API_KEY sample_config))
    ∧ _call_llm_b64_image' latin1_runtime sample_env sample_net sample_config
        (u "iVBORw==") (u "image/png") [u "cat"] empty_world =
        (match _http_post_json sample_net (BASE_URL sample_config ++ u "/chat/completions")
                 payload (llm_headers sample_config) with
         | Raise e => Raise e
         | Ok data =>
           match reply_content latin1_runtime data with
           | Ok content => Ok content
           | Raise _ =>
             Raise (Exn RuntimeError
                      (u "Unexpected LLM response: " ++ py_repr latin1_runtime data))
           end
         end, w').
Proof.
  exact (call_llm_outcomes latin1_runtime sample_env sample_net sample_config
           (u "iVBORw==") (u "image/png") [u "cat"] empty_world).
Defined.

Lemma message_content_joins_text_parts_witness :
  let parts := [PStr (u "a cat");
                PDict [(u "type", PStr (u "text")); (u "text", PStr (u "on a mat"))]] in
  Forall2 text_part parts [u "a cat"; u "on a mat"]
  ∧ _message_content_to_str latin1_runtime (PList parts)
    = u "a cat" ++ [10%N] ++ u "on a mat"
  ∧ Forall (λ part, content_part latin1_runtime part = None) [PInt 1; PDict []]
  ∧ _message_content_to_str latin1_runtime (PList [PInt 1; PDict []]) = u "[1, {}]".
Proof.
  intros parts.
  assert (Forall2 text_part parts [u "a cat"; u "on a mat"]) as Hparts.
  { constructor; [by left|]. constructor; [|constructor].
    right. eexists. by split_and!. }
  assert (Forall (λ part, content_part latin1_runtime part = None) [PInt 1; PDict []])
    as Hnone by by repeat constructor.
  split_and!; [exact Hparts | | exact Hnone |].
  - apply (proj1 (message_content_joins_text_parts latin1_runtime parts)
             [u "a cat"; u "on a mat"] Hparts). done.
  - apply (proj2 (message_content_joins_text_parts latin1_runtime [PInt 1; PDict []]) Hnone).
Defined.

Lemma call_llm_returns_the_text_of_the_first_choice_witness :
  let data := reply_with (PStr (q "['cat', 'outdoor', 'CAT']")) in
  _http_post_json sample_net (llm_url sample_config)
    (llm_payload sample_config
       (llm_messages sample_env (u "iVBORw==") (u "image/png") [u "cat"]))
    (llm_headers sample_config) = Ok data
  ∧ first_choice_content data (PStr (q "['cat', 'outdoor', 'CAT']"))
  ∧ (_call_llm_b64_image' latin1_runtime sample_env sample_net sample_config
       (u "iVBORw==") (u "image/png") [u "cat"] empty_world).1
    = Ok (q "['cat', 'outdoor', 'CAT']").
Proof.
  intros data.
  assert (first_choice_content data (PStr (q "['cat', 'outdoor', 'CAT']"))) as Hdata.
  { eexists _, _, _, _. by split_and!. }
  split_and!; [reflexivity | exact Hdata |].
  apply (proj1 (call_llm_returns_the_text_of_the_first_choice latin1_runtime sample_env
                  sample_net sample_config (u "iVBORw==") (u "image/png") [u "cat"]
                  empty_world data eq_refl)); [exact Hdata | done].
Defined.

Lemma parse_tags_reads_back_the_offered_tags_witness :
  let existing := [u "Cat"; q "a 'b'"; u "cat"; [233%N]] in
  existing ≠ []
  ∧ text_message (json_dumps false (PList (PStr <$> existing)))
    ∈ llm_messages sample_env (u "iVBORw==") (u "image/png") existing
  ∧ _parse_tags latin1_runtime (json_dumps false (PList (PStr <$> existing)))
    = Ok [u "cat"; u "a b"; [233%N]].
Proof.
  intros existing.
  pose proof (parse_tags_reads_back_the_offered_tags latin1_runtime sample_env
                (u "iVBORw==") (u "image/png") existing) as [Hsent Hread].
  split_and!; [done | by apply Hsent | exact Hread].
Defined.

Lemma strip_think_blocks_only_removes_closed_blocks_witness :
  let text := u "<think>the cat sat" in
  find_ci think_close text = None
  ∧ _strip_think_blocks text = text
  ∧ find_ci think_open (u "cat </think>") = None
  ∧ _strip_think_blocks (u "cat </think>") = u "cat </think>".
Proof.
  intros text. split_and!; [reflexivity | | reflexivity |].
  - apply (proj2 (proj2 (strip_think_blocks_only_removes_closed_blocks text))). reflexivity.
  - apply (proj1 (proj2 (strip_think_blocks_only_removes_closed_blocks (u "cat </think>")))).
    reflexivity.
Defined.

Lemma safe_request_id_is_a_fixed_point_witness :
  safe_request_id_of latin1_runtime (PStr (u " a/b ")) = Some (u "a_b")
  ∧ safe_request_id_of latin1_runtime (PStr (u "a_b")) = Some (u "a_b")
  ∧ ∀ id, result_filename id (safe_request_id_of latin1_runtime (PStr (u "a_b")))
          = result_filename id (safe_request_id_of latin1_runtime (PStr (u " a/b "))).
Proof.
  split; [reflexivity|].
  apply (safe_request_id_is_a_fixed_point latin1_runtime (PStr (u " a/b ")) (u "a_b")).
  reflexivity.
Defined.

Lemma result_filename_is_injective_witness :
  result_filename 7 (safe_request_id_of latin1_runtime (PStr (u "a/b")))
  = result_filename 7 (safe_request_id_of latin1_runtime (PStr (u " a_b ")))
  ∧ 7%Z = 7%Z
  ∧ safe_request_id_of latin1_runtime (PStr (u "a/b"))
    = safe_request_id_of latin1_runtime (PStr (u " a_b ")).
Proof.
  split; [reflexivity|].
  apply (result_filename_is_injective latin1_runtime 7 7 (PStr (u "a/b")) (PStr (u " a_b "))).
  reflexivity.
Defined.

Lemma write_result_is_atomic_witness :
  let old := {| image_id := 7; tags := [u "old"]; error := None; request_id := None |} in
  let w := {| files := {[ u "/plugins/llm_image_tag/results/7.json" := old ]};
              fs_faults := [None; None; Some (u "disk full")];
              log := []; stdout := [] |} in
  let run := _write_result latin1_runtime sample_env 7 [u "new"] None PNone w in
  _plugin_dir sample_env = Ok (u "/plugins/llm_image_tag")
  ∧ u "/plugins/llm_image_tag/results/7.json.tmp" ≠ u "/plugins/llm_image_tag/results/7.json"
  ∧ raises run.1 = true
  ∧ files run.2 !! u "/plugins/llm_image_tag/results/7.json" = Some old
  ∧ (∀ path, path ≠ u "/plugins/llm_image_tag/results/7.json.tmp" →
             path ≠ u "/plugins/llm_image_tag/results/7.json" →
             files run.2 !! path = files w !! path).
Proof.
  intros old w run.
  assert (u "/plugins/llm_image_tag/results/7.json.tmp"
          ≠ u "/plugins/llm_image_tag/results/7.json") as Hne by done.
  pose proof (write_result_is_atomic latin1_runtime sample_env 7 [u "new"] None PNone
                w run.2 run.1 (surjective_pairing run)) as Hatomic.
  change (_plugin_dir sample_env) with (@Ok str (u "/plugins/llm_image_tag")) in Hatomic.
  destruct (Hatomic Hne) as [Hframe Hfinal].
  split_and!; [reflexivity | exact Hne | reflexivity | | exact Hframe].
  change (run.1) with (@Raise unit (Exn OSError (u "disk full"))) in Hfinal.
  etrans; [exact Hfinal | reflexivity].
Defined.

Lemma task_persists_the_record_witness :
  requested_image latin1_runtime sample_env = Some 7%Z
  ∧ no_fault 3 empty_world
  ∧ task_record latin1_runtime sample_env 7 (requested_id sample_env)
    = {| image_id := 7; tags := [u "cat"; u "outdoor"]; error := None; request_id := None |}
  ∧ ∃ w' dir,
      tag_image_task latin1_runtime sample_env empty_world = (Ok (), w')
      ∧ _plugin_dir sample_env = Ok dir
      ∧ files w' !! os_path_join latin1_runtime
                      (os_path_join latin1_runtime dir (u "results"))
                      (result_filename 7
                         (safe_request_id_of latin1_runtime (requested_id sample_env)))
        = Some (task_record latin1_runtime sample_env 7 (requested_id sample_env))
      ∧ Forall (tag_ok latin1_runtime)
          (tags (task_record latin1_runtime sample_env 7 (requested_id sample_env)))
      ∧ NoDup (tags (task_record latin1_runtime sample_env 7 (requested_id sample_env)))
      ∧ (error (task_record latin1_runtime sample_env 7 (requested_id sample_env)) = None
         ↔ py_truthy (found_path sample_env 7) = true).
Proof.
  assert (no_fault 3 empty_world) as Hnf by (intros f H; by apply elem_of_nil in H).
  split_and!; [reflexivity | exact Hnf | by vm_compute |].
  apply (task_persists_the_record latin1_runtime sample_env 7 empty_world eq_refl Hnf).
Defined.

Lemma task_without_image_id_writes_nothing_witness :
  let env := env_of (PDict [(u "args", PDict [(u "image_id", PStr (u "seven"))])])
                    (Ok PNone) (PStr (u "tag_image_task")) in
  requested_image latin1_runtime env = None
  ∧ ∃ w', tag_image_task latin1_runtime env empty_world = (Ok (), w')
          ∧ same_fs empty_world w' ∧ stdout w' = stdout empty_world.
Proof.
  intros env. split; [reflexivity|].
  apply (task_without_image_id_writes_nothing latin1_runtime env empty_world). reflexivity.
Defined.

Lemma task_writes_only_normalized_records_witness :
  let old := {| image_id := 8; tags := [u "OLD TAG!"]; error := None; request_id := None |} in
  let w := {| files := {[ u "/plugins/llm_image_tag/results/8.json" := old ]};
              fs_faults := []; log := []; stdout := [] |} in
  let run := tag_image_task latin1_runtime sample_env w in
  files run.2 !! u "/plugins/llm_image_tag/results/8.json" = Some old
  ∧ files w !! u "/plugins/llm_image_tag/results/7.json" = None
  ∧ ∃ doc, files run.2 !! u "/plugins/llm_image_tag/results/7.json" = Some doc
           ∧ Forall (tag_ok latin1_runtime) (tags doc) ∧ NoDup (tags doc)
           ∧ image_id doc = 7%Z
           ∧ request_id doc = safe_request_id_of latin1_runtime (requested_id sample_env).
Proof.
  intros old w run.
  assert (files w !! u "/plugins/llm_image_tag/results/7.json" = None) as Hnew by done.
  split; [by vm_compute|]. split; [exact Hnew|].
  destruct (task_writes_only_normalized_records latin1_runtime sample_env w run.2 run.1
              (u "/plugins/llm_image_tag/results/7.json") (surjective_pairing run))
    as [Hsame|(dir & id & Hdir & Hid & [Htmp|[_ Hdoc]])].
  - rewrite Hnew in Hsame. by vm_compute in Hsame.
  - injection Hdir as <-. injection Hid as <-. by vm_compute in Htmp.
  - injection Hid as <-. exact Hdoc.
Defined.

Lemma task_records_a_failed_write_witness :
  let w := {| files := ∅; fs_faults := [None; Some (u "disk full")];
              log := []; stdout := [] |} in
  requested_image latin1_runtime sample_env = Some 7%Z
  ∧ fs_faults w = replicate 1 None ++ Some (u "disk full") :: []
  ∧ ∃ w' dir,
      tag_image_task latin1_runtime sample_env w = (Ok (), w')
      ∧ _plugin_dir sample_env = Ok dir
      ∧ files w' !! os_path_join latin1_runtime
                      (os_path_join latin1_runtime dir (u "results"))
                      (result_filename 7
                         (safe_request_id_of latin1_runtime (requested_id sample_env)))
        = Some {| image_id := 7; tags := []; error := Some (u "disk full");
                  request_id := safe_request_id_of latin1_runtime (requested_id sample_env) |}.
Proof.
  intros w. split_and!; [reflexivity | reflexivity |].
  apply (task_records_a_failed_write latin1_runtime sample_env 7 w 1 (u "disk full") []);
    [reflexivity | reflexivity | lia |].
  intros f H. by apply elem_of_nil in H.
Defined.

Lemma fetch_image_path_prefers_the_image_url_witness :
  let url := PStr (u "http://stash/image/7") in
  let img := [(u "paths", PDict [(u "image", url)])] in
  let on_disk := [(u "files", PList [PDict [(u "path", PStr (u "/data/7.png"))]])] in
  let env := env_of (sample_input PNone) (Ok PNone) (PStr (u "tag_image_task")) in
  graphql_findImage sample_env (str_of_int 7) = Ok (findImage_reply img)
  ∧ found_path sample_env 7 = url
  ∧ (∀ first more,
       graphql_findImage env (str_of_int 7) = Ok (findImage_reply on_disk) →
       dict_lookup on_disk (u "paths") = None →
       dict_lookup on_disk (u "files") = Some (PList (PDict first :: more)) →
       found_path env 7 = from_option id PNone (dict_lookup first (u "path")))
  ∧ raises (graphql_findImage sample_env (str_of_int 7)) = false.
Proof.
  intros url img on_disk env.
  pose proof (fetch_image_path_prefers_the_image_url sample_env 7 img) as (Hpaths & _ & _).
  pose proof (fetch_image_path_prefers_the_image_url env 7 on_disk) as (_ & Hfiles & _).
  split_and!; [reflexivity | | exact Hfiles | reflexivity].
  apply (Hpaths [(u "image", url)] url); reflexivity.
Defined.

Lemma base_url_has_no_trailing_slash_witness :
  let env := env_with [(u "llmBaseUrl", PStr (u " // "))] [] in
  url_sources latin1_runtime env !! 1 = Some (ui_url env)
  ∧ url_value latin1_runtime (ui_url env) = Some (u " // ")
  ∧ Forall (λ c, c = 47%N) (strip latin1_runtime (u " // "))
  ∧ _resolve_base_url latin1_runtime env = []
  ∧ last (_resolve_base_url latin1_runtime sample_env) ≠ Some 47%N
  ∧ module_config latin1_runtime sample_env = Ok sample_config
  ∧ llm_url sample_config
    = _resolve_base_url latin1_runtime sample_env ++ u "/chat/completions".
Proof.
  intros env.
  pose proof (base_url_has_no_trailing_slash latin1_runtime env) as (_ & _ & Hempty).
  pose proof (base_url_has_no_trailing_slash latin1_runtime sample_env) as (Hlast & Hcfg & _).
  assert (Forall (λ c, c = 47%N) (strip latin1_runtime (u " // "))) as Hslashes
    by by repeat constructor.
  split_and!; [reflexivity | reflexivity | exact Hslashes | | exact Hlast | reflexivity |].
  - apply (Hempty 1 (ui_url env) (u " // ")); [reflexivity | reflexivity | | exact Hslashes].
    intros j earlier Hj Hl. destruct j as [|j]; [|lia]. by injection Hl as <-.
  - apply (Hcfg sample_config). reflexivity.
Defined.

Lemma fetched_base_url_is_trimmed_witness :
  let plugins := [(u "LLMImageTag", PDict [(u "llmBaseUrl", PStr (u " http://gpu:8080/v1 "))])] in
  let env := env_of (sample_input PNone) (Ok (configuration_reply plugins))
                    (PStr (u "tag_image_task")) in
  graphql_configuration env = Ok (configuration_reply plugins)
  ∧ strip latin1_runtime (u " http://gpu:8080/v1 ") ≠ []
  ∧ _fetch_llm_base_url_from_settings latin1_runtime env = Some (u "http://gpu:8080/v1")
  ∧ strip latin1_runtime (u "http://gpu:8080/v1") = u "http://gpu:8080/v1"
  ∧ u "http://gpu:8080/v1" ≠ [].
Proof.
  intros plugins env.
  pose proof (fetched_base_url_is_trimmed latin1_runtime env) as (Htrim & _ & _ & Hsecond).
  assert (_fetch_llm_base_url_from_settings latin1_runtime env = Some (u "http://gpu:8080/v1"))
    as Hfetch.
  { apply (Hsecond plugins [(u "llmBaseUrl", PStr (u " http://gpu:8080/v1 "))]
             (u " http://gpu:8080/v1 ")); done. }
  split_and!; [reflexivity | done | exact Hfetch | apply (Htrim _ Hfetch)..].
Defined.


Lemma entry_point_without_task_writes_nothing_witness :
  let env := env_of (PDict [(u "args", PDict [(u "mode", PStr (u "scan"))])])
                    (Ok PNone) (PStr (u "scan_task")) in
  py_eq_str (PLUGIN_TASK_NAME env) (u "tag_image_task") = false
  ∧ ∃ w', entry_point latin1_runtime env empty_world = (Ok (), w')
          ∧ same_fs empty_world w' ∧ stdout w' = stdout empty_world ++ [u "null"].
Proof.
  intros env. split; [reflexivity|].
  apply (entry_point_without_task_writes_nothing latin1_runtime env empty_world);
    [reflexivity|].
  intros mode [= <-]. reflexivity.
Defined.

Lemma module_config_defaults_witness :
  module_config latin1_runtime sample_env =
    Ok {| BASE_URL := _resolve_base_url latin1_runtime sample_env;
          MODEL := u "gemma3:4b-it-q8_0";
          TEMP := float_of_literal latin1_runtime (u "0.7");
          MAX_TOKENS := (-1)%Z;
          TIMEOUT := float_of_literal latin1_runtime (u "3600.0");
          API_KEY := from_option id (u "none") (getenv sample_env (u "LLM_API_KEY")) |}
  ∧ (getenv sample_env (u "LLM_TAG_PROMPT") = None → PROMPT sample_env = PROMPT_DEFAULT).
Proof. by apply (module_config_defaults latin1_runtime sample_env). Defined.

Lemma plugin_dir_precedence_witness :
  let sc := [(u "plugin_dir", PStr []); (u "PluginDir", PInt 3);
             (u "pluginDir", PStr (u "/opt/stash/plugins/tagger"))] in
  let d := [(u "server_connection", PNone); (u "serverConnection", PDict sc)] in
  let env := env_of (PDict d) (Ok PNone) (PStr (u "tag_image_task")) in
  JSON_INPUT env = PDict d
  ∧ dir_under sc (u "plugin_dir") = None
  ∧ dir_under sc (u "PluginDir") = None
  ∧ dir_under sc (u "pluginDir") = Some (u "/opt/stash/plugins/tagger")
  ∧ _plugin_dir env = Ok (u "/opt/stash/plugins/tagger")
  ∧ ∃ dir, _plugin_dir env = Ok dir ∧ (dir = module_dir env ∨ dir ≠ []).
Proof.
  intros sc d env.
  pose proof (plugin_dir_precedence env d eq_refl) as (Hdir & _ & Hsecond & _).
  assert (answers_from env sc) as (_ & _ & Hthird & _).
  { apply Hsecond; [|reflexivity]. by intros a [= <-]. }
  split_and!; [reflexivity | reflexivity | reflexivity | reflexivity | | exact Hdir].
  apply Hthird; reflexivity.
Defined.

Lemma b64encode_is_faithful_witness :
  b64encode [77; 97; 110; 33]%N = u "TWFuIQ=="
  ∧ length (b64encode [77; 97; 110; 33]%N) = 4 * ((length [77; 97; 110; 33]%N + 2) `div` 3)
  ∧ Forall (λ c, is_b64_char c = true) (b64encode [77; 97; 110; 33]%N)
  ∧ (∀ data', is_bytes [77; 97; 110; 33]%N → is_bytes data' →
              b64encode [77; 97; 110; 33]%N = b64encode data' →
              [77; 97; 110; 33]%N = data').
Proof. split; [reflexivity | exact (b64encode_is_faithful [77; 97; 110; 33]%N)]. Defined.

Lemma task_stores_the_normalized_reply_witness :
  let env := wired_env latin1_runtime sample_env sample_net sample_config in
  let reply := q "['cat', 'outdoor', 'CAT']" in
  wired latin1_runtime env sample_net sample_config
  ∧ requested_image latin1_runtime env = Some 7%Z
  ∧ found_path env 7 = PStr (u "http://stash/image/7")
  ∧ _existing_tags env = [u "cat"; u "kitten"; u "dog"]
  ∧ first_choice_content (reply_with (PStr reply)) (PStr reply)
  ∧ normalize latin1_runtime reply = Ok [u "cat"; u "outdoor"]
  ∧ ∃ w' dir tgs,
      tag_image_task latin1_runtime env empty_world = (Ok (), w')
      ∧ _plugin_dir env = Ok dir
      ∧ normalize latin1_runtime reply = Ok tgs
      ∧ files w' !! os_path_join latin1_runtime
                      (os_path_join latin1_runtime dir (u "results"))
                      (result_filename 7
                         (safe_request_id_of latin1_runtime (requested_id env)))
        = Some {| image_id := 7; tags := tgs; error := None;
                  request_id := safe_request_id_of latin1_runtime (requested_id env) |}.
Proof.
  intros env reply.
  pose proof (wired_env_is_wired latin1_runtime sample_env sample_net sample_config) as Hwired.
  assert (first_choice_content (reply_with (PStr reply)) (PStr reply)) as Hdata.
  { eexists _, _, _, _. by split_and!. }
  split_and!; [exact Hwired | reflexivity | reflexivity | by vm_compute | exact Hdata
               | by vm_compute |].
  apply (task_stores_the_normalized_reply latin1_runtime env sample_net sample_config 7
           (u "http://stash/image/7") 200 {[ u "Content-Type" := u "image/png" ]}
           [137; 80; 78; 71]%N (reply_with (PStr reply)) reply empty_world);
    [exact Hwired | reflexivity | reflexivity | reflexivity | reflexivity | lia
    | reflexivity | exact Hdata | done |].
  intros f H. by apply elem_of_nil in H.
Defined.

Lemma parse_tags_reads_a_plain_list_witness :
  let items := [u "Beach"; u "sunset"; u "#beach"] in
  Forall (λ t, (44%N ∉ t) ∧ (91%N ∉ t) ∧ (10%N ∉ t)) items
  ∧ join (u ", ") items = u "Beach, sunset, #beach"
  ∧ uniq_loop (cleaned_loop latin1_runtime items) = [u "beach"; u "sunset"]
  ∧ _parse_tags latin1_runtime (join (u ", ") items)
    = Ok (uniq_loop (cleaned_loop latin1_runtime items))
  ∧ _parse_tags latin1_runtime (join [10%N] items)
    = Ok (uniq_loop (cleaned_loop latin1_runtime items)).
Proof.
  intros items.
  assert (Forall (λ t, (44%N ∉ t) ∧ (91%N ∉ t) ∧ (10%N ∉ t)) items) as Hitems.
  { repeat (apply Forall_cons; split;
            [split_and!; apply (bool_decide_unpack _); vm_compute; exact I|]).
    constructor. }
  split_and!; [exact Hitems | reflexivity | reflexivity
               | apply (parse_tags_reads_a_plain_list latin1_runtime items Hitems)..].
Defined.
